(** * approved-secrets: the storage accessor, the role registry, the lease
      hooks and the approval workflow of the Vault plugin, embedded in Rocq.

    Source files embedded here (all under [secret/approved-secrets]):
    - [atomic_storage_accessor.go]: [get], [put], [list], [delete];
    - [backend.go]: [newBackend], [role], [config], [request], [issue],
      [newVaultTokenRenewer];
    - [path_roles.go]: [pathRoleCreateUpdate], [pathRoleDelete],
      [pathRoleList];
    - the secret hooks [secretApprovedSecretIssueRenew] and
      [secretApprovedSecretIssueRevoke], and [newVaultClient].
    The request, approve and issue paths are not among the sources; [Module
    Workflow] follows the specification for them.

    Go strings are byte strings ([string]); Go [int] and [time.Duration] are
    64-bit signed integers, kept in [Z] with the wrap-around written out. *)

From Stdlib Require Import ZArith Lia Ascii String List Bool.
From stdpp Require Import base option list strings gmap sets.

Local Open Scope string_scope.
Local Open Scope Z_scope.
#[local] Arguments String.append !s1 s2 : simpl nomatch.

(** ** Go's [strings] and [path] packages, as far as the accessor uses them *)
Module GoStrings.

(** [unicode.ToLower] on one byte. The plugin's names and nonces are ASCII;
    bytes outside [A-Z] are left alone. *)
Definition lower_ascii (c : ascii) : ascii :=
  let n := nat_of_ascii c in
  if (Nat.leb 65 n && Nat.leb n 90)%bool then ascii_of_nat (n + 32) else c.

(** [strings.ToLower]. *)
Fixpoint ToLower (s : string) : string :=
  match s with
  | EmptyString => EmptyString
  | String c r => String (lower_ascii c) (ToLower r)
  end.

(** Two bytes that are the same letter up to case. *)
Definition same_letter (a b : ascii) : bool :=
  Ascii.eqb (lower_ascii a) (lower_ascii b).

(** Two strings that differ only in letter case, position by position. *)
Fixpoint eq_fold (s t : string) : bool :=
  match s, t with
  | EmptyString, EmptyString => true
  | String a s', String b t' => same_letter a b && eq_fold s' t'
  | _, _ => false
  end.

(** [strings.HasPrefix]. *)
Fixpoint HasPrefix (s p : string) {struct p} : bool :=
  match p, s with
  | EmptyString, _ => true
  | String b p', String a s' => Ascii.eqb a b && HasPrefix s' p'
  | String _ _, EmptyString => false
  end.

(** [s[n:]]. *)
Fixpoint drop_bytes (n : nat) (s : string) : string :=
  match n, s with
  | O, _ => s
  | S n', String _ r => drop_bytes n' r
  | S _, EmptyString => EmptyString
  end.

(** [strings.TrimPrefix]. *)
Definition TrimPrefix (s p : string) : string :=
  if HasPrefix s p then drop_bytes (String.length p) s else s.

(** Does the string hold a ['/']? ([strings.Index(s, "/") != -1]) *)
Fixpoint has_slash (s : string) : bool :=
  match s with
  | EmptyString => false
  | String c r => Ascii.eqb c "/" || has_slash r
  end.

(** The string up to and including its first ['/'] ([s[:i+1]]); the whole
    string when there is none. *)
Fixpoint upto_slash (s : string) : string :=
  match s with
  | EmptyString => EmptyString
  | String c r =>
      if Ascii.eqb c "/" then String c EmptyString else String c (upto_slash r)
  end.

(** [strings.Split(s, "/")]. *)
Fixpoint split_slash (s : string) : list string :=
  match s with
  | EmptyString => [EmptyString]
  | String c r =>
      if Ascii.eqb c "/" then EmptyString :: split_slash r
      else match split_slash r with
           | [] => [String c EmptyString]
           | h :: t => String c h :: t
           end
  end.

(** [strings.Join(elems, "/")]. *)
Fixpoint join_slash (l : list string) : string :=
  match l with
  | [] => EmptyString
  | [e] => e
  | e :: r => e +:+ "/" +:+ join_slash r
  end.

End GoStrings.

Module GoPath.
Import GoStrings.

Definition rooted (s : string) : bool :=
  match s with
  | String c _ => Ascii.eqb c "/"
  | EmptyString => false
  end.

(** The element loop of [path.Clean]: empty and ["."] elements are dropped;
    [".."] removes the element before it, is dropped at the root, and is
    kept at the start of a relative path. [stack] is the output so far, last
    element first. *)
Fixpoint clean_elems (is_rooted : bool) (stack : list string)
         (es : list string) : list string :=
  match es with
  | [] => rev stack
  | e :: es' =>
      if String.eqb e "" || String.eqb e "." then clean_elems is_rooted stack es'
      else if String.eqb e ".." then
        match stack with
        | top :: stack' =>
            if String.eqb top ".."
            then clean_elems is_rooted (e :: stack) es'
            else clean_elems is_rooted stack' es'
        | [] =>
            if is_rooted then clean_elems is_rooted [] es'
            else clean_elems is_rooted [e] es'
        end
      else clean_elems is_rooted (e :: stack) es'
  end.

(** [path.Clean]. *)
Definition Clean (p : string) : string :=
  let r := rooted p in
  let body := join_slash (clean_elems r [] (split_slash p)) in
  if r then "/" +:+ body
  else if String.eqb body "" then "." else body.

(** [path.Join(a, b)]: empty elements are ignored, the rest is joined with
    ['/'] and cleaned; the result is empty when every element is. *)
Definition Join (a b : string) : string :=
  if String.eqb a "" then (if String.eqb b "" then "" else Clean b)
  else if String.eqb b "" then Clean a
  else Clean (a +:+ "/" +:+ b).

End GoPath.

(** ** The host's side: JSON documents, the key-value store, responses *)
Module Logical.
Import GoStrings GoPath.

(** A JSON document, as [encoding/json] writes and reads it. *)
#[local] Set Warnings "-register-all".
Inductive json : Type :=
| JNull
| JBool (b : bool)
| JNum (n : Z)
| JStr (s : string)
| JArr (items : list json)
| JObj (fields : list (string * json)).

(** Values the plugin writes to the store and reads back:
    [logical.StorageEntryJSON] on the way in, [json.Unmarshal] on the way
    out. [marshal] fails on values [encoding/json] cannot encode, [unmarshal]
    on a document of the wrong shape. *)
Class JSON (A : Type) := {
  marshal : A -> option json;
  unmarshal : json -> option A
}.

Inductive error : Type :=
| ErrStorage (op key : string)         (* the store refused the operation *)
| ErrJSON (key : string)               (* encoding or decoding failed *)
| ErrCoded (status : Z) (msg : string) (* logical.CodedError *)
| ErrMsg (msg : string).

(** A Go result pair [(T, error)] where one side is set. *)
Inductive result (A : Type) : Type :=
| Ok (a : A)
| Err (e : error).
Arguments Ok {A} a.
Arguments Err {A} e.

(** [logical.StorageEntry]. *)
Record StorageEntry := { Key : string; Value : json }.

(** [logical.Storage], after the SDK's [InmemStorage] the repository's tests
    run against: a map from keys to documents, and one switch per operation
    that makes the operation return an error. *)
Record Storage := {
  kv : gmap string json;
  fail_get : bool;
  fail_put : bool;
  fail_list : bool;
  fail_delete : bool
}.

Definition with_kv (s : Storage) (m : gmap string json) : Storage :=
  {| kv := m; fail_get := fail_get s; fail_put := fail_put s;
     fail_list := fail_list s; fail_delete := fail_delete s |}.

Definition healthy (m : gmap string json) : Storage :=
  {| kv := m; fail_get := false; fail_put := false;
     fail_list := false; fail_delete := false |}.

(** [s.Get(ctx, key)]: the entry, or nil when the key is absent. *)
Definition Get (s : Storage) (key : string) : result (option StorageEntry) :=
  if fail_get s then Err (ErrStorage "get" key)
  else Ok ((fun v => {| Key := key; Value := v |}) <$> kv s !! key).

(** [s.Put(ctx, entry)]. *)
Definition Put (s : Storage) (e : StorageEntry) : option error * Storage :=
  if fail_put s then (Some (ErrStorage "put" (Key e)), s)
  else (None, with_kv s (<[Key e := Value e]> (kv s))).

(** [s.Delete(ctx, key)]: deleting an absent key is not an error. *)
Definition Delete (s : Storage) (key : string) : option error * Storage :=
  if fail_delete s then (Some (ErrStorage "delete" key), s)
  else (None, with_kv s (delete key (kv s))).

(** The name [List] reports for a key under [prefix]: the rest of the key
    when it is a leaf, the rest up to and including the first ['/'] when it
    lies deeper. *)
Definition child_of (prefix key : string) : string :=
  let trimmed := TrimPrefix key prefix in
  if has_slash trimmed then upto_slash trimmed else trimmed.

(** [s.List(ctx, prefix)]: the direct children of [prefix], each once. The
    order is the store's and is not relied on. *)
Definition List (s : Storage) (prefix : string) : result (list string) :=
  if fail_list s then Err (ErrStorage "list" prefix)
  else Ok (remove_dups
             (child_of prefix <$>
                filter (fun k => HasPrefix k prefix = true)
                       (fst <$> map_to_list (kv s)))).

(** [logical.StorageEntryJSON(key, data)]. *)
Definition StorageEntryJSON `{JSON A} (key : string) (data : A)
  : result StorageEntry :=
  match marshal data with
  | Some doc => Ok {| Key := key; Value := doc |}
  | None => Err (ErrJSON key)
  end.

(** The lease part of a response ([logical.Secret]): a response that carries
    one starts or extends a lease. *)
Record Secret := {
  LeaseTTL : Z;
  Renewable : bool;
  InternalData : gmap string json
}.

(** [logical.Response]. *)
Record Response := {
  Data : gmap string json;
  Warnings : list string;
  RespSecret : option Secret
}.

Definition emptyResponse : Response :=
  {| Data := ∅; Warnings := []; RespSecret := None |}.

(** [logical.ErrorResponse(text)]. *)
Definition ErrorResponse (text : string) : Response :=
  {| Data := {["error" := JStr text]}; Warnings := []; RespSecret := None |}.

(** [Response.AddWarning]. *)
Definition AddWarning (r : Response) (w : string) : Response :=
  {| Data := Data r; Warnings := Warnings r ++ [w]; RespSecret := RespSecret r |}.

(** [Response.IsError]: exactly one data field, named ["error"]. *)
Definition IsError (r : option Response) : bool :=
  match r with
  | Some r => bool_decide (size (Data r) = 1%nat) &&
              bool_decide (is_Some (Data r !! "error"))
  | None => false
  end.

(** What a path or secret callback returns: a [logical.Response]
    pointer and an [error]. *)
Definition Reply : Type := option Response * option error.

End Logical.


(** ** atomic_storage_accessor.go *)
Module Accessor.
Import GoStrings GoPath Logical.

(** [atomicStorageAccessor]: the namespace path. Its [sync.RWMutex] has no
    effect on what one call returns; the lock is modelled with the
    interleaving of calls in [Module Locking]. *)
Record atomicStorageAccessor := { path : string }.

Definition newAtomicStorageAccessor (p : string) : atomicStorageAccessor :=
  {| path := p |}.

(** The loop every operation starts with:
    [key := a.path; for subkey: key = path.Join(key, strings.ToLower(subkey))]. *)
Definition storage_key (a : atomicStorageAccessor) (subkeys : list string)
  : string :=
  fold_left (fun key subkey => Join key (ToLower subkey)) subkeys (path a).

Definition get (a : atomicStorageAccessor) (s : Storage)
           (subkeys : list string) : result (option StorageEntry) :=
  Get s (storage_key a subkeys).

(** [put]: [StorageEntryJSON] never returns a nil entry without an error, so
    the source's [entry == nil] branch has no case here. *)
Definition put `{JSON A} (a : atomicStorageAccessor) (s : Storage) (data : A)
           (subkeys : list string) : option error * Storage :=
  match StorageEntryJSON (storage_key a subkeys) data with
  | Err e => (Some e, s)
  | Ok entry => Put s entry
  end.

Definition list (a : atomicStorageAccessor) (s : Storage)
           (subkeys : list string) : result (list string) :=
  List s (storage_key a subkeys +:+ "/").

Definition delete (a : atomicStorageAccessor) (s : Storage)
           (subkeys : Datatypes.list string) : option error * Storage :=
  Delete s (storage_key a subkeys).

End Accessor.

(** ** Stored records and their JSON form *)
Module Entries.
Import Logical.

(** [time.Second], in nanoseconds. *)
Definition Second : Z := 1000000000.

(** Reduction of an integer to Go's [int64] (two's complement). *)
Definition wrap64 (x : Z) : Z := (x + 2 ^ 63) mod 2 ^ 64 - 2 ^ 63.

(** [time.Second * time.Duration(n)]. *)
Definition seconds (n : Z) : Z := wrap64 (Second * n).

(** [roleStorageEntry] (path_roles.go). A nil slice is the empty list; a nil
    [SecretData] map is [None]. *)
Record roleStorageEntry := {
  SecretPath : string;
  SecretPathMethod : string;
  SecretData : option (list (string * json));
  SecretType : string;
  SecretEnvironment : string;
  SecretAWSStateRole : string;
  SecretRequiredFields : list string;
  SecretTTL : Z;
  SecretMaxTTL : Z;
  ExclusiveLease : bool;
  MinApprovers : Z;
  BoundRequesterIDs : list string;
  BoundRequesterRoles : list string;
  BoundApproverIDs : list string;
  BoundApproverRoles : list string;
  NotifySlackChannels : list string
}.

(** [&roleStorageEntry{}]. *)
Definition zeroRole : roleStorageEntry :=
  {| SecretPath := ""; SecretPathMethod := ""; SecretData := None;
     SecretType := ""; SecretEnvironment := ""; SecretAWSStateRole := "";
     SecretRequiredFields := []; SecretTTL := 0; SecretMaxTTL := 0;
     ExclusiveLease := false; MinApprovers := 0;
     BoundRequesterIDs := []; BoundRequesterRoles := [];
     BoundApproverIDs := []; BoundApproverRoles := [];
     NotifySlackChannels := [] |}.

(** [configStorageEntry] (path_config.go). *)
Record configStorageEntry := {
  ApprovalTTL : Z;
  VaultAddr : string;
  VaultToken : string;
  VaultPolicies : list string;
  IdentityTemplate : string;
  SlackWebhookURL : string
}.

(** *** Encoding *)
Definition enc_strings (l : list string) : json :=
  match l with
  | [] => JNull
  | _ => JArr (JStr <$> l)
  end.

Definition enc_map (m : option (list (string * json))) : json :=
  match m with
  | None => JNull
  | Some fields => JObj fields
  end.

(** *** Decoding: a missing field or [null] leaves the zero value, a value of
    the wrong JSON type is an error. *)
Fixpoint obj_field (k : string) (fields : list (string * json)) : json :=
  match fields with
  | [] => JNull
  | (k', v) :: rest => if String.eqb k' k then v else obj_field k rest
  end.

Definition dec_string (j : json) : option string :=
  match j with
  | JStr s => Some s
  | JNull => Some ""
  | _ => None
  end.

Definition dec_int (j : json) : option Z :=
  match j with
  | JNum n => Some n
  | JNull => Some 0
  | _ => None
  end.

Definition dec_bool (j : json) : option bool :=
  match j with
  | JBool b => Some b
  | JNull => Some false
  | _ => None
  end.

Fixpoint dec_string_items (items : list json) : option (list string) :=
  match items with
  | [] => Some []
  | j :: rest =>
      s ← dec_string j;
      l ← dec_string_items rest;
      Some (s :: l)
  end.

Definition dec_strings (j : json) : option (list string) :=
  match j with
  | JArr items => dec_string_items items
  | JNull => Some []
  | _ => None
  end.

Definition dec_map (j : json) : option (option (list (string * json))) :=
  match j with
  | JObj fields => Some (Some fields)
  | JNull => Some None
  | _ => None
  end.

Definition role_to_json (r : roleStorageEntry) : json :=
  JObj [ ("secret_path", JStr (SecretPath r));
         ("secret_path_method", JStr (SecretPathMethod r));
         ("secret_data", enc_map (SecretData r));
         ("secret_type", JStr (SecretType r));
         ("secret_environment", JStr (SecretEnvironment r));
         ("secret_aws_state_role", JStr (SecretAWSStateRole r));
         ("secret_required_fields", enc_strings (SecretRequiredFields r));
         ("secret_ttl", JNum (SecretTTL r));
         ("secret_max_ttl", JNum (SecretMaxTTL r));
         ("exclusive_lease", JBool (ExclusiveLease r));
         ("min_approvers", JNum (MinApprovers r));
         ("allowed_requester_ids", enc_strings (BoundRequesterIDs r));
         ("allowed_requester_roles", enc_strings (BoundRequesterRoles r));
         ("allowed_approver_ids", enc_strings (BoundApproverIDs r));
         ("allowed_approver_roles", enc_strings (BoundApproverRoles r));
         ("notify_slack_channels", enc_strings (NotifySlackChannels r)) ].

Definition role_of_fields (f : list (string * json)) : option roleStorageEntry :=
  p ← dec_string (obj_field "secret_path" f);
  m ← dec_string (obj_field "secret_path_method" f);
  d ← dec_map (obj_field "secret_data" f);
  t ← dec_string (obj_field "secret_type" f);
  e ← dec_string (obj_field "secret_environment" f);
  a ← dec_string (obj_field "secret_aws_state_role" f);
  q ← dec_strings (obj_field "secret_required_fields" f);
  ttl ← dec_int (obj_field "secret_ttl" f);
  mttl ← dec_int (obj_field "secret_max_ttl" f);
  x ← dec_bool (obj_field "exclusive_lease" f);
  k ← dec_int (obj_field "min_approvers" f);
  ri ← dec_strings (obj_field "allowed_requester_ids" f);
  rr ← dec_strings (obj_field "allowed_requester_roles" f);
  ai ← dec_strings (obj_field "allowed_approver_ids" f);
  ar ← dec_strings (obj_field "allowed_approver_roles" f);
  n ← dec_strings (obj_field "notify_slack_channels" f);
  Some {| SecretPath := p; SecretPathMethod := m; SecretData := d;
          SecretType := t; SecretEnvironment := e; SecretAWSStateRole := a;
          SecretRequiredFields := q; SecretTTL := ttl; SecretMaxTTL := mttl;
          ExclusiveLease := x; MinApprovers := k;
          BoundRequesterIDs := ri; BoundRequesterRoles := rr;
          BoundApproverIDs := ai; BoundApproverRoles := ar;
          NotifySlackChannels := n |}.

Definition role_of_json (j : json) : option roleStorageEntry :=
  match j with
  | JObj f => role_of_fields f
  | JNull => Some zeroRole
  | _ => None
  end.

#[export] Instance role_JSON : JSON roleStorageEntry :=
  {| marshal r := Some (role_to_json r); unmarshal := role_of_json |}.

Definition config_to_json (c : configStorageEntry) : json :=
  JObj [ ("approval_ttl", JNum (ApprovalTTL c));
         ("vault_addr", JStr (VaultAddr c));
         ("vault_token", JStr (VaultToken c));
         ("vault_policies", enc_strings (VaultPolicies c));
         ("identity_template", JStr (IdentityTemplate c));
         ("slack_webhook_url", JStr (SlackWebhookURL c)) ].

Definition config_of_json (j : json) : option configStorageEntry :=
  match j with
  | JObj f =>
      t ← dec_int (obj_field "approval_ttl" f);
      a ← dec_string (obj_field "vault_addr" f);
      k ← dec_string (obj_field "vault_token" f);
      p ← dec_strings (obj_field "vault_policies" f);
      i ← dec_string (obj_field "identity_template" f);
      w ← dec_string (obj_field "slack_webhook_url" f);
      Some {| ApprovalTTL := t; VaultAddr := a; VaultToken := k;
              VaultPolicies := p; IdentityTemplate := i; SlackWebhookURL := w |}
  | JNull => Some {| ApprovalTTL := 0; VaultAddr := ""; VaultToken := "";
                     VaultPolicies := []; IdentityTemplate := "";
                     SlackWebhookURL := "" |}
  | _ => None
  end.

#[export] Instance config_JSON : JSON configStorageEntry :=
  {| marshal c := Some (config_to_json c); unmarshal := config_of_json |}.

End Entries.

(** ** backend.go and path_roles.go *)
Module Backend.
Import GoStrings GoPath Logical Entries.
Import Accessor (atomicStorageAccessor, newAtomicStorageAccessor, storage_key).

(** [backend]: one accessor per namespace. *)
Record backend := {
  configAccessor : atomicStorageAccessor;
  roleAccessor : atomicStorageAccessor;
  requestAccessor : atomicStorageAccessor;
  issueAccessor : atomicStorageAccessor
}.

Definition newBackend : backend :=
  {| configAccessor := newAtomicStorageAccessor "config";
     roleAccessor := newAtomicStorageAccessor "role";
     requestAccessor := newAtomicStorageAccessor "request";
     issueAccessor := newAtomicStorageAccessor "issue" |}.

(** The shape shared by [role], [config], [request] and [issue]: read the
    entry, report an absent one as nil, decode a present one. *)
Definition load `{JSON A} (a : atomicStorageAccessor) (s : Storage)
           (subkeys : list string) : result (option A) :=
  match Accessor.get a s subkeys with
  | Err e => Err e
  | Ok None => Ok None
  | Ok (Some entry) =>
      match unmarshal (Value entry) with
      | Some v => Ok (Some v)
      | None => Err (ErrJSON (Key entry))
      end
  end.

Definition role (b : backend) (s : Storage) (name : string)
  : result (option roleStorageEntry) :=
  load (roleAccessor b) s [name].

Definition config (b : backend) (s : Storage)
  : result (option configStorageEntry) :=
  load (configAccessor b) s [].

(** The host's system view, as far as the role path asks it. *)
Record SystemView := { MaxLeaseTTL : Z }.

Inductive Operation := CreateOperation | UpdateOperation.

(** [framework.FieldData] for the [roles/<name>] path, after the framework has
    parsed the raw request against the schema: a field the caller did not send
    is [None] (then [GetOk] reports [ok = false]). A map that was sent can
    still be nil or empty. Durations are in seconds. *)
Record FieldData := {
  fd_name : string;
  fd_secret_path : option string;
  fd_secret_path_method : option string;
  fd_secret_data : option (option (list (string * json)));
  fd_secret_type : option string;
  fd_secret_environment : option string;
  fd_secret_aws_state_role : option string;
  fd_secret_required_fields : option (list string);
  fd_secret_ttl : option Z;
  fd_secret_max_ttl : option Z;
  fd_exclusive_lease : option bool;
  fd_min_approvers : option Z;
  fd_bound_requester_ids : option (list string);
  fd_bound_requester_roles : option (list string);
  fd_bound_approver_ids : option (list string);
  fd_bound_approver_roles : option (list string);
  fd_notify_slack_channels : option (list string)
}.

(** The schema's [Default] values ([d.GetDefaultOrZero], and [d.Get] on a
    field that was not sent). *)
Definition default_secret_path_method : string := "GET".
Definition default_secret_ttl : Z := 28800.      (* "8h" *)
Definition default_secret_max_ttl : Z := 43200.  (* "12h" *)
Definition default_exclusive_lease : bool := false.
Definition default_min_approvers : Z := 1.

Definition errBadSecretPathMethod : Response :=
  ErrorResponse "bad secret_path_method (expected POST or GET)".
Definition errBadMinApprovers : Response :=
  ErrorResponse "bad min_approvers (must be >= 1)".
Definition errBadSecretDataMethod : Response :=
  ErrorResponse "bad method for secret_data (must be POST)".
Definition errTTLAboveMax : Response :=
  ErrorResponse "secret_ttl should not be greater than secret_max_ttl".
Definition warnMaxTTLTruncated : string :=
  "secret_max_ttl is greater than the system or backend mount's maximum TTL value; secrets' max TTL value is truncated".

(** Assignments to one field of a role. *)
Definition set_SecretPath v (r : roleStorageEntry) : roleStorageEntry :=
  {| SecretPath := v; SecretPathMethod := SecretPathMethod r;
     SecretData := SecretData r; SecretType := SecretType r;
     SecretEnvironment := SecretEnvironment r;
     SecretAWSStateRole := SecretAWSStateRole r;
     SecretRequiredFields := SecretRequiredFields r;
     SecretTTL := SecretTTL r; SecretMaxTTL := SecretMaxTTL r;
     ExclusiveLease := ExclusiveLease r; MinApprovers := MinApprovers r;
     BoundRequesterIDs := BoundRequesterIDs r;
     BoundRequesterRoles := BoundRequesterRoles r;
     BoundApproverIDs := BoundApproverIDs r;
     BoundApproverRoles := BoundApproverRoles r;
     NotifySlackChannels := NotifySlackChannels r |}.
Definition set_SecretPathMethod v (r : roleStorageEntry) : roleStorageEntry :=
  {| SecretPath := SecretPath r; SecretPathMethod := v;
     SecretData := SecretData r; SecretType := SecretType r;
     SecretEnvironment := SecretEnvironment r;
     SecretAWSStateRole := SecretAWSStateRole r;
     SecretRequiredFields := SecretRequiredFields r;
     SecretTTL := SecretTTL r; SecretMaxTTL := SecretMaxTTL r;
     ExclusiveLease := ExclusiveLease r; MinApprovers := MinApprovers r;
     BoundRequesterIDs := BoundRequesterIDs r;
     BoundRequesterRoles := BoundRequesterRoles r;
     BoundApproverIDs := BoundApproverIDs r;
     BoundApproverRoles := BoundApproverRoles r;
     NotifySlackChannels := NotifySlackChannels r |}.
Definition set_SecretData v (r : roleStorageEntry) : roleStorageEntry :=
  {| SecretPath := SecretPath r; SecretPathMethod := SecretPathMethod r;
     SecretData := v; SecretType := SecretType r;
     SecretEnvironment := SecretEnvironment r;
     SecretAWSStateRole := SecretAWSStateRole r;
     SecretRequiredFields := SecretRequiredFields r;
     SecretTTL := SecretTTL r; SecretMaxTTL := SecretMaxTTL r;
     ExclusiveLease := ExclusiveLease r; MinApprovers := MinApprovers r;
     BoundRequesterIDs := BoundRequesterIDs r;
     BoundRequesterRoles := BoundRequesterRoles r;
     BoundApproverIDs := BoundApproverIDs r;
     BoundApproverRoles := BoundApproverRoles r;
     NotifySlackChannels := NotifySlackChannels r |}.
Definition set_SecretType v (r : roleStorageEntry) : roleStorageEntry :=
  {| SecretPath := SecretPath r; SecretPathMethod := SecretPathMethod r;
     SecretData := SecretData r; SecretType := v;
     SecretEnvironment := SecretEnvironment r;
     SecretAWSStateRole := SecretAWSStateRole r;
     SecretRequiredFields := SecretRequiredFields r;
     SecretTTL := SecretTTL r; SecretMaxTTL := SecretMaxTTL r;
     ExclusiveLease := ExclusiveLease r; MinApprovers := MinApprovers r;
     BoundRequesterIDs := BoundRequesterIDs r;
     BoundRequesterRoles := BoundRequesterRoles r;
     BoundApproverIDs := BoundApproverIDs r;
     BoundApproverRoles := BoundApproverRoles r;
     NotifySlackChannels := NotifySlackChannels r |}.
Definition set_SecretEnvironment v (r : roleStorageEntry) : roleStorageEntry :=
  {| SecretPath := SecretPath r; SecretPathMethod := SecretPathMethod r;
     SecretData := SecretData r; SecretType := SecretType r;
     SecretEnvironment := v; SecretAWSStateRole := SecretAWSStateRole r;
     SecretRequiredFields := SecretRequiredFields r;
     SecretTTL := SecretTTL r; SecretMaxTTL := SecretMaxTTL r;
     ExclusiveLease := ExclusiveLease r; MinApprovers := MinApprovers r;
     BoundRequesterIDs := BoundRequesterIDs r;
     BoundRequesterRoles := BoundRequesterRoles r;
     BoundApproverIDs := BoundApproverIDs r;
     BoundApproverRoles := BoundApproverRoles r;
     NotifySlackChannels := NotifySlackChannels r |}.
Definition set_SecretAWSStateRole v (r : roleStorageEntry) : roleStorageEntry :=
  {| SecretPath := SecretPath r; SecretPathMethod := SecretPathMethod r;
     SecretData := SecretData r; SecretType := SecretType r;
     SecretEnvironment := SecretEnvironment r; SecretAWSStateRole := v;
     SecretRequiredFields := SecretRequiredFields r;
     SecretTTL := SecretTTL r; SecretMaxTTL := SecretMaxTTL r;
     ExclusiveLease := ExclusiveLease r; MinApprovers := MinApprovers r;
     BoundRequesterIDs := BoundRequesterIDs r;
     BoundRequesterRoles := BoundRequesterRoles r;
     BoundApproverIDs := BoundApproverIDs r;
     BoundApproverRoles := BoundApproverRoles r;
     NotifySlackChannels := NotifySlackChannels r |}.
Definition set_SecretRequiredFields v (r : roleStorageEntry) : roleStorageEntry :=
  {| SecretPath := SecretPath r; SecretPathMethod := SecretPathMethod r;
     SecretData := SecretData r; SecretType := SecretType r;
     SecretEnvironment := SecretEnvironment r;
     SecretAWSStateRole := SecretAWSStateRole r; SecretRequiredFields := v;
     SecretTTL := SecretTTL r; SecretMaxTTL := SecretMaxTTL r;
     ExclusiveLease := ExclusiveLease r; MinApprovers := MinApprovers r;
     BoundRequesterIDs := BoundRequesterIDs r;
     BoundRequesterRoles := BoundRequesterRoles r;
     BoundApproverIDs := BoundApproverIDs r;
     BoundApproverRoles := BoundApproverRoles r;
     NotifySlackChannels := NotifySlackChannels r |}.
Definition set_SecretTTL v (r : roleStorageEntry) : roleStorageEntry :=
  {| SecretPath := SecretPath r; SecretPathMethod := SecretPathMethod r;
     SecretData := SecretData r; SecretType := SecretType r;
     SecretEnvironment := SecretEnvironment r;
     SecretAWSStateRole := SecretAWSStateRole r;
     SecretRequiredFields := SecretRequiredFields r; SecretTTL := v;
     SecretMaxTTL := SecretMaxTTL r; ExclusiveLease := ExclusiveLease r;
     MinApprovers := MinApprovers r;
     BoundRequesterIDs := BoundRequesterIDs r;
     BoundRequesterRoles := BoundRequesterRoles r;
     BoundApproverIDs := BoundApproverIDs r;
     BoundApproverRoles := BoundApproverRoles r;
     NotifySlackChannels := NotifySlackChannels r |}.
Definition set_SecretMaxTTL v (r : roleStorageEntry) : roleStorageEntry :=
  {| SecretPath := SecretPath r; SecretPathMethod := SecretPathMethod r;
     SecretData := SecretData r; SecretType := SecretType r;
     SecretEnvironment := SecretEnvironment r;
     SecretAWSStateRole := SecretAWSStateRole r;
     SecretRequiredFields := SecretRequiredFields r;
     SecretTTL := SecretTTL r; SecretMaxTTL := v;
     ExclusiveLease := ExclusiveLease r; MinApprovers := MinApprovers r;
     BoundRequesterIDs := BoundRequesterIDs r;
     BoundRequesterRoles := BoundRequesterRoles r;
     BoundApproverIDs := BoundApproverIDs r;
     BoundApproverRoles := BoundApproverRoles r;
     NotifySlackChannels := NotifySlackChannels r |}.
Definition set_ExclusiveLease v (r : roleStorageEntry) : roleStorageEntry :=
  {| SecretPath := SecretPath r; SecretPathMethod := SecretPathMethod r;
     SecretData := SecretData r; SecretType := SecretType r;
     SecretEnvironment := SecretEnvironment r;
     SecretAWSStateRole := SecretAWSStateRole r;
     SecretRequiredFields := SecretRequiredFields r;
     SecretTTL := SecretTTL r; SecretMaxTTL := SecretMaxTTL r;
     ExclusiveLease := v; MinApprovers := MinApprovers r;
     BoundRequesterIDs := BoundRequesterIDs r;
     BoundRequesterRoles := BoundRequesterRoles r;
     BoundApproverIDs := BoundApproverIDs r;
     BoundApproverRoles := BoundApproverRoles r;
     NotifySlackChannels := NotifySlackChannels r |}.
Definition set_MinApprovers v (r : roleStorageEntry) : roleStorageEntry :=
  {| SecretPath := SecretPath r; SecretPathMethod := SecretPathMethod r;
     SecretData := SecretData r; SecretType := SecretType r;
     SecretEnvironment := SecretEnvironment r;
     SecretAWSStateRole := SecretAWSStateRole r;
     SecretRequiredFields := SecretRequiredFields r;
     SecretTTL := SecretTTL r; SecretMaxTTL := SecretMaxTTL r;
     ExclusiveLease := ExclusiveLease r; MinApprovers := v;
     BoundRequesterIDs := BoundRequesterIDs r;
     BoundRequesterRoles := BoundRequesterRoles r;
     BoundApproverIDs := BoundApproverIDs r;
     BoundApproverRoles := BoundApproverRoles r;
     NotifySlackChannels := NotifySlackChannels r |}.
Definition set_BoundRequesterIDs v (r : roleStorageEntry) : roleStorageEntry :=
  {| SecretPath := SecretPath r; SecretPathMethod := SecretPathMethod r;
     SecretData := SecretData r; SecretType := SecretType r;
     SecretEnvironment := SecretEnvironment r;
     SecretAWSStateRole := SecretAWSStateRole r;
     SecretRequiredFields := SecretRequiredFields r;
     SecretTTL := SecretTTL r; SecretMaxTTL := SecretMaxTTL r;
     ExclusiveLease := ExclusiveLease r; MinApprovers := MinApprovers r;
     BoundRequesterIDs := v; BoundRequesterRoles := BoundRequesterRoles r;
     BoundApproverIDs := BoundApproverIDs r;
     BoundApproverRoles := BoundApproverRoles r;
     NotifySlackChannels := NotifySlackChannels r |}.
Definition set_BoundRequesterRoles v (r : roleStorageEntry) : roleStorageEntry :=
  {| SecretPath := SecretPath r; SecretPathMethod := SecretPathMethod r;
     SecretData := SecretData r; SecretType := SecretType r;
     SecretEnvironment := SecretEnvironment r;
     SecretAWSStateRole := SecretAWSStateRole r;
     SecretRequiredFields := SecretRequiredFields r;
     SecretTTL := SecretTTL r; SecretMaxTTL := SecretMaxTTL r;
     ExclusiveLease := ExclusiveLease r; MinApprovers := MinApprovers r;
     BoundRequesterIDs := BoundRequesterIDs r; BoundRequesterRoles := v;
     BoundApproverIDs := BoundApproverIDs r;
     BoundApproverRoles := BoundApproverRoles r;
     NotifySlackChannels := NotifySlackChannels r |}.
Definition set_BoundApproverIDs v (r : roleStorageEntry) : roleStorageEntry :=
  {| SecretPath := SecretPath r; SecretPathMethod := SecretPathMethod r;
     SecretData := SecretData r; SecretType := SecretType r;
     SecretEnvironment := SecretEnvironment r;
     SecretAWSStateRole := SecretAWSStateRole r;
     SecretRequiredFields := SecretRequiredFields r;
     SecretTTL := SecretTTL r; SecretMaxTTL := SecretMaxTTL r;
     ExclusiveLease := ExclusiveLease r; MinApprovers := MinApprovers r;
     BoundRequesterIDs := BoundRequesterIDs r;
     BoundRequesterRoles := BoundRequesterRoles r; BoundApproverIDs := v;
     BoundApproverRoles := BoundApproverRoles r;
     NotifySlackChannels := NotifySlackChannels r |}.
Definition set_BoundApproverRoles v (r : roleStorageEntry) : roleStorageEntry :=
  {| SecretPath := SecretPath r; SecretPathMethod := SecretPathMethod r;
     SecretData := SecretData r; SecretType := SecretType r;
     SecretEnvironment := SecretEnvironment r;
     SecretAWSStateRole := SecretAWSStateRole r;
     SecretRequiredFields := SecretRequiredFields r;
     SecretTTL := SecretTTL r; SecretMaxTTL := SecretMaxTTL r;
     ExclusiveLease := ExclusiveLease r; MinApprovers := MinApprovers r;
     BoundRequesterIDs := BoundRequesterIDs r;
     BoundRequesterRoles := BoundRequesterRoles r;
     BoundApproverIDs := BoundApproverIDs r; BoundApproverRoles := v;
     NotifySlackChannels := NotifySlackChannels r |}.
Definition set_NotifySlackChannels v (r : roleStorageEntry) : roleStorageEntry :=
  {| SecretPath := SecretPath r; SecretPathMethod := SecretPathMethod r;
     SecretData := SecretData r; SecretType := SecretType r;
     SecretEnvironment := SecretEnvironment r;
     SecretAWSStateRole := SecretAWSStateRole r;
     SecretRequiredFields := SecretRequiredFields r;
     SecretTTL := SecretTTL r; SecretMaxTTL := SecretMaxTTL r;
     ExclusiveLease := ExclusiveLease r; MinApprovers := MinApprovers r;
     BoundRequesterIDs := BoundRequesterIDs r;
     BoundRequesterRoles := BoundRequesterRoles r;
     BoundApproverIDs := BoundApproverIDs r;
     BoundApproverRoles := BoundApproverRoles r; NotifySlackChannels := v |}.

(** [if raw, ok := d.GetOk(field); ok { role.F = raw }]: the field takes the
    value that was sent and keeps its own when none was. *)
Definition assign_if_sent {V} (sent : option V)
           (field : roleStorageEntry -> V)
           (set : V -> roleStorageEntry -> roleStorageEntry)
           (r : roleStorageEntry) : roleStorageEntry :=
  set (default (field r) sent) r.

Definition non_nil {V} (m : option V) : bool :=
  match m with
  | Some _ => true
  | None => false
  end.

(** [pathRoleCreateUpdate] (path_roles.go), statement by statement. Every
    early [return] leaves the store as it was; only the last line writes. *)
Definition pathRoleCreateUpdate (b : backend) (sys : SystemView)
           (op : Operation) (d : FieldData) (s : Storage) : Reply * Storage :=
  let name := fd_name d in
  match role b s name with
  | Err e => ((None, Some e), s)
  | Ok found =>
  let role := default zeroRole found in
  let role := set_SecretPath (default "" (fd_secret_path d)) role in
  let role :=
    match fd_secret_path_method d with
    | Some m => set_SecretPathMethod m role
    | None =>
        if String.eqb (SecretPathMethod role) ""
        then set_SecretPathMethod default_secret_path_method role
        else role
    end in
  (* Not enforced yet with AllowedValues by framework. *)
  if negb (String.eqb (SecretPathMethod role) "POST")
     && negb (String.eqb (SecretPathMethod role) "GET")
  then ((Some errBadSecretPathMethod, None), s) else
  let role :=
    match fd_secret_data d with
    | Some m => set_SecretData m role
    | None => set_SecretData None role
    end in
  (* Only allow secret data for POST method. *)
  if String.eqb (SecretPathMethod role) "GET" && non_nil (SecretData role)
  then ((Some errBadSecretDataMethod, None), s) else
  let role := assign_if_sent (fd_secret_type d) SecretType set_SecretType role in
  let role := assign_if_sent (fd_secret_environment d) SecretEnvironment set_SecretEnvironment role in
  let role := assign_if_sent (fd_secret_aws_state_role d) SecretAWSStateRole set_SecretAWSStateRole role in
  let role := assign_if_sent (fd_secret_required_fields d) SecretRequiredFields set_SecretRequiredFields role in
  let role :=
    match fd_secret_ttl d, op with
    | Some n, _ => set_SecretTTL (seconds n) role
    | None, CreateOperation => set_SecretTTL (seconds default_secret_ttl) role
    | None, UpdateOperation => role
    end in
  let role :=
    match fd_secret_max_ttl d, op with
    | Some n, _ => set_SecretMaxTTL (seconds n) role
    | None, CreateOperation => set_SecretMaxTTL (seconds default_secret_max_ttl) role
    | None, UpdateOperation => role
    end in
  (* Check that the TTL value provided is less than the MaxTTL. *)
  if (0 <? SecretMaxTTL role) && (SecretMaxTTL role <? SecretTTL role)
  then ((Some errTTLAboveMax, None), s) else
  let '(role, resp) :=
    if MaxLeaseTTL sys <? SecretMaxTTL role
    then (set_SecretMaxTTL (MaxLeaseTTL sys) role,
          Some (AddWarning emptyResponse warnMaxTTLTruncated))
    else (role, None) in
  let role :=
    set_ExclusiveLease (default default_exclusive_lease (fd_exclusive_lease d)) role in
  let role :=
    match fd_min_approvers d with
    | Some n => set_MinApprovers n role
    | None =>
        if MinApprovers role =? 0
        then set_MinApprovers default_min_approvers role
        else role
    end in
  if MinApprovers role <? 1
  then ((Some errBadMinApprovers, None), s) else
  let role := assign_if_sent (fd_bound_requester_ids d) BoundRequesterIDs set_BoundRequesterIDs role in
  let role := assign_if_sent (fd_bound_requester_roles d) BoundRequesterRoles set_BoundRequesterRoles role in
  let role := assign_if_sent (fd_bound_approver_ids d) BoundApproverIDs set_BoundApproverIDs role in
  let role := assign_if_sent (fd_bound_approver_roles d) BoundApproverRoles set_BoundApproverRoles role in
  let role := assign_if_sent (fd_notify_slack_channels d) NotifySlackChannels set_NotifySlackChannels role in
  let '(err, s') := Accessor.put (roleAccessor b) s role [name] in
  ((resp, err), s')
  end.

(** [pathRoleDelete]. *)
Definition pathRoleDelete (b : backend) (name : string) (s : Storage)
  : Reply * Storage :=
  match Accessor.delete (roleAccessor b) s [name] with
  | (Some err, s') => ((None, Some err), s')
  | (None, s') => ((None, None), s')
  end.

(** [pathRoleList]. *)
Definition pathRoleList (b : backend) (s : Storage) : result (list string) :=
  Accessor.list (roleAccessor b) s [""].

(** ** The secret hooks of [approved_secret_issue] *)

(** A Go call either returns or panics (a failed type assertion, a nil
    dereference). *)
Inductive go (A : Type) : Type :=
| Returns (a : A)
| Panics (why : string).
Arguments Returns {A} a.
Arguments Panics {A} why.

(** The lease the host hands back to the hooks: [r.Secret], nil or set.
    [InternalData] is a [map[string]interface{}]: a key that is absent reads
    as the nil interface ([None]); a Go string is [JStr]. *)
Record Request := { ReqSecret : option Secret }.

(** [raw == ""] on an [interface{}]: true for the string [""] only. *)
Definition is_empty_string (raw : option json) : bool :=
  match raw with
  | Some (JStr s) => String.eqb s ""
  | _ => false
  end.

(** [raw.(string)]. *)
Definition assert_string (raw : option json) : go string :=
  match raw with
  | Some (JStr s) => Returns s
  | _ => Panics "interface conversion: interface {} is not string"
  end.

(** [secretApprovedSecretIssueRenew]. *)
Definition secretApprovedSecretIssueRenew (b : backend) (req : Request)
           (s : Storage) : Reply * Storage :=
  let resp :=
    ErrorResponse "approved_secret_issue cannot be renewed - request again instead" in
  ((Some resp, None), s).

(** [secretApprovedSecretIssueRevoke]. The failure text of the source holds
    the role, the nonce and the store's error; the response here keeps the
    fixed part. *)
Definition secretApprovedSecretIssueRevoke (b : backend) (r : Request)
           (s : Storage) : go (Reply * Storage) :=
  match ReqSecret r with
  | None => Panics "nil pointer dereference"
  | Some secret =>
  let roleNameRaw := InternalData secret !! "name" in
  if is_empty_string roleNameRaw
  then Returns ((Some (ErrorResponse "missing role"), None), s) else
  match assert_string roleNameRaw with
  | Panics why => Panics why
  | Returns roleName =>
  let nonceRaw := InternalData secret !! "nonce" in
  if is_empty_string nonceRaw
  then Returns ((Some (ErrorResponse "missing nonce"), None), s) else
  match assert_string nonceRaw with
  | Panics why => Panics why
  | Returns nonce =>
  match Accessor.delete (issueAccessor b) s [roleName; nonce] with
  | (Some err, s') =>
      Returns ((Some (ErrorResponse "failed to delete issue"), None), s')
  | (None, s') => Returns ((None, None), s')
  end
  end
  end
  end.

(** ** The Vault API client ([github.com/hashicorp/vault/api]) and the
    periodic token renewal *)

(** [api.Config]: the [Error] it may carry and the address. *)
Record ClientConfig := { CfgError : option error; Address : string }.

(** [api.Client]. *)
Record Client := { ClientAddress : string; Token : string }.

(** What the library's calls answer. The plugin does not control them, so
    they are inputs here: [DefaultConfig] may be nil; [NewClient] returns a
    client pointer (nil or not) and an error (nil or not); [Write] a secret or
    an error. *)
Record VaultAPI := {
  DefaultConfig : option ClientConfig;
  NewClient : ClientConfig -> option Client * option error;
  Write : Client -> string -> list (string * json) -> result json
}.

(** [newVaultClient]. When [api.NewClient] fails, the source wraps the error
    and drops the result ([errors.Wrapf] without [return]); the next statement
    calls [SetToken] on the client pointer, which dereferences it. *)
Definition newVaultClient (api : VaultAPI) (vaultAddr vaultToken : string)
  : go (result Client) :=
  match DefaultConfig api with
  | None => Returns (Err (ErrMsg "failed to create default Vault client config"))
  | Some vaultcfg =>
  match CfgError vaultcfg with
  | Some e => Returns (Err (ErrMsg "failed to create default Vault client config"))
  | None =>
  let vaultcfg := {| CfgError := CfgError vaultcfg; Address := vaultAddr |} in
  let '(clt, err) := NewClient api vaultcfg in
  match clt with
  | None => Panics "nil pointer dereference"
  | Some c => Returns (Ok {| ClientAddress := ClientAddress c; Token := vaultToken |})
  end
  end
  end.

(** The function [newVaultTokenRenewer] returns (the backend's
    [PeriodicFunc]); its result is the Go [error]. *)
Definition newVaultTokenRenewer (b : backend) (api : VaultAPI) (s : Storage)
  : go (option error) :=
  match config b s with
  | Err _ => Returns None   (* Ignore errors to avoid secret engine disable failures. *)
  | Ok None => Returns None (* No config, nothing to revoke. *)
  | Ok (Some config) =>
  match newVaultClient api (VaultAddr config) (VaultToken config) with
  | Panics why => Panics why
  | Returns (Err _) => Returns None
  | Returns (Ok clt) =>
  match Write api clt "/auth/token/renew-self" [("increment", JStr "72h")] with
  | Err _ => Returns None
  | Ok _ => Returns None
  end
  end
  end.

End Backend.

(** ** Names the routes accept *)
Module Names.
Import GoStrings.

(** A path element that [path.Clean] keeps as it is: not empty, not ["."],
    not [".."], and without ['/']. *)
Definition plain (x : string) : Prop :=
  x <> "" /\ x <> "." /\ x <> ".." /\ has_slash x = false.

(** [\w] of Go's regexp syntax: an ASCII letter, a digit or ['_']. *)
Definition word_char (c : ascii) : bool :=
  let n := nat_of_ascii c in
  ((Nat.leb 48 n && Nat.leb n 57) || (Nat.leb 65 n && Nat.leb n 90)
   || (Nat.leb 97 n && Nat.leb n 122) || Nat.eqb n 95)%bool.

(** A byte of [[\w-.]]. *)
Definition name_char (c : ascii) : bool :=
  (word_char c || Ascii.eqb c "-" || Ascii.eqb c ".")%bool.

Fixpoint last_char (c : ascii) (s : string) : ascii :=
  match s with
  | EmptyString => c
  | String c' r => last_char c' r
  end.

Fixpoint all_chars (f : ascii -> bool) (s : string) : bool :=
  match s with
  | EmptyString => true
  | String c r => f c && all_chars f r
  end.

(** The names the [roles/<name>] route accepts: the framework's
    [GenericNameRegex], [\w(([\w-.]+)?\w)?]. *)
Definition generic_name (x : string) : bool :=
  match x with
  | EmptyString => false
  | String c r => word_char c && all_chars name_char r && word_char (last_char c r)
  end.

End Names.

(** ** The role path in closed form

    The values [pathRoleCreateUpdate] works with, written as functions of the
    role found in the store ([old], the zero role when there is none) and of
    the request fields. [RoleRegistrySpec.createUpdate_cases] proves that the
    code computes exactly these. *)
Module RoleRules.
Import Logical Entries Backend.

Definition eff_method (old : roleStorageEntry) (d : FieldData) : string :=
  match fd_secret_path_method d with
  | Some m => m
  | None =>
      if String.eqb (SecretPathMethod old) "" then default_secret_path_method
      else SecretPathMethod old
  end.

Definition eff_data (d : FieldData) : option (list (string * json)) :=
  match fd_secret_data d with
  | Some m => m
  | None => None
  end.

Definition eff_ttl (op : Operation) (old : roleStorageEntry) (d : FieldData) : Z :=
  match fd_secret_ttl d, op with
  | Some n, _ => seconds n
  | None, CreateOperation => seconds default_secret_ttl
  | None, UpdateOperation => SecretTTL old
  end.

Definition eff_max_ttl (op : Operation) (old : roleStorageEntry) (d : FieldData) : Z :=
  match fd_secret_max_ttl d, op with
  | Some n, _ => seconds n
  | None, CreateOperation => seconds default_secret_max_ttl
  | None, UpdateOperation => SecretMaxTTL old
  end.

Definition eff_min_approvers (old : roleStorageEntry) (d : FieldData) : Z :=
  match fd_min_approvers d with
  | Some n => n
  | None => if MinApprovers old =? 0 then default_min_approvers else MinApprovers old
  end.

(** The four reasons for which the role path answers with an error response,
    as the code tests them. *)
Definition bad_method (old : roleStorageEntry) (d : FieldData) : bool :=
  negb (String.eqb (eff_method old d) "POST")
  && negb (String.eqb (eff_method old d) "GET").

Definition data_with_get (old : roleStorageEntry) (d : FieldData) : bool :=
  String.eqb (eff_method old d) "GET" && non_nil (eff_data d).

Definition ttl_above_max (op : Operation) (old : roleStorageEntry) (d : FieldData) : bool :=
  (0 <? eff_max_ttl op old d) && (eff_max_ttl op old d <? eff_ttl op old d).

Definition bad_min_approvers (old : roleStorageEntry) (d : FieldData) : bool :=
  eff_min_approvers old d <? 1.

Definition rejected (op : Operation) (old : roleStorageEntry) (d : FieldData) : bool :=
  bad_method old d || data_with_get old d || ttl_above_max op old d
  || bad_min_approvers old d.

(** The third reason read as "the map has at least one entry". *)
Definition non_empty (m : option (list (string * json))) : bool :=
  match m with
  | Some (_ :: _) => true
  | _ => false
  end.

Definition rejected_on_non_empty_data (op : Operation) (old : roleStorageEntry)
           (d : FieldData) : bool :=
  bad_method old d
  || (String.eqb (eff_method old d) "GET" && non_empty (eff_data d))
  || ttl_above_max op old d || bad_min_approvers old d.

(** The role that is written when no reason applies. *)
Definition stored_role (sys : SystemView) (op : Operation)
           (old : roleStorageEntry) (d : FieldData) : roleStorageEntry :=
  {| SecretPath := default "" (fd_secret_path d);
     SecretPathMethod := eff_method old d;
     SecretData := eff_data d;
     SecretType := default (SecretType old) (fd_secret_type d);
     SecretEnvironment := default (SecretEnvironment old) (fd_secret_environment d);
     SecretAWSStateRole := default (SecretAWSStateRole old) (fd_secret_aws_state_role d);
     SecretRequiredFields :=
       default (SecretRequiredFields old) (fd_secret_required_fields d);
     SecretTTL := eff_ttl op old d;
     SecretMaxTTL := if MaxLeaseTTL sys <? eff_max_ttl op old d
                     then MaxLeaseTTL sys else eff_max_ttl op old d;
     ExclusiveLease := default default_exclusive_lease (fd_exclusive_lease d);
     MinApprovers := eff_min_approvers old d;
     BoundRequesterIDs := default (BoundRequesterIDs old) (fd_bound_requester_ids d);
     BoundRequesterRoles :=
       default (BoundRequesterRoles old) (fd_bound_requester_roles d);
     BoundApproverIDs := default (BoundApproverIDs old) (fd_bound_approver_ids d);
     BoundApproverRoles := default (BoundApproverRoles old) (fd_bound_approver_roles d);
     NotifySlackChannels :=
       default (NotifySlackChannels old) (fd_notify_slack_channels d) |}.

(** The response of a write that was not refused: a warning when the max TTL
    was truncated, nil otherwise. *)
Definition stored_response (sys : SystemView) (op : Operation)
           (old : roleStorageEntry) (d : FieldData) : option Response :=
  if MaxLeaseTTL sys <? eff_max_ttl op old d
  then Some (AddWarning emptyResponse warnMaxTTLTruncated)
  else None.

End RoleRules.

(** ** Sample inputs *)
Module Samples.
Import Logical Entries Backend.

(** A request on the role path that sends [secret_path] and nothing else
    but the listed fields. *)
Definition sample_fields (method : option string)
           (data : option (option (list (string * json))))
           (max_ttl : option Z) : FieldData :=
  {| fd_name := "k8s-admin"; fd_secret_path := Some "integration/k8s/pki/admin";
     fd_secret_path_method := method; fd_secret_data := data;
     fd_secret_type := None; fd_secret_environment := None;
     fd_secret_aws_state_role := None; fd_secret_required_fields := None;
     fd_secret_ttl := None; fd_secret_max_ttl := max_ttl;
     fd_exclusive_lease := None; fd_min_approvers := None;
     fd_bound_requester_ids := None; fd_bound_requester_roles := None;
     fd_bound_approver_ids := None; fd_bound_approver_roles := None;
     fd_notify_slack_channels := None |}.

(** A mount whose maximum lease TTL is 24h, as in the repository's tests. *)
Definition day : SystemView := {| MaxLeaseTTL := 86400 * Second |}.

(** The role of the repository's [TestRole_Read]. *)
Definition sample_role : roleStorageEntry :=
  {| SecretPath := "integration/k8s/pki/admin"; SecretPathMethod := "POST";
     SecretData := Some [("alt_names", JStr "example.com")];
     SecretType := ""; SecretEnvironment := ""; SecretAWSStateRole := "";
     SecretRequiredFields := []; SecretTTL := 3600 * Second;
     SecretMaxTTL := 14400 * Second; ExclusiveLease := false; MinApprovers := 2;
     BoundRequesterIDs := []; BoundRequesterRoles := [];
     BoundApproverIDs := ["gd40qy"; "bc12po"; "po12lk"];
     BoundApproverRoles := ["sre"; "security"]; NotifySlackChannels := [] |}.

(** A stored configuration, and a client library whose [NewClient] fails the
    way the library reports a failure: no client, and an error. *)
Definition sample_config : configStorageEntry :=
  {| ApprovalTTL := 3600 * Second; VaultAddr := "http://127.0.0.1:8200";
     VaultToken := "s.token"; VaultPolicies := ["approved-secrets"];
     IdentityTemplate := ""; SlackWebhookURL := "" |}.

Definition failing_NewClient : VaultAPI :=
  {| DefaultConfig := Some {| CfgError := None; Address := "https://127.0.0.1:8200" |};
     NewClient := fun _ => (None, Some (ErrMsg "parse: invalid URL"));
     Write := fun _ _ _ => Ok JNull |}.

(** Two updates of the same role: one sends [bound_approver_ids] only, the
    other [min_approvers] only. *)
Definition restrict_approvers : FieldData :=
  {| fd_name := "k8s-admin"; fd_secret_path := Some "integration/k8s/pki/admin";
     fd_secret_path_method := None; fd_secret_data := None;
     fd_secret_type := None; fd_secret_environment := None;
     fd_secret_aws_state_role := None; fd_secret_required_fields := None;
     fd_secret_ttl := None; fd_secret_max_ttl := None;
     fd_exclusive_lease := None; fd_min_approvers := None;
     fd_bound_requester_ids := None; fd_bound_requester_roles := None;
     fd_bound_approver_ids := Some ["gd40qy"]; fd_bound_approver_roles := None;
     fd_notify_slack_channels := None |}.

Definition raise_threshold : FieldData :=
  {| fd_name := "k8s-admin"; fd_secret_path := Some "integration/k8s/pki/admin";
     fd_secret_path_method := None; fd_secret_data := None;
     fd_secret_type := None; fd_secret_environment := None;
     fd_secret_aws_state_role := None; fd_secret_required_fields := None;
     fd_secret_ttl := None; fd_secret_max_ttl := None;
     fd_exclusive_lease := None; fd_min_approvers := Some 3;
     fd_bound_requester_ids := None; fd_bound_requester_roles := None;
     fd_bound_approver_ids := None; fd_bound_approver_roles := None;
     fd_notify_slack_channels := None |}.

(** [sample_role] after [restrict_approvers] alone: the threshold is still 2. *)
Definition restricted_role : roleStorageEntry :=
  {| SecretPath := "integration/k8s/pki/admin"; SecretPathMethod := "POST";
     SecretData := None;
     SecretType := ""; SecretEnvironment := ""; SecretAWSStateRole := "";
     SecretRequiredFields := []; SecretTTL := 3600 * Second;
     SecretMaxTTL := 14400 * Second; ExclusiveLease := false; MinApprovers := 2;
     BoundRequesterIDs := []; BoundRequesterRoles := [];
     BoundApproverIDs := ["gd40qy"];
     BoundApproverRoles := ["sre"; "security"]; NotifySlackChannels := [] |}.

(** The lease of an issued secret of role [k8s-admin] with nonce [n1], and a
    store that holds its Issue record and refuses every [Delete]. *)
Definition issued_lease : Secret :=
  {| LeaseTTL := 3600; Renewable := false;
     InternalData := {[ "name" := JStr "k8s-admin"; "nonce" := JStr "n1" ]} |}.

Definition issue_record : json :=
  JObj [("role", JStr "k8s-admin"); ("nonce", JStr "n1")].

Definition refusing_delete : Storage :=
  {| kv := {[ "issue/k8s-admin/n1" := issue_record ]};
     fail_get := false; fail_put := false; fail_list := false;
     fail_delete := true |}.

End Samples.

(** ** Concurrent calls to one accessor

    [atomic_storage_accessor.go] takes the accessor's [sync.RWMutex] at the
    start of every operation ([RLock] in [get] and [list], [Lock] in [put] and
    [delete]) and releases it, by [defer], when the operation returns. A
    component call is a program that makes such operations one after the
    other and computes in between; several calls run interleaved. *)
Module Locking.
Import Logical Entries Backend RoleRules Samples.

(** One operation of the accessor, with its key already built. *)
Inductive call : Type :=
| CGet (key : string)
| CPut (key : string) (doc : json)
| CList (prefix : string)
| CDelete (key : string).

(** What the operation hands back to its caller. *)
Inductive answer : Type :=
| AGet (r : result (option StorageEntry))
| APut (e : option error)
| AList (r : result (list string))
| ADelete (e : option error).

(** A component call: it returns, or makes an accessor operation and goes on
    with the answer. *)
Inductive prog : Type :=
| Ret (reply : Reply)
| Call (c : call) (k : answer -> prog).

(** The store operation inside the accessor operation. *)
Definition perform (c : call) (s : Storage) : answer * Storage :=
  match c with
  | CGet key => (AGet (Get s key), s)
  | CPut key doc =>
      let '(e, s') := Put s {| Key := key; Value := doc |} in (APut e, s')
  | CList prefix => (AList (List s prefix), s)
  | CDelete key => let '(e, s') := Delete s key in (ADelete e, s')
  end.

(** [put] and [delete] take the lock for writing, [get] and [list] for
    reading. *)
Definition is_write (c : call) : bool :=
  match c with
  | CPut _ _ | CDelete _ => true
  | CGet _ | CList _ => false
  end.

(** A component call run alone. *)
Fixpoint exec (p : prog) (s : Storage) : Reply * Storage :=
  match p with
  | Ret reply => (reply, s)
  | Call c k => let '(a, s') := perform c s in exec (k a) s'
  end.

(** [pathRoleCreateUpdate] as a component call: [b.role] (one [get]), the
    checks and assignments, [b.roleAccessor.put] (one [put]). *)
Definition createUpdate_prog (b : backend) (sys : SystemView) (op : Operation)
           (d : FieldData) : prog :=
  let key := Accessor.storage_key (roleAccessor b) [fd_name d] in
  let write (found : option roleStorageEntry) : prog :=
    let old := default zeroRole found in
    if bad_method old d then Ret (Some errBadSecretPathMethod, None)
    else if data_with_get old d then Ret (Some errBadSecretDataMethod, None)
    else if ttl_above_max op old d then Ret (Some errTTLAboveMax, None)
    else if bad_min_approvers old d then Ret (Some errBadMinApprovers, None)
    else Call (CPut key (role_to_json (stored_role sys op old d)))
              (fun a => match a with
                        | APut err => Ret (stored_response sys op old d, err)
                        | _ => Ret (None, None)
                        end) in
  Call (CGet key)
       (fun a => match a with
                 | AGet (Err e) => Ret (None, Some e)
                 | AGet (Ok None) => write None
                 | AGet (Ok (Some entry)) =>
                     match unmarshal (Value entry) with
                     | Some r => write (Some r)
                     | None => Ret (None, Some (ErrJSON (Key entry)))
                     end
                 | _ => Ret (None, None)
                 end).

(** [sync.RWMutex]: held by one writer, or by a number of readers. *)
Record RWMutex := { writer : bool; readers : nat }.

Definition unlocked : RWMutex := {| writer := false; readers := 0 |}.

(** Where a call stands in its current operation: before the lock, holding
    the lock with the store operation still to do, or holding the lock with
    the answer in hand (the deferred unlock is next). *)
Inductive phase : Type :=
| Idle
| Locked
| Operated (a : answer).

Record thread := { code : prog; at_phase : phase }.

Definition start (p : prog) : thread := {| code := p; at_phase := Idle |}.

(** An event of the trace: which call performed which store operation. *)
Definition event : Type := nat * call.

Record world := {
  store : Storage;
  mutex : RWMutex;
  threads : list thread;
  trace : list event
}.

Definition init (s : Storage) (ps : list prog) : world :=
  {| store := s; mutex := unlocked; threads := start <$> ps; trace := [] |}.

(** One step of call [i]: take the lock if it is free for the operation's
    kind, do the store operation, or release the lock and go on. [None] when
    the call has returned or has to wait. Go's mutex also makes new readers
    wait behind a writer that is waiting; that only removes schedules, and
    the racing schedule below never has a call waiting. *)
Definition step (i : nat) (w : world) : option world :=
  match threads w !! i with
  | None => None
  | Some t =>
      match code t with
      | Ret _ => None
      | Call c k =>
          match at_phase t with
          | Idle =>
              if is_write c then
                if writer (mutex w) || negb (Nat.eqb (readers (mutex w)) 0)
                then None
                else Some {| store := store w;
                             mutex := {| writer := true; readers := readers (mutex w) |};
                             threads := <[i := {| code := code t; at_phase := Locked |}]> (threads w);
                             trace := trace w |}
              else
                if writer (mutex w) then None
                else Some {| store := store w;
                             mutex := {| writer := false; readers := S (readers (mutex w)) |};
                             threads := <[i := {| code := code t; at_phase := Locked |}]> (threads w);
                             trace := trace w |}
          | Locked =>
              let '(a, s') := perform c (store w) in
              Some {| store := s'; mutex := mutex w;
                      threads := <[i := {| code := code t; at_phase := Operated a |}]> (threads w);
                      trace := (trace w ++ [(i, c)])%list |}
          | Operated a =>
              Some {| store := store w;
                      mutex := if is_write c
                               then {| writer := false; readers := readers (mutex w) |}
                               else {| writer := writer (mutex w);
                                       readers := Nat.pred (readers (mutex w)) |};
                      threads := <[i := {| code := k a; at_phase := Idle |}]> (threads w);
                      trace := trace w |}
          end
      end
  end.

(** A schedule names the call that moves at each step. *)
Fixpoint run (sched : list nat) (w : world) : option world :=
  match sched with
  | [] => Some w
  | i :: rest =>
      match step i w with
      | Some w' => run rest w'
      | None => None
      end
  end.

(** A call is inside a write (read) operation: it holds the lock. *)
Definition holds_write (t : thread) : bool :=
  match code t, at_phase t with
  | Call c _, (Locked | Operated _) => is_write c
  | _, _ => false
  end.

Definition holds_read (t : thread) : bool :=
  match code t, at_phase t with
  | Call c _, (Locked | Operated _) => negb (is_write c)
  | _, _ => false
  end.

Fixpoint count (P : thread -> bool) (ts : list thread) : nat :=
  match ts with
  | [] => O
  | t :: rest => ((if P t then 1 else 0) + count P rest)%nat
  end.

(** A truth value as a count. *)
Definition b2n (b : bool) : nat := if b then 1%nat else 0%nat.

(** The mutex counts the calls that hold it. *)
Definition lock_inv (w : world) : Prop :=
  readers (mutex w) = count holds_read (threads w)
  /\ count holds_write (threads w) = b2n (writer (mutex w))
  /\ (writer (mutex w) = true -> readers (mutex w) = 0%nat).

(** No call is inside an operation. *)
Definition all_idle (ts : list thread) : bool :=
  forallb (fun t => match at_phase t with Idle => true | _ => false end) ts.

(** After call [i] has read [key], another call's operation comes before
    [i]'s next operation, and that one is the [put] to [key]. *)
Fixpoint foreign_before_put (i : nat) (key : string) (foreign : bool)
         (tr : list event) : bool :=
  match tr with
  | [] => false
  | (j, c) :: rest =>
      if Nat.eqb j i then
        match c with
        | CPut key' _ => String.eqb key' key && foreign
        | _ => false
        end
      else foreign_before_put i key true rest
  end.

(** Some get-modify-put sequence of the trace has another call's operation
    between its [get] and its [put]. *)
Fixpoint interleaved (tr : list event) : bool :=
  match tr with
  | [] => false
  | (i, CGet key) :: rest => foreign_before_put i key false rest || interleaved rest
  | _ :: rest => interleaved rest
  end.

(** The racing run: two updates of role [k8s-admin] on one store. Call 0
    ([restrict_approvers]) reads the role; call 1 ([raise_threshold]) then
    reads it, writes it and returns; call 0 then writes. *)
Definition racing_store : Storage :=
  healthy {[ "role/k8s-admin" := role_to_json sample_role ]}.

Definition racing_calls : list prog :=
  [ createUpdate_prog newBackend day UpdateOperation restrict_approvers;
    createUpdate_prog newBackend day UpdateOperation raise_threshold ].

Definition racing_schedule : list nat :=
  [0; 0; 0; 1; 1; 1; 1; 1; 1; 0; 0; 0]%nat.

End Locking.

(** ** The approval workflow: open, approve, issue

    The sources at hand hold the loaders [request] and [issue] (backend.go)
    but not the record declarations nor the request, approve and issue paths;
    those are modelled from the specification (sections 3 and 4.2 to 4.4). *)
Module Workflow.
Import Logical Entries Backend.

(** Modelled from the spec: the Request record of section 3; the Go
    declaration [requestStorageEntry] is missing. [ApproverIDs] is the set of
    distinct identities that have approved. *)
Record requestStorageEntry := {
  Nonce : string;
  RequesterID : string;
  RequesterRole : string;
  SnapBoundApproverIDs : list string;
  SnapBoundApproverRoles : list string;
  SnapMinApprovers : Z;
  ApproverIDs : gset string;
  ExpiresAt : Z
}.

(** Modelled from the spec: the Issue record of section 3; the Go declaration
    [issueStorageEntry] is missing. It keeps what the lease end needs: the
    role, the nonce, the downstream correlation data and the expiry. *)
Record issueStorageEntry := {
  IssueRole : string;
  IssueNonce : string;
  Correlation : json;
  IssueExpiresAt : Z
}.

(** Modelled from the spec: the stored form of a Request, in place of the JSON
    tags of the missing declaration. *)
Definition request_to_json (q : requestStorageEntry) : json :=
  JObj [ ("nonce", JStr (Nonce q));
         ("requester_id", JStr (RequesterID q));
         ("requester_role", JStr (RequesterRole q));
         ("bound_approver_ids", enc_strings (SnapBoundApproverIDs q));
         ("bound_approver_roles", enc_strings (SnapBoundApproverRoles q));
         ("min_approvers", JNum (SnapMinApprovers q));
         ("approver_ids", enc_strings (elements (ApproverIDs q)));
         ("expires_at", JNum (ExpiresAt q)) ].

(** Modelled from the spec: reading a stored Request back. *)
Definition request_of_json (j : json) : option requestStorageEntry :=
  match j with
  | JObj f =>
      n ← dec_string (obj_field "nonce" f);
      i ← dec_string (obj_field "requester_id" f);
      r ← dec_string (obj_field "requester_role" f);
      bi ← dec_strings (obj_field "bound_approver_ids" f);
      br ← dec_strings (obj_field "bound_approver_roles" f);
      k ← dec_int (obj_field "min_approvers" f);
      a ← dec_strings (obj_field "approver_ids" f);
      e ← dec_int (obj_field "expires_at" f);
      Some {| Nonce := n; RequesterID := i; RequesterRole := r;
              SnapBoundApproverIDs := bi; SnapBoundApproverRoles := br;
              SnapMinApprovers := k; ApproverIDs := list_to_set a;
              ExpiresAt := e |}
  | _ => None
  end.

#[export] Instance request_JSON : JSON requestStorageEntry :=
  {| marshal q := Some (request_to_json q); unmarshal := request_of_json |}.

(** Modelled from the spec: the stored form of an Issue, in place of the JSON
    tags of the missing declaration. *)
Definition issue_to_json (i : issueStorageEntry) : json :=
  JObj [ ("role", JStr (IssueRole i)); ("nonce", JStr (IssueNonce i));
         ("correlation", Correlation i); ("expires_at", JNum (IssueExpiresAt i)) ].

(** Modelled from the spec: reading a stored Issue back. *)
Definition issue_of_json (j : json) : option issueStorageEntry :=
  match j with
  | JObj f =>
      r ← dec_string (obj_field "role" f);
      n ← dec_string (obj_field "nonce" f);
      e ← dec_int (obj_field "expires_at" f);
      Some {| IssueRole := r; IssueNonce := n;
              Correlation := obj_field "correlation" f; IssueExpiresAt := e |}
  | _ => None
  end.

#[export] Instance issue_JSON : JSON issueStorageEntry :=
  {| marshal i := Some (issue_to_json i); unmarshal := issue_of_json |}.

(** [request] and [issue] (backend.go). *)
Definition request (b : backend) (s : Storage) (name nonce : string)
  : result (option requestStorageEntry) :=
  load (requestAccessor b) s [name; nonce].

Definition issue (b : backend) (s : Storage) (name nonce : string)
  : result (option issueStorageEntry) :=
  load (issueAccessor b) s [name; nonce].

(** Modelled from the spec: the error taxonomy of section 7, and a failure
    of the store, which the taxonomy does not name. *)
Inductive failure : Type :=
| NotFound
| PermissionDenied (why : string)
| Conflict
| Expired
| UpstreamFailure
| Invalid
| StoreFailure (e : error).

Inductive outcome (A : Type) : Type :=
| Done (a : A)
| Fails (f : failure).
Arguments Done {A} a.
Arguments Fails {A} f.

(** Modelled from the spec: a caller, as the workflow sees one. The Identity
    Resolver is external; its answer for this caller is [resolved] ([None]
    when it fails), and the caller's role comes with the token. *)
Record Caller := { resolved : option string; CallerRole : string }.

(** Modelled from the spec: membership in a bound set of the missing approve
    and request paths; an empty bound set does not restrict. *)
Definition allowed (bound : list string) (x : string) : bool :=
  match bound with
  | [] => true
  | _ => bool_decide (x ∈ bound)
  end.

(** Modelled from the spec: the three PermissionDenied cases of section 7;
    the texts of the missing paths are not known beyond "insufficient
    approvals". *)
Definition insufficient : failure := PermissionDenied "insufficient approvals".
Definition not_bound : failure := PermissionDenied "identity or role not bound".
Definition not_requester : failure := PermissionDenied "caller is not the requester".

(** Modelled from the spec: the exclusive-lease check of the missing request
    path: is there an Issue under the role that has not expired? The nonces
    come from [list] on the issue namespace. *)
Fixpoint any_active_issue (b : backend) (s : Storage) (name : string) (now : Z)
         (nonces : list string) : result bool :=
  match nonces with
  | [] => Ok false
  | n :: rest =>
      match issue b s name n with
      | Err e => Err e
      | Ok (Some i) =>
          if now <? IssueExpiresAt i then Ok true
          else any_active_issue b s name now rest
      | Ok None => any_active_issue b s name now rest
      end
  end.

(** Modelled from the spec: [open] (section 4.2), in place of the missing
    request path. [nonce] is the freshly generated token. *)
Definition openRequest (b : backend) (name : string) (who : Caller) (now : Z)
           (nonce : string) (s : Storage) : outcome requestStorageEntry * Storage :=
  match role b s name with
  | Err e => (Fails (StoreFailure e), s)
  | Ok None => (Fails NotFound, s)
  | Ok (Some r) =>
  match resolved who with
  | None => (Fails (PermissionDenied "identity not resolved"), s)
  | Some id =>
  if negb (allowed (BoundRequesterIDs r) id
           && allowed (BoundRequesterRoles r) (CallerRole who))
  then (Fails not_bound, s) else
  match (if ExclusiveLease r
         then match Accessor.list (issueAccessor b) s [name] with
              | Err e => Err e
              | Ok nonces => any_active_issue b s name now nonces
              end
         else Ok false) with
  | Err e => (Fails (StoreFailure e), s)
  | Ok true => (Fails Conflict, s)
  | Ok false =>
  match config b s with
  | Err e => (Fails (StoreFailure e), s)
  | Ok None => (Fails NotFound, s)
  | Ok (Some cfg) =>
  let q := {| Nonce := nonce; RequesterID := id; RequesterRole := CallerRole who;
              SnapBoundApproverIDs := BoundApproverIDs r;
              SnapBoundApproverRoles := BoundApproverRoles r;
              SnapMinApprovers := MinApprovers r;
              ApproverIDs := ∅;
              ExpiresAt := now + ApprovalTTL cfg |} in
  match Accessor.put (requestAccessor b) s q [name; nonce] with
  | (Some e, s') => (Fails (StoreFailure e), s')
  | (None, s') => (Done q, s')
  end
  end
  end
  end
  end.

(** Modelled from the spec: [approve] (section 4.3), in place of the missing
    approve path. The purge of an expired request, which the specification
    only recommends, is left out. *)
Definition approveRequest (b : backend) (name nonce : string) (who : Caller)
           (now : Z) (s : Storage) : outcome requestStorageEntry * Storage :=
  match request b s name nonce with
  | Err e => (Fails (StoreFailure e), s)
  | Ok None => (Fails NotFound, s)
  | Ok (Some q) =>
  if ExpiresAt q <? now then (Fails Expired, s) else
  match resolved who with
  | None => (Fails UpstreamFailure, s)
  | Some id =>
  if negb (allowed (SnapBoundApproverIDs q) id
           && allowed (SnapBoundApproverRoles q) (CallerRole who))
  then (Fails not_bound, s) else
  match config b s with
  | Err e => (Fails (StoreFailure e), s)
  | Ok None => (Fails NotFound, s)
  | Ok (Some cfg) =>
  let q' := {| Nonce := Nonce q; RequesterID := RequesterID q;
               RequesterRole := RequesterRole q;
               SnapBoundApproverIDs := SnapBoundApproverIDs q;
               SnapBoundApproverRoles := SnapBoundApproverRoles q;
               SnapMinApprovers := SnapMinApprovers q;
               ApproverIDs := {[id]} ∪ ApproverIDs q;
               ExpiresAt := now + ApprovalTTL cfg |} in
  match Accessor.put (requestAccessor b) s q' [name; nonce] with
  | (Some e, s') => (Fails (StoreFailure e), s')
  | (None, s') => (Done q', s')
  end
  end
  end
  end.

(** Modelled from the spec: what the external collaborators of the missing
    issue path answer: the Downstream Secret Source (payload and correlation
    data, or a failure) and the Notification Sink. *)
Record Collaborators := {
  downstream : option (json * json);
  notified : bool
}.

(** Modelled from the spec: the leased secret the missing issue path hands to
    the host. *)
Record IssuedSecret := { Payload : json; TTL : Z; IsRenewable : bool }.

(** Modelled from the spec: [issue] (section 4.4), in place of the missing
    issue path. *)
Definition issueSecret (b : backend) (name nonce : string) (who : Caller)
           (now requested_ttl : Z) (env : Collaborators) (s : Storage)
  : outcome IssuedSecret * Storage :=
  match request b s name nonce with
  | Err e => (Fails (StoreFailure e), s)
  | Ok None => (Fails NotFound, s)
  | Ok (Some q) =>
  if ExpiresAt q <? now then (Fails Expired, s) else
  if Z.of_nat (size (ApproverIDs q)) <? SnapMinApprovers q
  then (Fails insufficient, s) else
  match resolved who with
  | None => (Fails UpstreamFailure, s)
  | Some id =>
  if negb (String.eqb id (RequesterID q)) then (Fails not_requester, s) else
  match config b s with
  | Err e => (Fails (StoreFailure e), s)
  | Ok None => (Fails NotFound, s)
  | Ok (Some cfg) =>
  match role b s name with
  | Err e => (Fails (StoreFailure e), s)
  | Ok None => (Fails NotFound, s)
  | Ok (Some r) =>
  match downstream env with
  | None => (Fails UpstreamFailure, s)
  | Some (payload, correlation) =>
  let ttl := Z.min requested_ttl
                   (if SecretTTL r =? 0 then SecretMaxTTL r else SecretTTL r) in
  let record := {| IssueRole := name; IssueNonce := nonce;
                   Correlation := correlation; IssueExpiresAt := now + ttl |} in
  match Accessor.put (issueAccessor b) s record [name; nonce] with
  | (Some e, s1) => (Fails (StoreFailure e), s1)
  | (None, s1) =>
  match Accessor.delete (requestAccessor b) s1 [name; nonce] with
  | (Some e, s2) => (Fails (StoreFailure e), s2)
  | (None, s2) =>
  if notified env
  then (Done {| Payload := payload; TTL := ttl; IsRenewable := false |}, s2)
  else (Fails UpstreamFailure, s2)
  end
  end
  end
  end
  end
  end
  end.

(** A run of approve calls ([approveRequest]), one after the other; the
    identities of the calls that went through are collected in order of
    arrival. *)
Fixpoint approve_all (b : backend) (name nonce : string)
         (calls : list (Caller * Z)) (s : Storage) : Storage * list string :=
  match calls with
  | [] => (s, [])
  | (who, now) :: rest =>
      match approveRequest b name nonce who now s with
      | (Done _, s') =>
          let '(s'', ids) := approve_all b name nonce rest s' in
          (s'', default "" (resolved who) :: ids)
      | (Fails _, s') => approve_all b name nonce rest s'
      end
  end.

End Workflow.

(** ** The scenario of the approval workflow *)
Module Scenario.
Import Logical Entries Backend Samples Workflow.

(** The scenario of the specification's section 8, on the role of the
    repository's tests: threshold 2, approvers bound by identity and role. *)
Definition scenario_store : Storage :=
  healthy {[ "config" := config_to_json sample_config;
             "role/k8s-admin" := role_to_json sample_role ]}.

Definition alice : Caller := {| resolved := Some "alice"; CallerRole := "dev" |}.
Definition bob : Caller := {| resolved := Some "gd40qy"; CallerRole := "sre" |}.
Definition carol : Caller := {| resolved := Some "bc12po"; CallerRole := "sre" |}.
Definition dave : Caller := {| resolved := Some "dave"; CallerRole := "ops" |}.

Definition downstream_ok : Collaborators :=
  {| downstream := Some (JStr "certificate", JStr "serial-1"); notified := true |}.

(** Bob approves twice, Dave (not bound) tries, Carol approves. *)
Definition scenario_calls : list (Caller * Z) :=
  [ (bob, 10); (bob, 20); (dave, 30); (carol, 40) ].

(** Alice opens the request at time 0 under nonce [n-1]; then the calls. *)
Definition scenario_opened : outcome requestStorageEntry * Storage :=
  openRequest newBackend "k8s-admin" alice 0 "n-1" scenario_store.

Definition scenario_run : Storage * list string :=
  approve_all newBackend "k8s-admin" "n-1" scenario_calls scenario_opened.2.

End Scenario.

(** ** path_roles.go: reading, listing and probing roles *)
Module RolePaths.
Import Logical Entries Backend.

(** [logical.CodedError(http.StatusNotFound, "no role found")]. *)
Definition errNoRole : error := ErrCoded 404 "no role found".

(** [d / time.Second] on a [time.Duration]: Go's integer division, which
    truncates toward zero. *)
Definition whole_seconds (d : Z) : Z := Z.quot d Second.

(** [pathRoleExistenceCheck]. *)
Definition pathRoleExistenceCheck (b : backend) (name : string) (s : Storage)
  : result bool :=
  match role b s name with
  | Err e => Err e
  | Ok found => Ok (non_nil found)
  end.

(** The [Data] map of [pathRoleRead]'s response. *)
Definition role_data (name : string) (r : roleStorageEntry) : gmap string json :=
  list_to_map
    [ ("name", JStr name);
      ("secret_path", JStr (SecretPath r));
      ("secret_path_method", JStr (SecretPathMethod r));
      ("secret_data", enc_map (SecretData r));
      ("secret_type", JStr (SecretType r));
      ("secret_environment", JStr (SecretEnvironment r));
      ("secret_aws_state_role", JStr (SecretAWSStateRole r));
      ("secret_required_fields", enc_strings (SecretRequiredFields r));
      ("secret_ttl", JNum (whole_seconds (SecretTTL r)));
      ("secret_max_ttl", JNum (whole_seconds (SecretMaxTTL r)));
      ("exclusive_lease", JBool (ExclusiveLease r));
      ("bound_requester_ids", enc_strings (BoundRequesterIDs r));
      ("bound_requester_roles", enc_strings (BoundRequesterRoles r));
      ("bound_approver_ids", enc_strings (BoundApproverIDs r));
      ("bound_approver_roles", enc_strings (BoundApproverRoles r));
      ("min_approvers", JNum (MinApprovers r)) ].

(** [pathRoleRead]. *)
Definition pathRoleRead (b : backend) (name : string) (s : Storage) : Reply :=
  match role b s name with
  | Err e => (None, Some e)
  | Ok None => (None, Some errNoRole)
  | Ok (Some r) =>
      (Some {| Data := role_data name r; Warnings := []; RespSecret := None |},
       None)
  end.

End RolePaths.

(** ** Sequences of calls on the role path *)
Module RoleOps.
Import GoStrings Logical Entries Backend Names.

(** The calls of [roles/<name>] that write: create or update, and delete. *)
Inductive role_call :=
| WriteRole (op : Operation) (d : FieldData)
| DeleteRole (name : string).

(** The store after one call, whatever the call answered. *)
Definition serve (b : backend) (sys : SystemView) (s : Storage) (c : role_call)
  : Storage :=
  match c with
  | WriteRole op d => (pathRoleCreateUpdate b sys op d s).2
  | DeleteRole name => (pathRoleDelete b name s).2
  end.

Definition serve_all (b : backend) (sys : SystemView) (cs : list role_call)
           (s : Storage) : Storage :=
  fold_left (serve b sys) cs s.

(** What [pathRoleCreateUpdate] checks before it writes, as a property of a
    role: the method is GET or POST, at least one approver is required,
    request data only goes with POST, and the max TTL is within the mount's. *)
Definition well_formed (sys : SystemView) (r : roleStorageEntry) : bool :=
  (String.eqb (SecretPathMethod r) "POST" || String.eqb (SecretPathMethod r) "GET")
  && (1 <=? MinApprovers r)
  && (negb (String.eqb (SecretPathMethod r) "GET") || negb (non_nil (SecretData r)))
  && (SecretMaxTTL r <=? MaxLeaseTTL sys).

(** A create that sends nothing but a path, and three approvers required. *)
Definition three_approvers : FieldData :=
  {| fd_name := "k8s-admin"; fd_secret_path := Some "integration/k8s/pki/admin";
     fd_secret_path_method := Some "POST"; fd_secret_data := None;
     fd_secret_type := None; fd_secret_environment := None;
     fd_secret_aws_state_role := None; fd_secret_required_fields := None;
     fd_secret_ttl := None; fd_secret_max_ttl := None;
     fd_exclusive_lease := None; fd_min_approvers := Some 3;
     fd_bound_requester_ids := None; fd_bound_requester_roles := None;
     fd_bound_approver_ids := None; fd_bound_approver_roles := None;
     fd_notify_slack_channels := None |}.

(** The same with a threshold of zero, which the path refuses. *)
Definition no_approvers : FieldData :=
  {| fd_name := "k8s-admin"; fd_secret_path := Some "integration/k8s/pki/admin";
     fd_secret_path_method := Some "POST"; fd_secret_data := None;
     fd_secret_type := None; fd_secret_environment := None;
     fd_secret_aws_state_role := None; fd_secret_required_fields := None;
     fd_secret_ttl := None; fd_secret_max_ttl := None;
     fd_exclusive_lease := None; fd_min_approvers := Some 0;
     fd_bound_requester_ids := None; fd_bound_requester_roles := None;
     fd_bound_approver_ids := None; fd_bound_approver_roles := None;
     fd_notify_slack_channels := None |}.

(** Every key of the store is a role key holding a role document. *)
Definition role_keys_only (s : Storage) : Prop :=
  forall k v, kv s !! k = Some v ->
    exists x r, plain x /\ k = "role/" +:+ ToLower x /\ v = role_to_json r.

(** The calls whose name the [roles/<name>] route accepts. *)
Definition named (c : role_call) : Prop :=
  match c with
  | WriteRole _ d => generic_name (fd_name d) = true
  | DeleteRole name => generic_name name = true
  end.

End RoleOps.

(** ** The secret hooks of [approved_secret_request] *)
Module RequestHooks.
Import GoStrings GoPath Logical Entries Backend.

(** [secretApprovedSecretRequestRenew]. *)
Definition secretApprovedSecretRequestRenew (b : backend) (req : Request)
           (s : Storage) : Reply * Storage :=
  let resp :=
    ErrorResponse "approved_secret_request cannot be renewed - request again instead" in
  ((Some resp, None), s).

(** [secretApprovedSecretRequestRevoke]. Unlike the issue hook it hands the
    accessor one sub-key, [path.Join(roleName, nonce)]. The failure text of
    the source holds the role, the nonce and the store's error; the response
    here keeps the fixed part. *)
Definition secretApprovedSecretRequestRevoke (b : backend) (r : Request)
           (s : Storage) : go (Reply * Storage) :=
  match ReqSecret r with
  | None => Panics "nil pointer dereference"
  | Some secret =>
  let roleNameRaw := InternalData secret !! "name" in
  if is_empty_string roleNameRaw
  then Returns ((Some (ErrorResponse "missing role"), None), s) else
  match assert_string roleNameRaw with
  | Panics why => Panics why
  | Returns roleName =>
  let nonceRaw := InternalData secret !! "nonce" in
  if is_empty_string nonceRaw
  then Returns ((Some (ErrorResponse "missing nonce"), None), s) else
  match assert_string nonceRaw with
  | Panics why => Panics why
  | Returns nonce =>
  match Accessor.delete (requestAccessor b) s [Join roleName nonce] with
  | (Some err, s') =>
      Returns ((Some (ErrorResponse "failed to delete request"), None), s')
  | (None, s') => Returns ((None, None), s')
  end
  end
  end
  end.

End RequestHooks.

(** ** path_soll_ist.go: the roles a requester role may use *)
Module SollIst.
Import Logical Entries Backend RolePaths.

(** [errors.Wrapf(err, "failed to read role: %s: ", rname)]; the fixed part
    of the text is kept. *)
Definition errReadRole : error := ErrMsg "failed to read role".

(** [include]: the filter is empty, or one of the role's
    [BoundRequesterRoles] equals it. *)
Definition include (filter : string) (r : roleStorageEntry) : bool :=
  String.eqb filter "" || existsb (String.eqb filter) (BoundRequesterRoles r).

(** The map stored under [data[rname]]. *)
Definition role_summary (rname : string) (r : roleStorageEntry) : json :=
  JObj [ ("name", JStr rname);
         ("secret_path", JStr (SecretPath r));
         ("secret_path_method", JStr (SecretPathMethod r));
         ("secret_data", enc_map (SecretData r));
         ("secret_type", JStr (SecretType r));
         ("secret_required_fields", enc_strings (SecretRequiredFields r));
         ("secret_ttl", JNum (whole_seconds (SecretTTL r)));
         ("secret_max_ttl", JNum (whole_seconds (SecretMaxTTL r)));
         ("exclusive_lease", JBool (ExclusiveLease r));
         ("bound_requester_ids", enc_strings (BoundRequesterIDs r));
         ("bound_requester_roles", enc_strings (BoundRequesterRoles r));
         ("bound_approver_ids", enc_strings (BoundApproverIDs r));
         ("bound_approver_roles", enc_strings (BoundApproverRoles r));
         ("min_approvers", JNum (MinApprovers r)) ].

(** The loop over the listed names. A name whose role reads as nil makes the
    body dereference a nil pointer ([role.BoundRequesterRoles] or
    [role.SecretPath]). *)
Fixpoint soll_ist_roles (b : backend) (filter : string) (s : Storage)
         (roles : list string) (data : gmap string json)
  : go (result (gmap string json)) :=
  match roles with
  | [] => Returns (Ok data)
  | rname :: rest =>
      match role b s rname with
      | Err e => Returns (Err errReadRole)
      | Ok None => Panics "nil pointer dereference"
      | Ok (Some r) =>
          soll_ist_roles b filter s rest
            (if include filter r then <[rname := role_summary rname r]> data
             else data)
      end
  end.

(** [pathSollIstRead]; [bound_requester_role] is the field as sent, [Get]
    reads a field that was not sent as the empty string. *)
Definition pathSollIstRead (b : backend) (bound_requester_role : option string)
           (s : Storage) : go Reply :=
  match Accessor.list (roleAccessor b) s [""] with
  | Err e => Returns (None, Some e)
  | Ok roles =>
      let filter := default "" bound_requester_role in
      match soll_ist_roles b filter s roles ∅ with
      | Panics why => Panics why
      | Returns (Err e) => Returns (None, Some e)
      | Returns (Ok data) =>
          Returns (Some {| Data := data; Warnings := []; RespSecret := None |},
                   None)
      end
  end.

End SollIst.

(** ** path_config.go: writing and reading the configuration *)
Module ConfigPaths.
Import Logical Entries Backend RolePaths.

(** [framework.FieldData] of the [config] path: a field the caller did not
    send is [None]. [approval_ttl] is in seconds. *)
Record ConfigFields := {
  cf_vault_token : option string;
  cf_vault_addr : option string;
  cf_vault_policies : option (list string);
  cf_approval_ttl : option Z;
  cf_identity_template : option string;
  cf_slack_webhook_url : option string
}.

(** Schema defaults. *)
Definition default_vault_addr : string := "http://127.0.0.1:8200".
Definition default_approval_ttl : Z := 3600.  (* "1h" *)

(** [&configStorageEntry{}]. *)
Definition zeroConfig : configStorageEntry :=
  {| ApprovalTTL := 0; VaultAddr := ""; VaultToken := ""; VaultPolicies := [];
     IdentityTemplate := ""; SlackWebhookURL := "" |}.

Definition set_ApprovalTTL (v : Z) (c : configStorageEntry) : configStorageEntry :=
  {| ApprovalTTL := v; VaultAddr := VaultAddr c; VaultToken := VaultToken c;
     VaultPolicies := VaultPolicies c; IdentityTemplate := IdentityTemplate c;
     SlackWebhookURL := SlackWebhookURL c |}.

Definition set_VaultAddr (v : string) (c : configStorageEntry) : configStorageEntry :=
  {| ApprovalTTL := ApprovalTTL c; VaultAddr := v; VaultToken := VaultToken c;
     VaultPolicies := VaultPolicies c; IdentityTemplate := IdentityTemplate c;
     SlackWebhookURL := SlackWebhookURL c |}.

Definition set_VaultToken (v : string) (c : configStorageEntry) : configStorageEntry :=
  {| ApprovalTTL := ApprovalTTL c; VaultAddr := VaultAddr c; VaultToken := v;
     VaultPolicies := VaultPolicies c; IdentityTemplate := IdentityTemplate c;
     SlackWebhookURL := SlackWebhookURL c |}.

Definition set_VaultPolicies (v : list string) (c : configStorageEntry)
  : configStorageEntry :=
  {| ApprovalTTL := ApprovalTTL c; VaultAddr := VaultAddr c;
     VaultToken := VaultToken c; VaultPolicies := v;
     IdentityTemplate := IdentityTemplate c;
     SlackWebhookURL := SlackWebhookURL c |}.

Definition set_IdentityTemplate (v : string) (c : configStorageEntry)
  : configStorageEntry :=
  {| ApprovalTTL := ApprovalTTL c; VaultAddr := VaultAddr c;
     VaultToken := VaultToken c; VaultPolicies := VaultPolicies c;
     IdentityTemplate := v; SlackWebhookURL := SlackWebhookURL c |}.

Definition set_SlackWebhookURL (v : string) (c : configStorageEntry)
  : configStorageEntry :=
  {| ApprovalTTL := ApprovalTTL c; VaultAddr := VaultAddr c;
     VaultToken := VaultToken c; VaultPolicies := VaultPolicies c;
     IdentityTemplate := IdentityTemplate c; SlackWebhookURL := v |}.

(** The fields of the request up to the call of the Vault API: each field
    that was sent is assigned; [approval_ttl] and [vault_addr] fall back to
    the schema default when the stored value is the zero value;
    [vault_token] is assigned whether it was sent or not. *)
Definition config_from_fields (d : ConfigFields) (config : configStorageEntry)
  : configStorageEntry :=
  let config :=
    match cf_approval_ttl d with
    | Some n => set_ApprovalTTL (seconds n) config
    | None =>
        if ApprovalTTL config =? 0
        then set_ApprovalTTL (seconds default_approval_ttl) config
        else config
    end in
  let config := set_VaultToken (default "" (cf_vault_token d)) config in
  let config :=
    match cf_vault_policies d with
    | Some p => set_VaultPolicies p config
    | None => config
    end in
  let config :=
    match cf_vault_addr d with
    | Some a => set_VaultAddr a config
    | None =>
        if String.eqb (VaultAddr config) ""
        then set_VaultAddr default_vault_addr config
        else config
    end in
  let config :=
    match cf_identity_template d with
    | Some t => set_IdentityTemplate t config
    | None => config
    end in
  match cf_slack_webhook_url d with
  | Some u => set_SlackWebhookURL u config
  | None => config
  end.

(** The body of the [/auth/token/create-orphan] request. *)
Definition orphan_token_request (config : configStorageEntry)
  : list (string * json) :=
  [ ("policies", enc_strings (VaultPolicies config));
    ("ttl", JStr "72h");
    ("renewable", JBool true);
    ("display_name", JStr "approved-secrets-plugin");
    ("meta", JObj [("created_by", JStr "approved-secrets-plugin")]) ].

(** [secret.Auth.ClientToken] on the secret a write answered: the document
    [null] is the nil secret, a secret without ["auth"] has a nil [Auth];
    both make the expression dereference a nil pointer. *)
Definition auth_client_token (secret : json) : go string :=
  match secret with
  | JObj fields =>
      match obj_field "auth" fields with
      | JObj auth =>
          match obj_field "client_token" auth with
          | JStr t => Returns t
          | _ => Returns ""
          end
      | _ => Panics "nil pointer dereference"
      end
  | _ => Panics "nil pointer dereference"
  end.

(** [pathConfigCreateUpdate]. The entry is written with [r.Storage.Put]
    under the key ["config"]. Error texts keep their fixed part. *)
Definition pathConfigCreateUpdate (b : backend) (api : VaultAPI)
           (d : ConfigFields) (s : Storage) : go (Reply * Storage) :=
  match config b s with
  | Err e => Returns ((None, Some e), s)
  | Ok found =>
  let config := config_from_fields d (default zeroConfig found) in
  match newVaultClient api (VaultAddr config) (VaultToken config) with
  | Panics why => Panics why
  | Returns (Err e) =>
      Returns ((Some (ErrorResponse "failed to create Vault client"), None), s)
  | Returns (Ok clt) =>
  match Write api clt "/auth/token/create-orphan" (orphan_token_request config) with
  | Err e =>
      Returns ((Some (ErrorResponse "failed to create orphaned Vault token"), None), s)
  | Ok secret =>
  match auth_client_token secret with
  | Panics why => Panics why
  | Returns token =>
  let config := set_VaultToken token config in
  match StorageEntryJSON "config" config with
  | Err e => Returns ((None, Some (ErrMsg "failed to generate storage entry")), s)
  | Ok entry =>
  match Put s entry with
  | (Some e, s') =>
      Returns ((None, Some (ErrMsg "failed to write configuration to storage")), s')
  | (None, s') =>
      Returns ((Some {| Data := {[ "vault_token" := JStr (VaultToken config) ]};
                        Warnings := []; RespSecret := None |}, None), s')
  end
  end
  end
  end
  end
  end.

(** [logical.CodedError(http.StatusNotFound, "no config found")]. *)
Definition errNoConfig : error := ErrCoded 404 "no config found".

(** [pathConfigRead]. *)
Definition pathConfigRead (b : backend) (s : Storage) : Reply :=
  match config b s with
  | Err e => (None, Some (ErrMsg "failed to get config"))
  | Ok None => (None, Some errNoConfig)
  | Ok (Some cfg) =>
      (Some {| Data := list_to_map
                 [ ("approval_ttl", JNum (whole_seconds (ApprovalTTL cfg)));
                   ("vault_addr", JStr (VaultAddr cfg));
                   ("vault_token", JStr "<sensitive>");
                   ("vault_policies", enc_strings (VaultPolicies cfg));
                   ("identity_template", JStr (IdentityTemplate cfg));
                   ("slack_webhook_url", JStr "<sensitive>") ];
               Warnings := []; RespSecret := None |}, None)
  end.

(** A Vault API that answers every write with a token. *)
Definition answering_api (token : string) : VaultAPI :=
  {| DefaultConfig := Some {| CfgError := None; Address := "https://127.0.0.1:8200" |};
     NewClient := fun cfg => (Some {| ClientAddress := Address cfg; Token := "" |}, None);
     Write := fun _ _ _ => Ok (JObj [("auth", JObj [("client_token", JStr token)])]) |}.

(** A configuration request that sends a token, policies and a webhook. *)
Definition sample_config_fields : ConfigFields :=
  {| cf_vault_token := Some "s.root"; cf_vault_addr := None;
     cf_vault_policies := Some ["approved-secrets"];
     cf_approval_ttl := Some 7200; cf_identity_template := None;
     cf_slack_webhook_url := Some "https://hooks.slack.example/T0/B0" |}.

End ConfigPaths.

(** ** The caller's roles (verifyCallerRoles) *)
Module CallerRoles.
Import GoStrings GoPath Logical Entries Backend.

(** [clt.Logical().Read]: what the Vault API answers to a read, an input as
    the answers to [Write] are. *)
Record ReadAPI := { Read : Client -> string -> result json }.

(** [secret.Data] on the secret a call answered: the document [null] is the
    nil secret, whose dereference panics; a secret without ["data"] has a
    nil map, which reads as empty. *)
Definition secret_data (secret : json) : go (list (string * json)) :=
  match secret with
  | JObj fields =>
      Returns (match obj_field "data" fields with
               | JObj data => data
               | _ => []
               end)
  | _ => Panics "nil pointer dereference"
  end.

(** [raw.([]interface{})]. *)
Definition assert_items (raw : json) : go (list json) :=
  match raw with
  | JArr items => Returns items
  | _ => Panics "interface conversion: interface {} is not []interface {}"
  end.

(** [strutil.StrListContains]. *)
Definition StrListContains (haystack : list string) (needle : string) : bool :=
  existsb (String.eqb needle) haystack.

(** The nested [if ..., ok] chain on a group's data: the string under
    [metadata.primaryRole], when [metadata] is a map and holds one. *)
Definition primary_role (data : list (string * json)) : option string :=
  match obj_field "metadata" data with
  | JObj metadata =>
      match obj_field "primaryRole" metadata with
      | JStr primaryRole => Some primaryRole
      | _ => None
      end
  | _ => None
  end.

(** [errors.Wrapf(err, "failed to read path: %s", vaultPath)], without the
    cause. *)
Definition errReadPath (vaultPath : string) : error :=
  ErrMsg ("failed to read path: " +:+ vaultPath).

Definition errNotAllowed : error := ErrMsg "role(s) not allowed".

(** The loop over [groupIDs], with [found] and the final test folded in: the
    loop breaks at the first group whose primary role is one of [roles]. *)
Fixpoint verify_groups (read : string -> result json) (roles : list string)
         (groupIDs : list json) : go (option error) :=
  match groupIDs with
  | [] => Returns (Some errNotAllowed)
  | id :: rest =>
      match assert_string (Some id) with
      | Panics why => Panics why
      | Returns gid =>
      let vaultPath := Join "/identity/group/id" gid in
      match read vaultPath with
      | Err e => Returns (Some (errReadPath vaultPath))
      | Ok secret =>
      match secret_data secret with
      | Panics why => Panics why
      | Returns data =>
          match primary_role data with
          | Some primaryRole =>
              if StrListContains roles primaryRole then Returns None
              else verify_groups read roles rest
          | None => verify_groups read roles rest
          end
      end
      end
      end
  end.

(** [verifyCallerRoles]; [accessor] is [r.ClientTokenAccessor]. The
    configuration is used without a nil test. *)
Definition verifyCallerRoles (b : backend) (api : VaultAPI) (rapi : ReadAPI)
           (s : Storage) (accessor : string) (roles : list string)
  : go (option error) :=
  match config b s with
  | Err e => Returns (Some (ErrMsg "could not find config"))
  | Ok None => Panics "nil pointer dereference"
  | Ok (Some cfg) =>
  match newVaultClient api (VaultAddr cfg) (VaultToken cfg) with
  | Panics why => Panics why
  | Returns (Err e) => Returns (Some (ErrMsg "failed to create vault client"))
  | Returns (Ok clt) =>
  let vaultPath := "auth/token/lookup-accessor" in
  match Write api clt vaultPath [("accessor", JStr accessor)] with
  | Err e => Returns (Some (errReadPath vaultPath))
  | Ok secret =>
  match secret_data secret with
  | Panics why => Panics why
  | Returns data =>
  match assert_string (Some (obj_field "entity_id" data)) with
  | Panics why => Panics why
  | Returns entityID =>
  let vaultPath := Join "/identity/entity/id" entityID in
  match Read rapi clt vaultPath with
  | Err e => Returns (Some (errReadPath vaultPath))
  | Ok secret =>
  match secret_data secret with
  | Panics why => Panics why
  | Returns data =>
  match assert_items (obj_field "group_ids" data) with
  | Panics why => Panics why
  | Returns groupIDs => verify_groups (Read rapi clt) roles groupIDs
  end
  end
  end
  end
  end
  end
  end
  end.

(** A group that lets the caller through: it answers the read, and its
    primary role is one of [roles]. *)
Definition lets_through (read : string -> result json) (roles : list string)
           (gid : string) : Prop :=
  exists secret data role,
    read (Join "/identity/group/id" gid) = Ok secret
    /\ secret_data secret = Returns data
    /\ primary_role data = Some role /\ role ∈ roles.

(** A Vault in which the caller's entity is in the groups [g1] and [g2];
    [g2] has the primary role ["sre"]. *)
Definition sample_identity : VaultAPI * ReadAPI :=
  ({| DefaultConfig := Some {| CfgError := None; Address := "" |};
      NewClient := fun cfg => (Some {| ClientAddress := Address cfg; Token := "" |}, None);
      Write := fun _ _ _ => Ok (JObj [("data", JObj [("entity_id", JStr "e1")])]) |},
   {| Read := fun _ p =>
        if String.eqb p "/identity/entity/id/e1"
        then Ok (JObj [("data", JObj [("group_ids", JArr [JStr "g1"; JStr "g2"])])])
        else if String.eqb p "/identity/group/id/g2"
        then Ok (JObj [("data", JObj [("metadata",
                                        JObj [("primaryRole", JStr "sre")])])])
        else Ok (JObj [("data", JObj [])]) |}).

End CallerRoles.

(** ** The one-time client token (createClientToken) *)
Module TokenHelper.
Import GoStrings GoPath Logical Entries Backend.

(** The calls the helper makes on [clt.Logical()]. *)
Inductive api_call :=
| ApiWrite (vaultPath : string) (data : gmap string json)
| ApiDelete (vaultPath : string).

(** The Vault server as the helper sees it: its answer to a call, given the
    calls made before. The helper ignores what a delete answers. *)
Definition server : Type := list api_call -> api_call -> result json.

(** What the helper leaves behind: its result, the caller's [tokenData] map
    (a Go map is shared, the helper's assignments are seen by the caller) and
    the calls it made, in order. *)
Record token_run := {
  run_result : result json;
  run_tokenData : gmap string json;
  run_calls : list api_call
}.

(** The request that creates the temporary token role. *)
Definition token_role_request (policies : list string) (entityAlias : string)
  : gmap string json :=
  {[ "allowed_policies" := enc_strings policies;
     "allowed_entity_aliases" := JStr entityAlias;
     "orphan" := JBool true;
     "renewable" := JBool false ]}.

(** [createClientToken]. [parse] is [parseutil.ParseCommaStringSlice] with
    its error dropped, as the source drops it; [uuid] is what
    [uuid.GenerateUUID] returns. The deferred delete runs on every return
    after the role was created. Error texts keep their fixed part. *)
Definition createClientToken (srv : server) (parse : json -> list string)
           (uuid : result string) (tokenData : gmap string json)
           (entityAlias : string) : token_run :=
  match tokenData !! "policies" with
  | None =>
      {| run_result := Err (ErrMsg "expected 'policies' in secret data");
         run_tokenData := tokenData; run_calls := [] |}
  | Some policiesRaw =>
  let policies := parse policiesRaw in
  let entityAlias := ToLower entityAlias in
  let data := token_role_request policies entityAlias in
  match uuid with
  | Err e =>
      {| run_result := Err (ErrMsg "failed to create uuid");
         run_tokenData := tokenData; run_calls := [] |}
  | Ok uuid =>
  let role := "pagerduty-secrets-" +:+ uuid in
  let rolePath := Join "/auth/token/roles" role in
  let create_role := ApiWrite rolePath data in
  match srv [] create_role with
  | Err e =>
      {| run_result := Err (ErrMsg "failed to create one-time token policy");
         run_tokenData := tokenData; run_calls := [create_role] |}
  | Ok _ =>
  let vaultPath := Join "/auth/token/create" role in
  let tokenData := <["display_name" := JStr entityAlias]> tokenData in
  let tokenData := <["entity_alias" := JStr entityAlias]> tokenData in
  let create_token := ApiWrite vaultPath tokenData in
  let calls := [create_role; create_token; ApiDelete rolePath] in
  match srv [create_role] create_token with
  | Err e =>
      {| run_result := Err (ErrMsg "failed to create Vault token for issuing secret");
         run_tokenData := tokenData; run_calls := calls |}
  | Ok secret =>
      {| run_result := Ok secret; run_tokenData := tokenData; run_calls := calls |}
  end
  end
  end
  end.

(** A server that creates token roles and refuses to create tokens. *)
Definition refusing_tokens : server :=
  fun _ c =>
    match c with
    | ApiWrite p _ =>
        if HasPrefix p "/auth/token/roles/" then Ok JNull
        else Err (ErrMsg "permission denied")
    | ApiDelete _ => Ok JNull
    end.

End TokenHelper.

(** * Properties *)

(** ** Keys *)
Module KeyFacts.
Import GoStrings GoPath Names.

Lemma lower_ascii_slash c : Ascii.eqb (lower_ascii c) "/" = Ascii.eqb c "/".
Proof. destruct c as [[] [] [] [] [] [] [] []]; reflexivity. Qed.

Lemma lower_ascii_dot c : Ascii.eqb (lower_ascii c) "." = Ascii.eqb c ".".
Proof. destruct c as [[] [] [] [] [] [] [] []]; reflexivity. Qed.

Lemma lower_ascii_idem c : lower_ascii (lower_ascii c) = lower_ascii c.
Proof. destruct c as [[] [] [] [] [] [] [] []]; reflexivity. Qed.

Lemma ToLower_idem s : ToLower (ToLower s) = ToLower s.
Proof. induction s as [|c r IH]; simpl; [done|]. by rewrite lower_ascii_idem, IH. Qed.

Lemma has_slash_ToLower s : has_slash (ToLower s) = has_slash s.
Proof.
  induction s as [|c r IH]; simpl; [done|]. by rewrite lower_ascii_slash, IH.
Qed.

Lemma eq_fold_ToLower s t : eq_fold s t = true -> ToLower s = ToLower t.
Proof.
  revert t. induction s as [|a s IH]; intros [|b t]; simpl; try done.
  unfold same_letter. intros [Hc Hr]%andb_prop.
  apply Ascii.eqb_eq in Hc. by rewrite Hc, (IH t Hr).
Qed.

Lemma eq_fold_refl s : eq_fold s s = true.
Proof.
  induction s as [|a s IH]; simpl; [done|].
  unfold same_letter. by rewrite Ascii.eqb_refl, IH.
Qed.

Lemma eq_fold_lower s : eq_fold s (ToLower s) = true.
Proof.
  induction s as [|a s IH]; simpl; [done|].
  unfold same_letter. by rewrite lower_ascii_idem, Ascii.eqb_refl, IH.
Qed.

Lemma ToLower_dot_iff c s :
  String.eqb (ToLower (String c s)) "." = String.eqb (String c s) "."
  /\ String.eqb (ToLower (String c s)) ".." = String.eqb (String c s) "..".
Proof.
  simpl. rewrite lower_ascii_dot. split; [destruct s; simpl; done|].
  destruct s as [|c' s]; simpl; [done|]. rewrite lower_ascii_dot.
  destruct s; done.
Qed.

Lemma plain_ToLower x : plain x -> plain (ToLower x).
Proof.
  intros (Hne & Hd & Hdd & Hs). destruct x as [|c s]; [done|].
  destruct (ToLower_dot_iff c s) as [E1 E2].
  apply String.eqb_neq in Hd, Hdd. rewrite <- E1 in Hd. rewrite <- E2 in Hdd.
  apply String.eqb_neq in Hd, Hdd.
  repeat split; try done. by rewrite has_slash_ToLower.
Qed.

Lemma name_char_no_slash c : name_char c = true -> Ascii.eqb c "/" = false.
Proof. destruct c as [[] [] [] [] [] [] [] []]; vm_compute; congruence. Qed.

Lemma word_char_name_char c : word_char c = true -> name_char c = true.
Proof. unfold name_char. intros ->. done. Qed.

Lemma word_char_not_dot c : word_char c = true -> Ascii.eqb c "." = false.
Proof. destruct c as [[] [] [] [] [] [] [] []]; vm_compute; congruence. Qed.

Lemma all_name_char_no_slash s : all_chars name_char s = true -> has_slash s = false.
Proof.
  induction s as [|c r IH]; simpl; [done|].
  intros [Hc Hr]%andb_prop. by rewrite (name_char_no_slash c Hc), IH.
Qed.

Lemma generic_name_plain x : generic_name x = true -> plain x.
Proof.
  destruct x as [|c r]; simpl; [done|].
  intros [[Hc Hr]%andb_prop Hl]%andb_prop.
  pose proof (word_char_not_dot c Hc) as Hdot.
  repeat split; try done.
  - intros [= -> _]. done.
  - intros [= -> _]. done.
  - simpl. rewrite (name_char_no_slash c (word_char_name_char c Hc)).
    by apply all_name_char_no_slash.
Qed.

Lemma split_slash_cons s : exists h t, split_slash s = h :: t.
Proof.
  induction s as [|c r [h [t IH]]]; simpl; [by eexists _, _|].
  destruct (Ascii.eqb c "/"); [by eexists _, _|]. rewrite IH. by eexists _, _.
Qed.

Lemma split_slash_noslash x : has_slash x = false -> split_slash x = [x].
Proof.
  induction x as [|c r IH]; simpl; [done|].
  intros [Hc Hr]%orb_false_elim. rewrite Hc, (IH Hr). done.
Qed.

Lemma split_slash_app x r :
  has_slash x = false -> split_slash (x +:+ String "/" r) = x :: split_slash r.
Proof.
  induction x as [|c x IH]; simpl; [done|].
  intros [Hc Hr]%orb_false_elim. rewrite Hc, (IH Hr). done.
Qed.

Lemma split_join es :
  es <> [] -> Forall (fun x => has_slash x = false) es ->
  split_slash (join_slash es) = es.
Proof.
  induction es as [|e es IH]; [done|]. intros _ Hall.
  apply Forall_cons in Hall as [He Hes].
  destruct es as [|e' es']; [by apply split_slash_noslash|].
  change (join_slash (e :: e' :: es')) with (e +:+ String "/" (join_slash (e' :: es'))).
  rewrite split_slash_app by done. f_equal. by apply IH.
Qed.

Lemma plain_eqb x :
  plain x -> String.eqb x "" = false /\ String.eqb x "." = false
             /\ String.eqb x ".." = false.
Proof. intros (H1 & H2 & H3 & _). by rewrite !String.eqb_neq. Qed.

Lemma clean_elems_plain r st es :
  Forall plain es -> clean_elems r st es = (rev st ++ es)%list.
Proof.
  revert st. induction es as [|e es IH]; intros st Hall; simpl.
  - by rewrite app_nil_r.
  - apply Forall_cons in Hall as [He Hes].
    destruct (plain_eqb e He) as (-> & -> & ->). simpl.
    rewrite (IH _ Hes). simpl. by rewrite <- app_assoc.
Qed.

Lemma plain_not_rooted x r : plain x -> rooted (x +:+ r) = false.
Proof.
  intros (Hne & _ & _ & Hs). destruct x as [|c x]; [done|].
  simpl in *. by apply orb_false_elim in Hs as [-> _].
Qed.

Lemma append_nonempty x r : x <> "" -> String.eqb (x +:+ r) "" = false.
Proof. destruct x; [done|]. intros _. done. Qed.

Lemma join_slash_head e es : exists r, join_slash (e :: es) = e +:+ r.
Proof.
  destruct es as [|e' es]; simpl.
  - exists "". induction e as [|c e IH]; simpl; [done|]. by rewrite <- IH.
  - by eexists.
Qed.

Lemma Clean_join es :
  es <> [] -> Forall plain es -> Clean (join_slash es) = join_slash es.
Proof.
  intros Hne Hall. unfold Clean.
  rewrite split_join; [|done|by eapply Forall_impl; [done|intros ? (_&_&_&?)]].
  rewrite clean_elems_plain by done. simpl.
  destruct es as [|e es]; [done|]. apply Forall_cons in Hall as [He _].
  destruct (join_slash_head e es) as [r ->].
  rewrite (plain_not_rooted e r He).
  rewrite append_nonempty; [done|by destruct He].
Qed.

Lemma append_assoc (a b c : string) : (a +:+ b) +:+ c = a +:+ (b +:+ c).
Proof. induction a as [|x a IH]; simpl; [done|]. by rewrite IH. Qed.

Lemma join_slash_snoc es x :
  es <> [] -> join_slash es +:+ "/" +:+ x = join_slash (es ++ [x])%list.
Proof.
  induction es as [|e es IH]; [done|]. intros _.
  destruct es as [|e' es']; [done|].
  change (join_slash (e :: e' :: es')) with (e +:+ "/" +:+ join_slash (e' :: es')).
  change (join_slash ((e :: e' :: es') ++ [x])%list)
    with (e +:+ "/" +:+ join_slash ((e' :: es') ++ [x])%list).
  rewrite <- IH by done. rewrite append_assoc. reflexivity.
Qed.

Lemma Join_join es x :
  es <> [] -> Forall plain es -> plain x ->
  Join (join_slash es) x = join_slash (es ++ [x])%list.
Proof.
  intros Hne Hall Hx. unfold Join.
  destruct es as [|e es]; [done|].
  pose proof Hall as Hall'. apply Forall_cons in Hall' as [He _].
  destruct (join_slash_head e es) as [r Hr]. rewrite Hr at 1.
  rewrite append_nonempty by (by destruct He).
  destruct (plain_eqb x Hx) as (-> & _).
  rewrite join_slash_snoc by done.
  apply Clean_join; [by destruct es|]. apply Forall_app. split; [done|by constructor].
Qed.

(** The key of an accessor whose path and subkeys are plain names: the path
    and the lower-cased subkeys, joined with ['/']. *)
Lemma storage_key_plain p subkeys :
  plain p -> Forall plain subkeys ->
  Accessor.storage_key {| Accessor.path := p |} subkeys
  = join_slash (p :: (ToLower <$> subkeys)).
Proof.
  intros Hp Hall. unfold Accessor.storage_key. simpl.
  change p with (join_slash [p]) at 1.
  assert (Hgen : forall es, es <> [] -> Forall plain es ->
            fold_left (fun key subkey => Join key (ToLower subkey)) subkeys
                      (join_slash es)
            = join_slash (es ++ (ToLower <$> subkeys))%list).
  { induction subkeys as [|k ks IH]; intros es Hne Hes; simpl.
    - by rewrite app_nil_r.
    - apply Forall_cons in Hall as [Hk Hks].
      rewrite Join_join; [|done|done|by apply plain_ToLower].
      rewrite IH; [|done|by destruct es|].
      + by rewrite <- app_assoc.
      + apply Forall_app. split; [done|]. constructor; [by apply plain_ToLower|done]. }
  apply (Hgen [p]); [done|by constructor].
Qed.

(** Sub-key sequences that differ only in letter case address the same key,
    whatever the sub-keys are. *)
Lemma storage_key_fold a ks1 ks2 :
  Forall2 (fun x y => eq_fold x y = true) ks1 ks2 ->
  Accessor.storage_key a ks1 = Accessor.storage_key a ks2.
Proof.
  unfold Accessor.storage_key. generalize (Accessor.path a).
  intros p H. revert p. induction H as [|x y l1 l2 Hxy _ IH]; intros p; simpl.
  - done.
  - rewrite (eq_fold_ToLower x y Hxy). apply IH.
Qed.

End KeyFacts.

(** ** The store *)
Module StoreFacts.
Import GoStrings GoPath Logical Names KeyFacts.

Lemma with_kv_id s : with_kv s (kv s) = s.
Proof. by destruct s. Qed.

Lemma Get_after_Put s e s' :
  Put s e = (None, s') -> fail_get s = false -> Get s' (Key e) = Ok (Some e).
Proof.
  unfold Put, Get. destruct (fail_put s); [done|]. intros [= <-] Hg. simpl.
  rewrite Hg, lookup_insert_eq. by destruct e.
Qed.

Lemma Delete_absent s key :
  fail_delete s = false -> kv s !! key = None -> Delete s key = (None, s).
Proof.
  intros Hd Hk. unfold Delete. rewrite Hd, (delete_id _ _ Hk). by rewrite with_kv_id.
Qed.

Lemma Delete_frame s key err s' k :
  Delete s key = (err, s') -> k <> key -> kv s' !! k = kv s !! k.
Proof.
  unfold Delete. destruct (fail_delete s); intros [= <- <-] Hk; [done|].
  simpl. by rewrite lookup_delete_ne.
Qed.

Lemma Delete_flags s key err s' :
  Delete s key = (err, s') ->
  fail_get s' = fail_get s /\ fail_put s' = fail_put s
  /\ fail_list s' = fail_list s /\ fail_delete s' = fail_delete s.
Proof. unfold Delete. by destruct (fail_delete s) eqn:E; intros [= <- <-]. Qed.

Lemma HasPrefix_app p r : HasPrefix (p +:+ r) p = true.
Proof. induction p as [|c p IH]; simpl; [done|]. by rewrite Ascii.eqb_refl, IH. Qed.

Lemma drop_bytes_app p r : drop_bytes (String.length p) (p +:+ r) = r.
Proof. induction p as [|c p IH]; simpl; done. Qed.

Lemma child_of_leaf prefix x :
  has_slash x = false -> child_of prefix (prefix +:+ x) = x.
Proof.
  intros Hx. unfold child_of, TrimPrefix.
  by rewrite HasPrefix_app, drop_bytes_app, Hx.
Qed.

(** A key directly under a prefix is listed by its last element. *)
Lemma List_leaf s prefix x v :
  fail_list s = false -> has_slash x = false ->
  kv s !! (prefix +:+ x) = Some v ->
  exists l, List s prefix = Ok l /\ x ∈ l.
Proof.
  intros Hl Hx Hk. unfold List. rewrite Hl. eexists. split; [done|].
  apply elem_of_remove_dups, list_elem_of_fmap.
  exists (prefix +:+ x). split; [by rewrite child_of_leaf|].
  apply list_elem_of_filter. split; [apply HasPrefix_app|].
  apply list_elem_of_fmap. exists (prefix +:+ x, v). split; [done|].
  by apply elem_of_map_to_list.
Qed.

End StoreFacts.

(** ** The accessor's addressing *)
Module AccessorSpec.
Import GoStrings GoPath Logical Entries Names KeyFacts StoreFacts.
Import Accessor (atomicStorageAccessor, storage_key).





End AccessorSpec.

(** ** The lease hooks of an issued secret *)
Module LeaseHooksSpec.
Import GoStrings GoPath Logical Entries Names KeyFacts StoreFacts Backend.
Import Samples.
Import Accessor (storage_key).

(** C6. Renewing the lease of an issued secret always answers with the error
    response "approved_secret_issue cannot be renewed - request again
    instead", without a Go error; the response carries no lease, and the
    store is left as it was. *)
Theorem issue_renew_refused (b : backend) (req : Request) (s : Storage) :
  exists resp,
    secretApprovedSecretIssueRenew b req s = ((Some resp, None), s)
    /\ IsError (Some resp) = true
    /\ Data resp !! "error"
       = Some (JStr "approved_secret_issue cannot be renewed - request again instead")
    /\ RespSecret resp = None.
Proof. eexists. repeat split. Qed.

Lemma revoke_runs b s secret roleName nonce :
  InternalData secret !! "name" = Some (JStr roleName) ->
  InternalData secret !! "nonce" = Some (JStr nonce) ->
  roleName <> "" -> nonce <> "" ->
  secretApprovedSecretIssueRevoke b {| ReqSecret := Some secret |} s
  = match Delete s (storage_key (issueAccessor b) [roleName; nonce]) with
    | (Some err, s') =>
        Returns ((Some (ErrorResponse "failed to delete issue"), None), s')
    | (None, s') => Returns ((None, None), s')
    end.
Proof.
  intros Hn Hc Hne Hce. unfold secretApprovedSecretIssueRevoke. simpl.
  rewrite Hn, Hc. simpl.
  apply String.eqb_neq in Hne, Hce. rewrite Hne, Hce. done.
Qed.

(** C3, amended. Revoking an issued secret, whose lease names its role and nonce,
    deletes the Issue record under (role, nonce) and returns neither a
    response nor an error. When the record is already absent the store is left
    exactly as it was and the result is the same, so revoking again succeeds
    as well. The store is taken to accept the delete. *)
Theorem issue_revoke_idempotent (s : Storage) (secret : Secret)
        (roleName nonce : string)
        (Hname : InternalData secret !! "name" = Some (JStr roleName))
        (Hnonce : InternalData secret !! "nonce" = Some (JStr nonce))
        (Hname_set : roleName <> "") (Hnonce_set : nonce <> "")
        (Hstore : fail_delete s = false) :
  let r := {| ReqSecret := Some secret |} in
  let key := storage_key (issueAccessor newBackend) [roleName; nonce] in
  exists s',
    secretApprovedSecretIssueRevoke newBackend r s = Returns ((None, None), s')
    /\ kv s' = delete key (kv s)
    /\ Accessor.get (issueAccessor newBackend) s' [roleName; nonce]
       = (if fail_get s then Err (ErrStorage "get" key) else Ok None)
    /\ (kv s !! key = None -> s' = s)
    /\ secretApprovedSecretIssueRevoke newBackend r s' = Returns ((None, None), s').
Proof.
  intros r key. subst r.
  rewrite (revoke_runs _ s secret roleName nonce) by done.
  fold key. unfold Delete at 1. rewrite Hstore.
  eexists. split; [done|]. split; [done|]. split; [|split].
  - unfold Accessor.get, Get. fold key. simpl.
    destruct (fail_get s); [done|]. by rewrite lookup_delete_eq.
  - intros Habs. rewrite (delete_id _ _ Habs). apply with_kv_id.
  - rewrite (revoke_runs _ _ secret roleName nonce) by done.
    fold key. rewrite Delete_absent; [done|done|]. simpl. apply lookup_delete_eq.
Qed.

Lemma issue_revoke_idempotent_witness :
  let r := {| ReqSecret := Some issued_lease |} in
  let s := healthy {[ "issue/k8s-admin/n1" := issue_record ]} in
  exists s',
    secretApprovedSecretIssueRevoke newBackend r s = Returns ((None, None), s')
    /\ kv s' !! "issue/k8s-admin/n1" = None
    /\ secretApprovedSecretIssueRevoke newBackend r s' = Returns ((None, None), s').
Proof.
  intros r s.
  assert (Hname : InternalData issued_lease !! "name" = Some (JStr "k8s-admin"))
    by reflexivity.
  assert (Hnonce : InternalData issued_lease !! "nonce" = Some (JStr "n1"))
    by reflexivity.
  assert (Hn1 : "k8s-admin" <> "") by discriminate.
  assert (Hn2 : "n1" <> "") by discriminate.
  destruct (issue_revoke_idempotent s issued_lease "k8s-admin" "n1"
              Hname Hnonce Hn1 Hn2 eq_refl)
    as (s' & H1 & Hkv & _ & _ & H2).
  exists s'. split; [exact H1|]. split; [|exact H2].
  rewrite Hkv. apply lookup_delete_eq.
Defined.

(** When the store refuses the delete, the hook answers with an error
    response and a nil Go error, and the store, the Issue record included,
    is as it was; a retry meets the same store. *)
Lemma revoke_keeps_record_when_delete_fails b s secret roleName nonce :
  InternalData secret !! "name" = Some (JStr roleName) ->
  InternalData secret !! "nonce" = Some (JStr nonce) ->
  roleName <> "" -> nonce <> "" -> fail_delete s = true ->
  secretApprovedSecretIssueRevoke b {| ReqSecret := Some secret |} s
  = Returns ((Some (ErrorResponse "failed to delete issue"), None), s)
  /\ IsError (Some (ErrorResponse "failed to delete issue")) = true.
Proof.
  intros Hn Hc Hne Hce Hfail. split; [|reflexivity].
  rewrite (revoke_runs _ s secret roleName nonce) by done.
  unfold Delete. by rewrite Hfail.
Qed.

(** C3 as stated fails: not every revoke of an issued secret deletes the
    Issue record and returns success. On a store that refuses [Delete] and
    holds the record of (k8s-admin, n1), revoking the lease that names this
    role and nonce returns the error response "failed to delete issue ..."
    and the record stays, so the host's retry fails the same way for as long
    as the store refuses. *)
Lemma issue_revoke_fails_when_delete_refused :
  ~ (forall (s : Storage) (secret : Secret) (roleName nonce : string),
        InternalData secret !! "name" = Some (JStr roleName) ->
        InternalData secret !! "nonce" = Some (JStr nonce) ->
        roleName <> "" -> nonce <> "" ->
        exists s',
          secretApprovedSecretIssueRevoke newBackend {| ReqSecret := Some secret |} s
          = Returns ((None, None), s')
          /\ kv s' !! storage_key (issueAccessor newBackend) [roleName; nonce]
             = None).
Proof.
  intros H.
  assert (Hname : InternalData issued_lease !! "name" = Some (JStr "k8s-admin"))
    by reflexivity.
  assert (Hnonce : InternalData issued_lease !! "nonce" = Some (JStr "n1"))
    by reflexivity.
  assert (Hn1 : "k8s-admin" <> "") by discriminate.
  assert (Hn2 : "n1" <> "") by discriminate.
  destruct (H refusing_delete issued_lease "k8s-admin" "n1" Hname Hnonce Hn1 Hn2)
    as (s' & Hrun & _).
  destruct (revoke_keeps_record_when_delete_fails newBackend refusing_delete
              issued_lease "k8s-admin" "n1" Hname Hnonce Hn1 Hn2 eq_refl)
    as [Hcode _].
  rewrite Hcode in Hrun. discriminate Hrun.
Qed.

End LeaseHooksSpec.

(** ** The role registry *)
Module RoleRegistrySpec.
Import GoStrings GoPath Logical Entries Names KeyFacts StoreFacts Backend RoleRules.
Import Samples.
Import Accessor (storage_key).

Lemma role_key name :
  generic_name name = true ->
  storage_key (roleAccessor newBackend) [name] = "role/" +:+ ToLower name.
Proof.
  intros Hn. unfold newBackend, Accessor.newAtomicStorageAccessor. simpl roleAccessor.
  rewrite storage_key_plain; [done|by repeat split|].
  constructor; [by apply generic_name_plain|constructor].
Qed.

Lemma namespace_key ns (Hns : plain ns) r n :
  plain r -> plain n ->
  storage_key {| Accessor.path := ns |} [r; n]
  = ns +:+ "/" +:+ ToLower r +:+ "/" +:+ ToLower n.
Proof.
  intros Hr Hn. rewrite storage_key_plain; [done|done|].
  constructor; [done|constructor; [done|constructor]].
Qed.

Lemma pathRoleDelete_store b name s :
  (pathRoleDelete b name s).2
  = (Delete s (storage_key (roleAccessor b) [name])).2.
Proof.
  unfold pathRoleDelete, Accessor.delete.
  by destruct (Delete _ _) as [[e|] s1].
Qed.

(** C8. Deleting a role, under a name the [roles/<name>] route accepts,
    touches the key [role/<name>] only: every other key keeps its entry, so
    every key of the request namespace and of the issue namespace does, and
    the Request and Issue records of any (role, nonce), the deleted role's
    included, read the same before and after. *)
Theorem role_delete_frame (s : Storage) (name : string)
        (Hname : generic_name name = true) :
  let s' := (pathRoleDelete newBackend name s).2 in
  (forall k, k <> "role/" +:+ ToLower name -> kv s' !! k = kv s !! k)
  /\ (forall k, HasPrefix k "request/" = true \/ HasPrefix k "issue/" = true ->
                kv s' !! k = kv s !! k)
  /\ (forall r n, plain r -> plain n ->
        Accessor.get (requestAccessor newBackend) s' [r; n]
        = Accessor.get (requestAccessor newBackend) s [r; n]
        /\ Accessor.get (issueAccessor newBackend) s' [r; n]
           = Accessor.get (issueAccessor newBackend) s [r; n])
  /\ (fail_delete s = false -> kv s' !! ("role/" +:+ ToLower name) = None).
Proof.
  intros s'. subst s'. rewrite pathRoleDelete_store, (role_key name Hname).
  destruct (Delete s ("role/" +:+ ToLower name)) as [err s1] eqn:Hd. simpl.
  assert (Hframe : forall k, k <> "role/" +:+ ToLower name -> kv s1 !! k = kv s !! k).
  { intros k Hk. by eapply Delete_frame. }
  assert (Hpre : forall k, HasPrefix k "request/" = true \/ HasPrefix k "issue/" = true ->
                           k <> "role/" +:+ ToLower name).
  { intros k [Hp|Hp] ->; simpl in Hp; discriminate. }
  destruct (Delete_flags _ _ _ _ Hd) as (Hg & _).
  split; [done|]. split; [by intros k Hk; apply Hframe, Hpre|]. split.
  - intros r n Hr Hn. unfold Accessor.get, Get, newBackend,
      Accessor.newAtomicStorageAccessor. simpl requestAccessor. simpl issueAccessor.
    rewrite !namespace_key by (done || by repeat split). rewrite Hg.
    rewrite !Hframe; [done| |]; apply Hpre; [right|left]; reflexivity.
  - intros Hfd. unfold Delete in Hd. rewrite Hfd in Hd. injection Hd as <- <-.
    simpl. apply lookup_delete_eq.
Qed.

Lemma role_delete_frame_witness :
  let s := healthy {[ "role/k8s-admin" := JNull; "request/k8s-admin/n1" := JStr "pending" ]} in
  generic_name "K8s-Admin" = true
  /\ kv (pathRoleDelete newBackend "K8s-Admin" s).2 !! "request/k8s-admin/n1"
     = kv s !! "request/k8s-admin/n1".
Proof.
  intros s. split; [reflexivity|].
  apply (proj1 (proj2 (role_delete_frame s "K8s-Admin" eq_refl))).
  left. reflexivity.
Defined.

(** *** What is written is what is read back *)

Lemma dec_enc_strings l : dec_strings (enc_strings l) = Some l.
Proof.
  destruct l as [|x l]; [done|]. unfold enc_strings, dec_strings.
  generalize (x :: l). clear. intros l.
  induction l as [|y l IH]; [done|]. cbn. cbn in IH. by rewrite IH.
Qed.

Lemma role_json_roundtrip r : role_of_json (role_to_json r) = Some r.
Proof.
  destruct r. unfold role_to_json, role_of_json, role_of_fields. simpl.
  rewrite !dec_enc_strings. simpl.
  by destruct SecretData0.
Qed.

(** *** [pathRoleCreateUpdate] computes the closed form *)

Ltac role_eval :=
  cbv beta iota zeta delta
    [set_SecretPath set_SecretPathMethod set_SecretData set_SecretType
     set_SecretEnvironment set_SecretAWSStateRole set_SecretRequiredFields
     set_SecretTTL set_SecretMaxTTL set_ExclusiveLease set_MinApprovers
     set_BoundRequesterIDs set_BoundRequesterRoles set_BoundApproverIDs
     set_BoundApproverRoles set_NotifySlackChannels assign_if_sent
     SecretPath SecretPathMethod SecretData SecretType SecretEnvironment
     SecretAWSStateRole SecretRequiredFields SecretTTL SecretMaxTTL
     ExclusiveLease MinApprovers BoundRequesterIDs BoundRequesterRoles
     BoundApproverIDs BoundApproverRoles NotifySlackChannels
     fd_name fd_secret_path fd_secret_path_method fd_secret_data fd_secret_type
     fd_secret_environment fd_secret_aws_state_role fd_secret_required_fields
     fd_secret_ttl fd_secret_max_ttl fd_exclusive_lease fd_min_approvers
     fd_bound_requester_ids fd_bound_requester_roles fd_bound_approver_ids
     fd_bound_approver_roles fd_notify_slack_channels
     bad_method data_with_get ttl_above_max bad_min_approvers stored_role
     stored_response eff_method eff_data eff_ttl eff_max_ttl eff_min_approvers
     non_nil zeroRole].

Lemma createUpdate_cases b sys op d s found :
  role b s (fd_name d) = Ok found ->
  let old := default zeroRole found in
  pathRoleCreateUpdate b sys op d s
  = if bad_method old d then ((Some errBadSecretPathMethod, None), s)
    else if data_with_get old d then ((Some errBadSecretDataMethod, None), s)
    else if ttl_above_max op old d then ((Some errTTLAboveMax, None), s)
    else if bad_min_approvers old d then ((Some errBadMinApprovers, None), s)
    else let '(err, s') :=
           Accessor.put (roleAccessor b) s (stored_role sys op old d) [fd_name d] in
         ((stored_response sys op old d, err), s').
Proof.
  intros Hload old. unfold pathRoleCreateUpdate. rewrite Hload. fold old.
  generalize old. clear. intros old.
  destruct old. destruct d.
  destruct fd_secret_path_method0 as [m|];
    [|destruct (String.eqb SecretPathMethod0 "") eqn:Em];
  (destruct fd_secret_data0 as [dat|]);
  (destruct fd_secret_ttl0 as [t|]); (destruct fd_secret_max_ttl0 as [mt|]);
  destruct op;
  (destruct fd_min_approvers0 as [k|];
    [|destruct (MinApprovers0 =? 0) eqn:Ek]);
  repeat (role_eval; rewrite ?Em, ?Ek;
          match goal with
          | |- context [if ?c then _ else _] => destruct c eqn:?
          end);
  role_eval; rewrite ?Em, ?Ek; reflexivity.
Qed.

Lemma role_load_healthy b s name found :
  role b s name = Ok found -> fail_get s = false.
Proof.
  unfold role, load, Accessor.get, Get. by destruct (fail_get s).
Qed.

(** A write that is not refused, on a store that accepts it. *)
Lemma accepted_write b sys op d s found :
  role b s (fd_name d) = Ok found ->
  let old := default zeroRole found in
  rejected op old d = false -> fail_put s = false ->
  let stored := stored_role sys op old d in
  let key := storage_key (roleAccessor b) [fd_name d] in
  pathRoleCreateUpdate b sys op d s
  = ((stored_response sys op old d, None),
     with_kv s (<[key := role_to_json stored]> (kv s)))
  /\ role b (pathRoleCreateUpdate b sys op d s).2 (fd_name d) = Ok (Some stored).
Proof.
  intros Hload old Hacc Hput stored key.
  pose proof (role_load_healthy _ _ _ _ Hload) as Hget.
  rewrite (createUpdate_cases b sys op d s found Hload). fold old.
  unfold rejected in Hacc.
  apply orb_false_elim in Hacc as [Hacc ->].
  apply orb_false_elim in Hacc as [Hacc ->].
  apply orb_false_elim in Hacc as [-> ->].
  unfold Accessor.put, StorageEntryJSON.
  change (marshal (stored_role sys op old d)) with (Some (role_to_json stored)).
  cbv iota beta.
  unfold Put. rewrite Hput. fold key. cbn [Key Value snd]. split; [done|].
  unfold role, load, Accessor.get, Get. cbn [fail_get with_kv kv]. rewrite Hget.
  fold key. rewrite lookup_insert_eq. cbn [fmap option_fmap option_map Value Key].
  change (unmarshal (role_to_json stored)) with (role_of_json (role_to_json stored)).
  by rewrite role_json_roundtrip.
Qed.

(** The four reasons as propositions over the effective values. *)
Lemma rejected_iff op old d :
  rejected op old d = true <->
  (eff_min_approvers old d < 1
   \/ (eff_method old d <> "GET" /\ eff_method old d <> "POST")
   \/ (eff_data d <> None /\ eff_method old d = "GET")
   \/ (eff_ttl op old d > eff_max_ttl op old d /\ eff_max_ttl op old d > 0)).
Proof.
  unfold rejected, bad_method, data_with_get, ttl_above_max, bad_min_approvers.
  rewrite !orb_true_iff, !andb_true_iff, !negb_true_iff, !String.eqb_neq,
    String.eqb_eq, !Z.ltb_lt.
  assert (Hnn : non_nil (eff_data d) = true <-> eff_data d <> None)
    by (destruct (eff_data d); simpl; split; congruence).
  rewrite Hnn. intuition lia.
Qed.

Lemma rejected_reply b sys op d s found :
  role b s (fd_name d) = Ok found ->
  rejected op (default zeroRole found) d = true ->
  exists resp,
    pathRoleCreateUpdate b sys op d s = ((Some resp, None), s)
    /\ resp ∈ [errBadSecretPathMethod; errBadSecretDataMethod;
               errTTLAboveMax; errBadMinApprovers].
Proof.
  intros Hload Hrej. rewrite (createUpdate_cases b sys op d s found Hload).
  unfold rejected in Hrej. cbv zeta.
  destruct (bad_method _ d); [eexists; split; [done|set_solver]|].
  destruct (data_with_get _ d); [eexists; split; [done|set_solver]|].
  destruct (ttl_above_max op _ d); [eexists; split; [done|set_solver]|].
  destruct (bad_min_approvers _ d); [eexists; split; [done|set_solver]|].
  done.
Qed.

Lemma error_replies resp :
  resp ∈ [errBadSecretPathMethod; errBadSecretDataMethod;
          errTTLAboveMax; errBadMinApprovers] ->
  IsError (Some resp) = true.
Proof.
  rewrite !elem_of_cons, elem_of_nil.
  intros [->|[->|[->|[->|[]]]]]; reflexivity.
Qed.

Lemma stored_response_not_error sys op old d :
  IsError (stored_response sys op old d) = false.
Proof. unfold stored_response. by destruct (_ <? _). Qed.

(** C2, amended. When the stored role can be read, the role path answers
    with one of its four error responses, and leaves the store as it was,
    exactly when: the effective [min_approvers] is below 1, or the effective
    [secret_path_method] is neither GET nor POST, or [secret_data] was sent as
    a map that is not nil (empty or not) while the method is GET, or the
    effective [secret_ttl] exceeds an effective [secret_max_ttl] above 0.
    Otherwise the role is handed to the accessor's [put], and is stored and
    read back when the store accepts the write. *)
Theorem role_put_rejection (b : backend) (sys : SystemView) (op : Operation)
        (d : FieldData) (s : Storage) (found : option roleStorageEntry)
        (Hload : role b s (fd_name d) = Ok found) :
  let old := default zeroRole found in
  let out := pathRoleCreateUpdate b sys op d s in
  let refused :=
    eff_min_approvers old d < 1
    \/ (eff_method old d <> "GET" /\ eff_method old d <> "POST")
    \/ (eff_data d <> None /\ eff_method old d = "GET")
    \/ (eff_ttl op old d > eff_max_ttl op old d /\ eff_max_ttl op old d > 0) in
  (IsError out.1.1 = true <-> refused)
  /\ (refused ->
      out.2 = s /\ out.1.2 = None
      /\ exists resp, out.1.1 = Some resp
           /\ resp ∈ [errBadSecretPathMethod; errBadSecretDataMethod;
                      errTTLAboveMax; errBadMinApprovers])
  /\ (~ refused ->
      out = (let '(err, s') :=
               Accessor.put (roleAccessor b) s (stored_role sys op old d) [fd_name d] in
             ((stored_response sys op old d, err), s'))
      /\ (fail_put s = false ->
          out.1.2 = None
          /\ kv out.2 = <[storage_key (roleAccessor b) [fd_name d]
                          := role_to_json (stored_role sys op old d)]> (kv s)
          /\ role b out.2 (fd_name d) = Ok (Some (stored_role sys op old d)))).
Proof.
  intros old out refused.
  assert (Hiff : rejected op old d = true <-> refused) by apply rejected_iff.
  assert (Hacc : ~ refused ->
            out = (let '(err, s') :=
                     Accessor.put (roleAccessor b) s (stored_role sys op old d)
                                  [fd_name d] in
                   ((stored_response sys op old d, err), s'))).
  { intros Hn. subst out. rewrite (createUpdate_cases b sys op d s found Hload).
    fold old. destruct (rejected op old d) eqn:Hr; [by destruct Hn; apply Hiff|].
    unfold rejected in Hr.
    apply orb_false_elim in Hr as [Hr ->].
    apply orb_false_elim in Hr as [Hr ->].
    by apply orb_false_elim in Hr as [-> ->]. }
  split; [|split].
  - split.
    + intros Herr. destruct (decide (rejected op old d = true)) as [Hr|Hr];
        [by apply Hiff|].
      rewrite Hacc in Herr by (by rewrite <- Hiff).
      destruct (Accessor.put _ _ _ _) as [err s'] in Herr. simpl in Herr.
      by rewrite stored_response_not_error in Herr.
    + intros Hr%Hiff.
      destruct (rejected_reply b sys op d s found Hload Hr) as (resp & Hout & Hin).
      subst out. rewrite Hout. simpl. by apply error_replies.
  - intros Hr%Hiff.
    destruct (rejected_reply b sys op d s found Hload Hr) as (resp & Hout & Hin).
    subst out. rewrite Hout. simpl. eauto.
  - intros Hn. split; [by apply Hacc|]. intros Hput.
    assert (Hr : rejected op old d = false).
    { destruct (rejected op old d) eqn:E; [|done]. by destruct Hn; apply Hiff. }
    destruct (accepted_write b sys op d s found Hload Hr Hput) as [Hout Hread].
    fold out in Hread. split; [|split; [|done]]; subst out; by rewrite Hout.
Qed.


Lemma role_put_rejection_witness :
  let d := sample_fields (Some "PUT") None None in
  role newBackend (healthy ∅) (fd_name d) = Ok None
  /\ IsError (pathRoleCreateUpdate newBackend day CreateOperation d (healthy ∅)).1.1
     = true.
Proof.
  intros d.
  assert (Hload : role newBackend (healthy ∅) (fd_name d) = Ok None) by reflexivity.
  split; [exact Hload|].
  apply (proj1 (role_put_rejection newBackend day CreateOperation d (healthy ∅)
                                   None Hload)).
  right. left. split; discriminate.
Defined.

(** C2 as stated fails: a create that sends [secret_data] as the empty map and
    no method (so GET) is refused with "bad method for secret_data (must be
    POST)", although [min_approvers] is 1, the method is GET, [secret_data]
    has no entry, and [secret_ttl] (8h) is below [secret_max_ttl] (12h). *)
Lemma role_put_refuses_empty_secret_data :
  ~ (forall sys op d s found,
        role newBackend s (fd_name d) = Ok found ->
        IsError (pathRoleCreateUpdate newBackend sys op d s).1.1 = true
        <-> rejected_on_non_empty_data op (default zeroRole found) d = true).
Proof.
  intros H.
  assert (Hload : role newBackend (healthy ∅) "k8s-admin" = Ok None) by reflexivity.
  destruct (H day CreateOperation (sample_fields None (Some (Some [])) None)
              (healthy ∅) None Hload) as [Hclaim _].
  assert (Hcode : pathRoleCreateUpdate newBackend day CreateOperation
                    (sample_fields None (Some (Some [])) None) (healthy ∅)
                  = ((Some errBadSecretDataMethod, None), healthy ∅)).
  { by rewrite (createUpdate_cases newBackend day CreateOperation
                   (sample_fields None (Some (Some [])) None) (healthy ∅) None Hload). }
  rewrite Hcode in Hclaim. specialize (Hclaim eq_refl). discriminate Hclaim.
Qed.

Lemma seconds_exact n : 0 <= n <= 9223372036 -> seconds n = n * 1000000000.
Proof. intros Hn. unfold seconds, wrap64, Second. rewrite Z.mod_small; lia. Qed.

(** C7. When a role create/update is accepted and written and the resulting
    [secret_max_ttl] exceeds the mount's maximum lease TTL, the stored role's
    [secret_max_ttl] is exactly the mount's maximum and the response carries
    the truncation warning (and is not an error); when it does not exceed the
    maximum, the stored value is the resulting one, which is the value sent
    (in seconds) when one was sent, and there is no response. *)
Theorem max_ttl_clamped (b : backend) (sys : SystemView) (op : Operation)
        (d : FieldData) (s : Storage) (found : option roleStorageEntry)
        (Hload : role b s (fd_name d) = Ok found)
        (Haccepted : rejected op (default zeroRole found) d = false)
        (Hstore : fail_put s = false) :
  let old := default zeroRole found in
  let out := pathRoleCreateUpdate b sys op d s in
  let asked := eff_max_ttl op old d in
  exists stored,
    out.1.2 = None
    /\ role b out.2 (fd_name d) = Ok (Some stored)
    /\ (MaxLeaseTTL sys < asked ->
        SecretMaxTTL stored = MaxLeaseTTL sys
        /\ exists resp, out.1.1 = Some resp
             /\ Warnings resp = [warnMaxTTLTruncated]
             /\ IsError (Some resp) = false)
    /\ (asked <= MaxLeaseTTL sys ->
        SecretMaxTTL stored = asked /\ out.1.1 = None)
    /\ (forall n, fd_secret_max_ttl d = Some n -> 0 <= n <= 9223372036 ->
                  asked = n * 1000000000).
Proof.
  intros old out asked.
  destruct (accepted_write b sys op d s found Hload Haccepted Hstore) as [Hout Hread].
  fold old in Hout, Hread. fold out in Hread.
  exists (stored_role sys op old d). subst out. rewrite Hout in *. simpl.
  split; [done|]. split; [done|].
  unfold stored_response. fold asked.
  split; [|split].
  - intros Hlt. apply Z.ltb_lt in Hlt. rewrite Hlt. split; [done|]. by eexists.
  - intros Hle. apply Z.ltb_ge in Hle. by rewrite Hle.
  - intros n Hn Hrange. subst asked. unfold eff_max_ttl. rewrite Hn.
    by apply seconds_exact.
Qed.

Lemma max_ttl_clamped_witness :
  let d := sample_fields (Some "POST") None (Some 172800) in
  exists stored,
    role newBackend
         (pathRoleCreateUpdate newBackend day CreateOperation d (healthy ∅)).2
         "k8s-admin" = Ok (Some stored)
    /\ SecretMaxTTL stored = 86400 * Second.
Proof.
  intros d.
  assert (Hload : role newBackend (healthy ∅) (fd_name d) = Ok None) by reflexivity.
  assert (Hacc : rejected CreateOperation (default zeroRole None) d = false)
    by reflexivity.
  destruct (max_ttl_clamped newBackend day CreateOperation d (healthy ∅) None
                            Hload Hacc eq_refl)
    as (stored & _ & Hread & Hclamp & _).
  exists stored. split; [exact Hread|]. apply Hclamp. reflexivity.
Defined.

(** C10. When an existing role is updated and the update is accepted and
    written, a request that does not send [secret_data] leaves the stored role
    with none (nil), whereas [bound_requester_ids], [bound_requester_roles],
    [bound_approver_ids], [bound_approver_roles] and [notify_slack_channels]
    keep the stored value when the request does not send them. *)
Theorem update_clears_secret_data (b : backend) (sys : SystemView)
        (op : Operation) (d : FieldData) (s : Storage) (old : roleStorageEntry)
        (Hload : role b s (fd_name d) = Ok (Some old))
        (Haccepted : rejected op old d = false)
        (Hstore : fail_put s = false)
        (Hdata : fd_secret_data d = None) :
  let out := pathRoleCreateUpdate b sys op d s in
  exists stored,
    role b out.2 (fd_name d) = Ok (Some stored)
    /\ SecretData stored = None
    /\ (fd_bound_requester_ids d = None ->
        BoundRequesterIDs stored = BoundRequesterIDs old)
    /\ (fd_bound_requester_roles d = None ->
        BoundRequesterRoles stored = BoundRequesterRoles old)
    /\ (fd_bound_approver_ids d = None ->
        BoundApproverIDs stored = BoundApproverIDs old)
    /\ (fd_bound_approver_roles d = None ->
        BoundApproverRoles stored = BoundApproverRoles old)
    /\ (fd_notify_slack_channels d = None ->
        NotifySlackChannels stored = NotifySlackChannels old).
Proof.
  intros out.
  destruct (accepted_write b sys op d s (Some old) Hload Haccepted Hstore)
    as [_ Hread].
  fold out in Hread. simpl in Hread.
  exists (stored_role sys op old d). split; [done|].
  unfold stored_role, eff_data. simpl. rewrite Hdata.
  repeat split; by intros ->.
Qed.


Lemma update_clears_secret_data_witness :
  let s := healthy {[ "role/k8s-admin" := role_to_json sample_role ]} in
  let d := sample_fields None None None in
  exists stored,
    role newBackend (pathRoleCreateUpdate newBackend day UpdateOperation d s).2
         "k8s-admin" = Ok (Some stored)
    /\ SecretData stored = None
    /\ BoundApproverIDs stored = ["gd40qy"; "bc12po"; "po12lk"].
Proof.
  intros s d.
  assert (Hload : role newBackend s (fd_name d) = Ok (Some sample_role))
    by reflexivity.
  assert (Hacc : rejected UpdateOperation sample_role d = false) by reflexivity.
  destruct (update_clears_secret_data newBackend day UpdateOperation d s sample_role
                                      Hload Hacc eq_refl eq_refl)
    as (stored & Hread & Hdata & _ & _ & Hids & _).
  exists stored. split; [exact Hread|]. split; [exact Hdata|].
  apply Hids. reflexivity.
Defined.

End RoleRegistrySpec.

(** ** The periodic token renewal *)
Module RenewerSpec.
Import Logical Entries Backend Samples.

(** Whatever the store and the library answer, the renewal never returns an
    error: it returns nil or it panics. *)
Lemma renewer_returns_no_error b api s e :
  newVaultTokenRenewer b api s <> Returns (Some e).
Proof.
  unfold newVaultTokenRenewer.
  destruct (config b s) as [[c|]|]; try done.
  destruct (newVaultClient api _ _) as [[clt|]|]; try done.
  by destruct (Write api clt _ _).
Qed.

(** It returns nil on every outcome in which [api.NewClient] hands back a
    client. *)
Lemma renewer_swallows b api s :
  (forall cfg, (NewClient api cfg).1 <> None) ->
  newVaultTokenRenewer b api s = Returns None.
Proof.
  intros Hclt. unfold newVaultTokenRenewer.
  destruct (config b s) as [[c|]|]; try done.
  unfold newVaultClient.
  destruct (DefaultConfig api) as [cfg|]; [|done].
  destruct (CfgError cfg); [done|].
  specialize (Hclt {| CfgError := None; Address := VaultAddr c |}).
  destruct (NewClient api _) as [[clt|] err]; [|done].
  by destruct (Write api _ _ _).
Qed.

(** C4, the failing run. With a configuration in the store and a client
    library whose [NewClient] fails (no client, an error), the renewal does
    not return nil: [newVaultClient] goes on to [SetToken] on the nil client
    and the call panics. *)
Theorem renewer_panics_when_NewClient_fails :
  let s := healthy {[ "config" := config_to_json sample_config ]} in
  config newBackend s = Ok (Some sample_config)
  /\ newVaultTokenRenewer newBackend failing_NewClient s
     = Panics "nil pointer dereference".
Proof. split; reflexivity. Qed.

End RenewerSpec.

(** ** Locking: what the accessor's mutex covers *)
Module LockingSpec.
Import Logical Entries Backend RoleRules Samples Locking RoleRegistrySpec.

(** Run alone, the component call is the function of [Module Backend]. *)
Lemma exec_createUpdate b sys op d s :
  exec (createUpdate_prog b sys op d) s = pathRoleCreateUpdate b sys op d s.
Proof.
  unfold createUpdate_prog. cbn [exec perform].
  destruct (role b s (fd_name d)) as [found|e] eqn:Hrole.
  - rewrite (createUpdate_cases b sys op d s found Hrole).
    unfold role, load, Accessor.get in Hrole.
    destruct (Get s _) as [[entry|]|e']; [|injection Hrole as <-|done].
    + destruct (unmarshal (Value entry)) as [r|] eqn:Hu; [|done]. injection Hrole as <-.
      change (default zeroRole (Some r)) with r. destruct (bad_method r d); [done|].
      destruct (data_with_get r d); [done|].
      destruct (ttl_above_max op r d); [done|].
      destruct (bad_min_approvers r d); [done|].
      cbn [exec perform]. unfold Accessor.put, StorageEntryJSON. simpl marshal.
      cbv iota beta. by destruct (Put s _).
    + change (default zeroRole None) with zeroRole.
      destruct (bad_method zeroRole d); [done|].
      destruct (data_with_get zeroRole d); [done|].
      destruct (ttl_above_max op zeroRole d); [done|].
      destruct (bad_min_approvers zeroRole d); [done|].
      cbn [exec perform]. unfold Accessor.put, StorageEntryJSON. simpl marshal.
      cbv iota beta. by destruct (Put s _).
  - unfold pathRoleCreateUpdate. rewrite Hrole.
    unfold role, load, Accessor.get in Hrole.
    destruct (Get s _) as [[entry|]|e']; [|done|by injection Hrole as ->].
    destruct (unmarshal (Value entry)) as [r|]; [done|]. by injection Hrole as <-.
Qed.

(** *** The lock invariant *)

Lemma count_insert P ts i t t' :
  ts !! i = Some t ->
  (count P (<[i := t']> ts) + b2n (P t) = count P ts + b2n (P t'))%nat.
Proof.
  revert i. induction ts as [|x ts IH]; intros [|i] Hi; simpl in *; try done.
  - injection Hi as ->. unfold b2n. destruct (P t), (P t'); lia.
  - specialize (IH i Hi). lia.
Qed.

Lemma count_zero P ts i t : count P ts = 0%nat -> ts !! i = Some t -> P t = false.
Proof.
  revert i. induction ts as [|x ts IH]; intros [|i] Hc Hi; simpl in *; try done.
  - injection Hi as ->. by destruct (P t).
  - apply (IH i); [|done]. destruct (P x); simpl in Hc; lia.
Qed.

Lemma count_one P ts i j t t' :
  count P ts = 1%nat -> ts !! i = Some t -> P t = true ->
  ts !! j = Some t' -> i <> j -> P t' = false.
Proof.
  revert i j. induction ts as [|x ts IH]; intros [|i] [|j] Hc Hi Ht Hj Hne;
    simpl in *; try done.
  - injection Hi as ->. rewrite Ht in Hc. simpl in Hc.
    apply (count_zero P ts j); [lia|done].
  - injection Hj as ->. destruct (P t') eqn:E; [|done]. simpl in Hc.
    assert (Hz : count P ts = 0%nat) by lia.
    by rewrite (count_zero P ts i t Hz Hi) in Ht.
  - apply (IH i j); try done; [|congruence].
    destruct (P x); simpl in Hc; [|done].
    assert (Hz : count P ts = 0%nat) by lia.
    by rewrite (count_zero P ts i t Hz Hi) in Ht.
Qed.

Lemma lock_inv_init s ps : lock_inv (init s ps).
Proof.
  unfold lock_inv, init. simpl.
  assert (H : forall P, (forall p, P (start p) = false) ->
                        count P (start <$> ps) = 0%nat).
  { intros P HP. induction ps as [|p ps IH]; [done|].
    rewrite fmap_cons. cbn [count]. by rewrite HP, IH. }
  rewrite !H by (by intros []). done.
Qed.

Lemma holds_idle p :
  holds_read {| code := p; at_phase := Idle |} = false
  /\ holds_write {| code := p; at_phase := Idle |} = false.
Proof. by destruct p. Qed.

Lemma holds_locked c k :
  holds_read {| code := Call c k; at_phase := Locked |} = negb (is_write c)
  /\ holds_write {| code := Call c k; at_phase := Locked |} = is_write c.
Proof. done. Qed.

Lemma holds_operated c k a :
  holds_read {| code := Call c k; at_phase := Operated a |} = negb (is_write c)
  /\ holds_write {| code := Call c k; at_phase := Operated a |} = is_write c.
Proof. done. Qed.

Lemma lock_inv_step i w w' : lock_inv w -> step i w = Some w' -> lock_inv w'.
Proof.
  intros (Hr & Hw & Hx). unfold step.
  destruct (threads w !! i) as [t|] eqn:Hi; [|done].
  destruct t as [[reply|c k] ph]; simpl; [done|].
  pose proof (fun t' => count_insert holds_read (threads w) i _ t' Hi) as CR.
  pose proof (fun t' => count_insert holds_write (threads w) i _ t' Hi) as CW.
  destruct (holds_locked c k) as [RL WL].
  destruct ph as [| |a].
  - destruct (holds_idle (Call c k)) as [RI WI].
    specialize (CR {| code := Call c k; at_phase := Locked |}).
    specialize (CW {| code := Call c k; at_phase := Locked |}).
    rewrite RI, RL in CR. rewrite WI, WL in CW.
    destruct (is_write c) eqn:Ec.
    + destruct (writer (mutex w)) eqn:Ew; [done|].
      destruct (Nat.eqb (readers (mutex w)) 0) eqn:En; [|done]. simpl.
      apply Nat.eqb_eq in En. intros [= <-]. unfold lock_inv. simpl in *.
      repeat split; [lia|lia|done].
    + destruct (writer (mutex w)) eqn:Ew; [done|].
      intros [= <-]. unfold lock_inv. simpl in *.
      repeat split; [lia|lia|done].
  - destruct (perform c (store w)) as [a s']. intros [= <-]. unfold lock_inv. simpl.
    destruct (holds_operated c k a) as [RO WO].
    specialize (CR {| code := Call c k; at_phase := Operated a |}).
    specialize (CW {| code := Call c k; at_phase := Operated a |}).
    rewrite RO, RL in CR. rewrite WO, WL in CW.
    repeat split; [lia|lia|done].
  - intros [= <-]. unfold lock_inv. simpl.
    destruct (holds_operated c k a) as [RO WO].
    destruct (holds_idle (k a)) as [RI WI].
    specialize (CR {| code := k a; at_phase := Idle |}).
    specialize (CW {| code := k a; at_phase := Idle |}).
    rewrite RO, RI in CR. rewrite WO, WI in CW.
    destruct (is_write c) eqn:Ec; simpl in *.
    + destruct (writer (mutex w)) eqn:Ew; simpl in *; [|lia].
      repeat split; [lia|lia|done].
    + repeat split; [lia|lia|]. intros Ew. specialize (Hx Ew). lia.
Qed.

Lemma lock_inv_run sched w w' : lock_inv w -> run sched w = Some w' -> lock_inv w'.
Proof.
  revert w. induction sched as [|i sched IH]; intros w Hinv; simpl.
  - by intros [= <-].
  - destruct (step i w) as [w1|] eqn:Hs; [|done].
    intros Hrun. eapply IH; [|done]. by eapply lock_inv_step.
Qed.

Lemma count_all_idle P ts :
  (forall p, P {| code := p; at_phase := Idle |} = false) ->
  all_idle ts = true -> count P ts = 0%nat.
Proof.
  intros HP. induction ts as [|[p ph] ts IH]; simpl; [done|].
  destruct ph; try done. intros Hts. by rewrite HP, IH.
Qed.

(** Both calls answer without error, the trace has call 1's operations
    between call 0's [get] and [put], and the role left in the store is the
    one call 0 computed from what it had read: the threshold call 1 wrote
    (3) is gone. *)
Lemma racing_run :
  exists w,
    run racing_schedule (init racing_store racing_calls) = Some w
    /\ interleaved (trace w) = true
    /\ code <$> threads w = [Ret (None, None); Ret (None, None)]
    /\ role newBackend (store w) "k8s-admin" = Ok (Some restricted_role).
Proof.
  assert (H : (fun w => (interleaved (trace w), code <$> threads w,
                         role newBackend (store w) "k8s-admin"))
                <$> run racing_schedule (init racing_store racing_calls)
              = Some (true, [Ret (None, None); Ret (None, None)],
                      Ok (Some restricted_role)))
    by (vm_compute; reflexivity).
  destruct (run racing_schedule (init racing_store racing_calls)) as [w|];
    [|discriminate H].
  exists w. injection H as H1 H2 H3. done.
Qed.

(** Run one after the other, in either order, the two updates leave a role
    that has both changes. *)
Lemma serial_runs_keep_both :
  let p0 := createUpdate_prog newBackend day UpdateOperation restrict_approvers in
  let p1 := createUpdate_prog newBackend day UpdateOperation raise_threshold in
  let both r := BoundApproverIDs r = ["gd40qy"] /\ MinApprovers r = 3 in
  match role newBackend (exec p1 (exec p0 racing_store).2).2 "k8s-admin",
        role newBackend (exec p0 (exec p1 racing_store).2).2 "k8s-admin" with
  | Ok (Some r01), Ok (Some r10) => both r01 /\ both r10
  | _, _ => False
  end.
Proof. vm_compute. repeat split. Qed.

(** C5 as stated fails: in the racing run a call to the role namespace runs
    between the [get] and the [put] of another call's get-modify-put
    sequence on the same role. *)
Lemma get_modify_put_interleaves :
  ~ (forall s ps sched w,
        run sched (init s ps) = Some w -> interleaved (trace w) = false).
Proof.
  intros H. destruct racing_run as (w & Hrun & Hint & _).
  rewrite (H _ _ _ _ Hrun) in Hint. discriminate Hint.
Qed.

(** C5, amended. The accessor's lock covers one operation at a time. In every
    state that concurrent calls to one accessor can reach: while a call is
    inside [put] or [delete] no other call is inside any operation of the
    accessor; while a call is inside [get] or [list] no other call is inside
    [put] or [delete]; and when no call is inside an operation the lock is
    free, which is the state between the [get] and the [put] of a
    get-modify-put sequence, so other calls can take it there. *)
Theorem lock_covers_single_operation (s : Storage) (ps : list prog)
        (sched : list nat) (w : world)
        (Hrun : run sched (init s ps) = Some w) :
  (forall i j t t',
      threads w !! i = Some t -> threads w !! j = Some t' -> i <> j ->
      holds_write t = true -> holds_write t' = false /\ holds_read t' = false)
  /\ (forall i j t t',
         threads w !! i = Some t -> threads w !! j = Some t' -> i <> j ->
         holds_read t = true -> holds_write t' = false)
  /\ (all_idle (threads w) = true -> mutex w = unlocked).
Proof.
  pose proof (lock_inv_run sched _ w (lock_inv_init s ps) Hrun) as (Hr & Hw & Hx).
  split; [|split].
  - intros i j t t' Hi Hj Hne Ht.
    destruct (writer (mutex w)) eqn:Ew.
    + split.
      * by apply (count_one holds_write (threads w) i j t t').
      * apply (count_zero holds_read (threads w) j); [|done].
        rewrite <- Hr. by apply Hx.
    + by rewrite (count_zero holds_write (threads w) i t Hw Hi) in Ht.
  - intros i j t t' Hi Hj Hne Ht.
    destruct (writer (mutex w)) eqn:Ew.
    + specialize (Hx eq_refl). rewrite Hx in Hr.
      by rewrite (count_zero holds_read (threads w) i t (eq_sym Hr) Hi) in Ht.
    + by apply (count_zero holds_write (threads w) j).
  - intros Hidle.
    rewrite (count_all_idle holds_read) in Hr by (done || apply holds_idle).
    rewrite (count_all_idle holds_write) in Hw by (done || apply holds_idle).
    destruct (mutex w) as [[] n]; simpl in *; [done|]. by subst n.
Qed.

Lemma lock_covers_single_operation_witness :
  exists w,
    run [0; 0; 0]%nat (init racing_store racing_calls) = Some w
    /\ mutex w = unlocked.
Proof.
  assert (H : (fun w => all_idle (threads w))
                <$> run [0; 0; 0]%nat (init racing_store racing_calls)
              = Some true) by (vm_compute; reflexivity).
  destruct (run [0; 0; 0]%nat (init racing_store racing_calls)) as [w|] eqn:Hrun;
    [|discriminate H].
  exists w. split; [reflexivity|].
  injection H as H.
  exact (proj2 (proj2 (lock_covers_single_operation racing_store racing_calls
                         [0; 0; 0]%nat w Hrun)) H).
Defined.

End LockingSpec.

(** ** The approval threshold *)
Module WorkflowSpec.
Import Logical Entries Backend Workflow Samples Scenario.
Import RoleRegistrySpec (dec_enc_strings, role_load_healthy).
#[local] Set Warnings "-clear-no-such-hyp".

Lemma request_json_roundtrip q : request_of_json (request_to_json q) = Some q.
Proof.
  destruct q. unfold request_to_json, request_of_json. simpl.
  rewrite !dec_enc_strings. simpl. by rewrite list_to_set_elements_L.
Qed.

Lemma put_failed `{JSON A} a s (v : A) ks e s' :
  Accessor.put a s v ks = (Some e, s') -> s' = s.
Proof.
  unfold Accessor.put, StorageEntryJSON, Put.
  destruct (marshal v); [|by intros [= _ <-]].
  destruct (fail_put s); [by intros [= _ <-]|done].
Qed.

Lemma request_after_put b s q name nonce s' :
  Accessor.put (requestAccessor b) s q [name; nonce] = (None, s') ->
  fail_get s = false ->
  request b s' name nonce = Ok (Some q).
Proof.
  unfold Accessor.put, StorageEntryJSON. simpl marshal. cbv iota beta.
  unfold Put. destruct (fail_put s); [done|]. intros [= <-] Hget.
  unfold request, load, Accessor.get, Get. cbn [fail_get with_kv kv Key Value].
  rewrite Hget, lookup_insert_eq. cbn [fmap option_fmap option_map Value Key].
  change (unmarshal (request_to_json q)) with (request_of_json (request_to_json q)).
  by rewrite request_json_roundtrip.
Qed.

Lemma request_loaded b s name nonce found :
  request b s name nonce = Ok found -> fail_get s = false.
Proof. unfold request, load, Accessor.get, Get. by destruct (fail_get s). Qed.

Lemma open_done b name who now nonce s q s' :
  openRequest b name who now nonce s = (Done q, s') ->
  exists r,
    role b s name = Ok (Some r)
    /\ SnapMinApprovers q = MinApprovers r
    /\ ApproverIDs q = ∅
    /\ resolved who = Some (RequesterID q)
    /\ request b s' name nonce = Ok (Some q).
Proof.
  unfold openRequest.
  destruct (role b s name) as [[r|]|] eqn:Hrole; try done.
  destruct (resolved who) as [id|]; [|done].
  destruct (negb _); [done|].
  destruct (if ExclusiveLease r then _ else _) as [[]|]; try done.
  destruct (config b s) as [[cfg|]|]; try done.
  destruct (Accessor.put _ _ _ _) as [[e|] s1] eqn:Hput; [done|].
  intros [= <- <-]. exists r. repeat split; try done.
  eapply request_after_put; [done|]. by eapply role_load_healthy.
Qed.

Lemma approve_failed b name nonce who now s f s' :
  approveRequest b name nonce who now s = (Fails f, s') -> s' = s.
Proof.
  unfold approveRequest.
  destruct (request b s name nonce) as [[q|]|]; try by intros [= _ <-].
  destruct (_ <? _); [by intros [= _ <-]|].
  destruct (resolved who) as [id|]; [|by intros [= _ <-]].
  destruct (negb _); [by intros [= _ <-]|].
  destruct (config b s) as [[cfg|]|]; try by intros [= _ <-].
  destruct (Accessor.put _ _ _ _) as [[e|] s1] eqn:Hput; [|done].
  intros [= _ <-]. exact (put_failed _ _ _ _ _ _ Hput).
Qed.

Lemma approve_done b name nonce who now s q' s' :
  approveRequest b name nonce who now s = (Done q', s') ->
  exists q id,
    request b s name nonce = Ok (Some q)
    /\ resolved who = Some id
    /\ ApproverIDs q' = {[id]} ∪ ApproverIDs q
    /\ SnapMinApprovers q' = SnapMinApprovers q
    /\ RequesterID q' = RequesterID q
    /\ request b s' name nonce = Ok (Some q').
Proof.
  unfold approveRequest.
  destruct (request b s name nonce) as [[q|]|] eqn:Hreq; try done.
  destruct (_ <? _); [done|].
  destruct (resolved who) as [id|]; [|done].
  destruct (negb _); [done|].
  destruct (config b s) as [[cfg|]|]; try done.
  destruct (Accessor.put _ _ _ _) as [[e|] s1] eqn:Hput; [done|].
  intros [= <- <-]. exists q, id. repeat split; try done.
  eapply request_after_put; [done|]. by eapply request_loaded.
Qed.

(** After any run of approve calls the request holds exactly the identities
    of the calls that went through, on top of those it had; its threshold and
    its requester are the ones it was opened with. *)
Lemma approve_all_collects b name nonce calls :
  forall s q s2 approved,
    request b s name nonce = Ok (Some q) ->
    approve_all b name nonce calls s = (s2, approved) ->
    exists q2,
      request b s2 name nonce = Ok (Some q2)
      /\ ApproverIDs q2 = list_to_set approved ∪ ApproverIDs q
      /\ SnapMinApprovers q2 = SnapMinApprovers q
      /\ RequesterID q2 = RequesterID q.
Proof.
  induction calls as [|[who now] calls IH]; intros s q s2 approved Hreq; simpl.
  - intros [= <- <-]. exists q. repeat split; [done|set_solver].
  - destruct (approveRequest b name nonce who now s) as [[q1|f] s1] eqn:Hap.
    + destruct (approve_done _ _ _ _ _ _ _ _ Hap)
        as (q' & id & Hreq' & Hid & Hids & Hmin & Hrid & Hreq1).
      rewrite Hreq in Hreq'. injection Hreq' as <-.
      destruct (approve_all b name nonce calls s1) as [s3 ids] eqn:Hrest.
      intros [= <- <-].
      destruct (IH s1 q1 s3 ids Hreq1 Hrest) as (q2 & H2 & Hset & Hmin2 & Hrid2).
      exists q2. rewrite Hid. simpl.
      repeat split; [done| |congruence|congruence].
      rewrite Hset, Hids. set_solver.
    + rewrite (approve_failed _ _ _ _ _ _ _ _ Hap). by apply IH.
Qed.

Lemma size_distinct (l : list string) :
  size (list_to_set (C := gset string) l) = length (remove_dups l).
Proof.
  rewrite <- (size_list_to_set (C := gset string) (remove_dups l))
    by apply NoDup_remove_dups.
  f_equal. apply set_eq. intros x.
  by rewrite !elem_of_list_to_set, elem_of_remove_dups.
Qed.

Lemma same_identities_same_count (l l' : list string) :
  (forall x, x ∈ l' <-> x ∈ l) ->
  length (remove_dups l') = length (remove_dups l).
Proof.
  intros Hsame. rewrite <- !size_distinct. f_equal. apply set_eq. intros x.
  by rewrite !elem_of_list_to_set.
Qed.

(** *** The decision of [issue] on a live request *)

Lemma issue_below_threshold b name nonce who now ttl env s q :
  request b s name nonce = Ok (Some q) -> now <= ExpiresAt q ->
  Z.of_nat (size (ApproverIDs q)) < SnapMinApprovers q ->
  issueSecret b name nonce who now ttl env s = (Fails insufficient, s).
Proof.
  intros Hreq Hlive Hlt. unfold issueSecret. rewrite Hreq.
  apply Z.ltb_ge in Hlive. rewrite Hlive.
  apply Z.ltb_lt in Hlt. by rewrite Hlt.
Qed.

Lemma issue_at_threshold_not_insufficient b name nonce who now ttl env s q :
  request b s name nonce = Ok (Some q) ->
  SnapMinApprovers q <= Z.of_nat (size (ApproverIDs q)) ->
  (issueSecret b name nonce who now ttl env s).1 <> Fails insufficient.
Proof.
  intros Hreq Hge. unfold issueSecret. rewrite Hreq.
  apply Z.ltb_ge in Hge. rewrite Hge.
  destruct (ExpiresAt q <? now); [simpl; intros ?; discriminate|].
  destruct (resolved who) as [id|]; [|simpl; intros ?; discriminate].
  destruct (negb _); [simpl; intros ?; discriminate|].
  destruct (config b s) as [[cfg|]|]; try (simpl; intros ?; discriminate).
  destruct (role b s name) as [[r|]|]; try (simpl; intros ?; discriminate).
  destruct (downstream env) as [[payload corr]|]; [|simpl; intros ?; discriminate].
  destruct (Accessor.put _ _ _ _) as [[e|] s1]; [simpl; intros ?; discriminate|].
  destruct (Accessor.delete _ _ _) as [[e|] s2]; [simpl; intros ?; discriminate|].
  destruct (notified env); simpl; intros ?; discriminate.
Qed.

Lemma issue_done_threshold b name nonce who now ttl env s q sec :
  request b s name nonce = Ok (Some q) ->
  (issueSecret b name nonce who now ttl env s).1 = Done sec ->
  SnapMinApprovers q <= Z.of_nat (size (ApproverIDs q))
  /\ IsRenewable sec = false.
Proof.
  intros Hreq. unfold issueSecret. rewrite Hreq.
  destruct (ExpiresAt q <? now); [by simpl|].
  destruct (Z.of_nat _ <? _) eqn:Hk; [by simpl|]. apply Z.ltb_ge in Hk.
  destruct (resolved who) as [id|]; [|by simpl].
  destruct (negb _); [by simpl|].
  destruct (config b s) as [[cfg|]|]; try by simpl.
  destruct (role b s name) as [[r|]|]; try by simpl.
  destruct (downstream env) as [[payload corr]|]; [|by simpl].
  destruct (Accessor.put _ _ _ _) as [[e|] s1]; [by simpl|].
  destruct (Accessor.delete _ _ _) as [[e|] s2]; [by simpl|].
  destruct (notified env); [|by simpl]. simpl. by intros [= <-].
Qed.

Lemma issue_goes_through b name nonce who now ttl env s q cfg r :
  request b s name nonce = Ok (Some q) -> now <= ExpiresAt q ->
  SnapMinApprovers q <= Z.of_nat (size (ApproverIDs q)) ->
  resolved who = Some (RequesterID q) ->
  config b s = Ok (Some cfg) -> role b s name = Ok (Some r) ->
  downstream env <> None -> notified env = true ->
  fail_put s = false -> fail_delete s = false ->
  exists sec, (issueSecret b name nonce who now ttl env s).1 = Done sec.
Proof.
  intros Hreq Hlive Hge Hwho Hcfg Hrole Hdown Hnote Hput Hdel.
  unfold issueSecret. rewrite Hreq.
  apply Z.ltb_ge in Hlive. rewrite Hlive.
  apply Z.ltb_ge in Hge. rewrite Hge.
  rewrite Hwho, String.eqb_refl. simpl. rewrite Hcfg, Hrole.
  destruct (downstream env) as [[payload corr]|]; [|done].
  unfold Accessor.put, StorageEntryJSON. simpl marshal. cbv iota beta.
  unfold Put. rewrite Hput. unfold Accessor.delete, Delete.
  cbn [fail_delete with_kv]. rewrite Hdel, Hnote. by eexists.
Qed.

(** C1. For a role with [min_approvers = k] and a request opened against it,
    after any run of approve calls the request holds the set of identities
    whose approval went through, and its threshold is [k]. On such a request,
    while it has not expired: with fewer than [k] distinct approving
    identities [issue] fails with PermissionDenied ("insufficient approvals")
    and changes nothing, and it fails that way only then; an [issue] that
    succeeds had at least [k]; and when the caller is the requester, config
    and role are in place, the downstream source and the notification answer
    and the store accepts the writes, [issue] succeeds exactly when there are
    at least [k]. The count is that of distinct identities: repeats and the
    order of arrival do not change it. *)
Theorem issue_needs_k_distinct_approvals
        (b : backend) (s0 s1 s2 : Storage) (name nonce : string)
        (r : roleStorageEntry) (requester : Caller) (t0 : Z)
        (q0 : requestStorageEntry) (calls : list (Caller * Z))
        (approved : list string)
        (Hrole : role b s0 name = Ok (Some r))
        (Hopen : openRequest b name requester t0 nonce s0 = (Done q0, s1))
        (Happrove : approve_all b name nonce calls s1 = (s2, approved)) :
  let k := MinApprovers r in
  let distinct := Z.of_nat (length (remove_dups approved)) in
  exists q2,
    request b s2 name nonce = Ok (Some q2)
    /\ SnapMinApprovers q2 = k
    /\ ApproverIDs q2 = list_to_set approved
    /\ Z.of_nat (size (ApproverIDs q2)) = distinct
    /\ (forall approved',
           (forall x, x ∈ approved' <-> x ∈ approved) ->
           Z.of_nat (length (remove_dups approved')) = distinct)
    /\ forall who now ttl env,
        now <= ExpiresAt q2 ->
        let out := issueSecret b name nonce who now ttl env s2 in
        (distinct < k -> out = (Fails insufficient, s2))
        /\ (out.1 = Fails insufficient -> distinct < k)
        /\ (forall sec, out.1 = Done sec -> k <= distinct /\ IsRenewable sec = false)
        /\ (resolved who = resolved requester ->
            (exists cfg, config b s2 = Ok (Some cfg)) ->
            (exists r', role b s2 name = Ok (Some r')) ->
            downstream env <> None -> notified env = true ->
            fail_put s2 = false -> fail_delete s2 = false ->
            ((exists sec, out.1 = Done sec) <-> k <= distinct)).
Proof.
  intros k distinct.
  destruct (open_done _ _ _ _ _ _ _ _ Hopen) as (r' & Hrole' & Hk & Hnone & Hopener & Hreq1).
  rewrite Hrole in Hrole'. injection Hrole' as <-.
  destruct (approve_all_collects b name nonce calls s1 q0 s2 approved Hreq1 Happrove)
    as (q2 & Hreq2 & Hset & Hmin & Hrid).
  assert (Hids : ApproverIDs q2 = list_to_set approved)
    by (rewrite Hset, Hnone; set_solver).
  assert (Hsize : Z.of_nat (size (ApproverIDs q2)) = distinct)
    by (by rewrite Hids, size_distinct).
  assert (Hmin2 : SnapMinApprovers q2 = k) by (by rewrite Hmin, Hk).
  exists q2. split; [done|]. split; [done|]. split; [done|]. split; [done|].
  split.
  - intros approved' Hsame. subst distinct. f_equal.
    by apply same_identities_same_count.
  - intros who now ttl env Hlive out. subst out. rewrite <- Hsize, <- Hmin2.
    split; [|split; [|split]].
    + intros Hlt. by eapply issue_below_threshold.
    + intros Hout.
      destruct (Z.lt_ge_cases (Z.of_nat (size (ApproverIDs q2))) (SnapMinApprovers q2))
        as [Hlt|Hge]; [done|].
      by destruct (issue_at_threshold_not_insufficient b name nonce who now ttl env
                     s2 q2 Hreq2 Hge).
    + intros sec Hdone. by eapply issue_done_threshold.
    + intros Hwho [cfg Hcfg] [r' Hr'] Hdown Hnote Hput Hdel. split.
      * intros [sec Hdone]. by eapply issue_done_threshold.
      * intros Hge. eapply issue_goes_through; try done.
        by rewrite Hwho, Hopener, Hrid.
Qed.

(** The scenario, evaluated. *)
Lemma scenario_facts :
  role newBackend scenario_store "k8s-admin" = Ok (Some sample_role)
  /\ (exists q0, scenario_opened = (Done q0, scenario_opened.2))
  /\ scenario_run = (scenario_run.1, ["gd40qy"; "gd40qy"; "bc12po"])
  /\ match request newBackend scenario_run.1 "k8s-admin" "n-1" with
     | Ok (Some q) => ExpiresAt q = 40 + 3600 * Second
     | _ => False
     end
  /\ config newBackend scenario_run.1 = Ok (Some sample_config)
  /\ role newBackend scenario_run.1 "k8s-admin" = Ok (Some sample_role)
  /\ fail_put scenario_run.1 = false
  /\ fail_delete scenario_run.1 = false.
Proof.
  split; [vm_compute; reflexivity|].
  split; [vm_compute; eexists; reflexivity|].
  split; [vm_compute; reflexivity|].
  split; [vm_compute; reflexivity|].
  split; [vm_compute; reflexivity|].
  split; [vm_compute; reflexivity|].
  split; vm_compute; reflexivity.
Qed.

Lemma issue_needs_k_distinct_approvals_witness :
  role newBackend scenario_store "k8s-admin" = Ok (Some sample_role)
  /\ scenario_run.2 = ["gd40qy"; "gd40qy"; "bc12po"]
  /\ exists sec,
      (issueSecret newBackend "k8s-admin" "n-1" alice 50 3600 downstream_ok
                   scenario_run.1).1 = Done sec.
Proof.
  destruct scenario_facts
    as (Hrole & [q0 Hopen] & Hrun & Hlive & Hcfg & Hrole2 & Hput & Hdel).
  split; [exact Hrole|]. split; [rewrite Hrun; reflexivity|].
  destruct (issue_needs_k_distinct_approvals newBackend scenario_store
              scenario_opened.2 scenario_run.1
              "k8s-admin" "n-1" sample_role alice 0 q0 scenario_calls
              ["gd40qy"; "gd40qy"; "bc12po"] Hrole Hopen Hrun)
    as (q2 & Hreq & _ & _ & _ & _ & Hissue).
  rewrite Hreq in Hlive.
  destruct (Hissue alice 50 3600 downstream_ok) as (_ & _ & _ & Hiff).
  { rewrite Hlive. vm_compute. discriminate. }
  apply Hiff.
  - reflexivity.
  - exists sample_config. exact Hcfg.
  - exists sample_role. exact Hrole2.
  - discriminate.
  - reflexivity.
  - exact Hput.
  - exact Hdel.
  - vm_compute. discriminate.
Defined.

End WorkflowSpec.

(** ** Keys: which sub-keys share an entry *)
Module KeySpec.
Import GoStrings GoPath Logical Names KeyFacts StoreFacts.
Import Accessor (atomicStorageAccessor, storage_key).

Lemma plain_no_slash es :
  Forall plain es -> Forall (fun x => has_slash x = false) es.
Proof. intros H. eapply Forall_impl; [exact H|]. by intros ? (_ & _ & _ & ?). Qed.

Lemma join_slash_inj es es' :
  es <> [] -> es' <> [] -> Forall plain es -> Forall plain es' ->
  join_slash es = join_slash es' -> es = es'.
Proof.
  intros Hne Hne' Hp Hp' Heq.
  rewrite <- (split_join es), <- (split_join es'), Heq;
    auto using plain_no_slash.
Qed.

Lemma Forall_plain_lower ks : Forall plain ks -> Forall plain (ToLower <$> ks).
Proof.
  induction 1 as [|k ks Hk _ IH]; [constructor|].
  rewrite fmap_cons. constructor; [by apply plain_ToLower|done].
Qed.

Lemma storage_key_inj p p' ks ks' :
  plain p -> plain p' -> Forall plain ks -> Forall plain ks' ->
  storage_key {| Accessor.path := p |} ks = storage_key {| Accessor.path := p' |} ks'
  <-> p = p' /\ ToLower <$> ks = ToLower <$> ks'.
Proof.
  intros Hp Hp' Hks Hks'. rewrite !storage_key_plain by done. split.
  - intros Heq. apply join_slash_inj in Heq; try done.
    + by injection Heq.
    + constructor; [done|by apply Forall_plain_lower].
    + constructor; [done|by apply Forall_plain_lower].
  - by intros [-> ->].
Qed.

(** X1. Keys of the accessors are shared exactly by sub-key sequences that
    are equal up to letter case, within one namespace: for plain namespace
    paths and plain sub-keys, two accessor keys are equal if and only if the
    namespaces are the same and the lower-cased sub-keys are the same. In
    particular entries of different namespaces, roles or nonces never
    overwrite each other. *)
Theorem storage_key_injective (p p' : string) (ks ks' : list string)
        (Hp : plain p) (Hp' : plain p')
        (Hks : Forall plain ks) (Hks' : Forall plain ks') :
  storage_key {| Accessor.path := p |} ks = storage_key {| Accessor.path := p' |} ks'
  <-> p = p' /\ ToLower <$> ks = ToLower <$> ks'.
Proof. by apply storage_key_inj. Qed.

Lemma storage_key_injective_witness :
  plain "request" /\ plain "issue" /\ Forall plain ["K8s-Admin"; "N1"]
  /\ storage_key {| Accessor.path := "request" |} ["K8s-Admin"; "N1"]
     <> storage_key {| Accessor.path := "issue" |} ["K8s-Admin"; "N1"].
Proof.
  assert (P1 : plain "request") by (repeat split; done).
  assert (P2 : plain "issue") by (repeat split; done).
  assert (P3 : Forall plain ["K8s-Admin"; "N1"]).
  { constructor; [repeat split; done|]. constructor; [repeat split; done|constructor]. }
  split; [done|]. split; [done|]. split; [done|].
  intros Heq.
  apply (proj1 (storage_key_injective "request" "issue" _ _ P1 P2 P3 P3)) in Heq.
  destruct Heq as [Heq _]. discriminate Heq.
Defined.

End KeySpec.

(** ** The accessor: put, delete, get and list together *)
Module AccessorOpsSpec.
Import GoStrings GoPath Logical Entries Names KeyFacts StoreFacts KeySpec.
Import Accessor (atomicStorageAccessor, storage_key).

Lemma HasPrefix_split k p :
  HasPrefix k p = true -> k = p +:+ drop_bytes (String.length p) k.
Proof.
  revert k. induction p as [|c p IH]; intros k; simpl; [done|].
  destruct k as [|a k]; [done|]. intros [Hc Hr]%andb_prop.
  apply Ascii.eqb_eq in Hc. subst a. simpl. f_equal. by apply IH.
Qed.

Lemma has_slash_upto x : has_slash x = true -> has_slash (upto_slash x) = true.
Proof.
  induction x as [|c x IH]; simpl; [done|].
  destruct (Ascii.eqb c "/") eqn:Hc; simpl; [by rewrite Hc|].
  rewrite Hc. simpl. exact IH.
Qed.

(** A name without ['/'] is listed under a prefix only if the key
    [prefix ++ name] holds an entry. *)
Lemma List_only_leaf s prefix x names :
  List s prefix = Ok names -> has_slash x = false -> x ∈ names ->
  is_Some (kv s !! (prefix +:+ x)).
Proof.
  unfold List. destruct (fail_list s); [done|]. intros [= <-] Hx Hin.
  apply elem_of_remove_dups, list_elem_of_fmap in Hin as (key & Hchild & Hkey).
  apply list_elem_of_filter in Hkey as [Hpre Hkey].
  apply list_elem_of_fmap in Hkey as ([k v] & -> & Hkv). simpl in *.
  apply elem_of_map_to_list in Hkv.
  unfold child_of, TrimPrefix in Hchild. rewrite Hpre in Hchild.
  destruct (has_slash (drop_bytes _ k)) eqn:Hs.
  - subst x. by rewrite (has_slash_upto _ Hs) in Hx.
  - subst x. rewrite <- (HasPrefix_split k prefix Hpre). by eexists.
Qed.

(** X2. An entry put under (role, nonce) and then deleted is gone: [get]
    under the pair returns nil and [list] under the role no longer names the
    nonce; and the two writes leave every entry of another (role, nonce)
    pair, other up to letter case, as it was before. The store is taken to
    answer; the namespace path, roles and nonces are plain names. *)
Theorem put_delete_leaves_no_trace `{JSON A}
        (a : atomicStorageAccessor) (s : Storage) (v : A) (doc : json)
        (r n : string)
        (Hdoc : marshal v = Some doc)
        (Hput : fail_put s = false) (Hdel : fail_delete s = false)
        (Hget : fail_get s = false) (Hlist : fail_list s = false)
        (Hpath : plain (Accessor.path a)) (Hr : plain r) (Hn : plain n) :
  let s1 := (Accessor.put a s v [r; n]).2 in
  let s2 := (Accessor.delete a s1 [r; n]).2 in
  Accessor.get a s2 [r; n] = Ok None
  /\ (exists names, Accessor.list a s2 [r] = Ok names /\ ToLower n ∉ names)
  /\ (forall r' n',
        plain r' -> plain n' ->
        (ToLower r', ToLower n') <> (ToLower r, ToLower n) ->
        Accessor.get a s2 [r'; n'] = Accessor.get a s [r'; n']).
Proof.
  intros s1 s2. destruct a as [p]. simpl in Hpath.
  set (key := storage_key {| Accessor.path := p |} [r; n]).
  assert (Hs1 : s1 = with_kv s (<[key := doc]> (kv s))).
  { subst s1. unfold Accessor.put, StorageEntryJSON. rewrite Hdoc.
    unfold Put. by rewrite Hput. }
  assert (Hs2 : s2 = with_kv s (delete key (<[key := doc]> (kv s)))).
  { subst s2. rewrite Hs1. unfold Accessor.delete, Delete. simpl. by rewrite Hdel. }
  assert (Hkey : key = ((p +:+ "/" +:+ ToLower r) +:+ "/") +:+ ToLower n).
  { subst key. rewrite storage_key_plain; [|done|].
    - simpl. by rewrite !append_assoc.
    - constructor; [done|constructor; [done|constructor]]. }
  assert (Hpre : storage_key {| Accessor.path := p |} [r] = p +:+ "/" +:+ ToLower r).
  { rewrite storage_key_plain; [done|done|]. constructor; [done|constructor]. }
  rewrite Hs2. split; [|split].
  - unfold Accessor.get, Get. fold key. simpl. by rewrite Hget, lookup_delete_eq.
  - unfold Accessor.list. rewrite Hpre.
    destruct (List (with_kv s (delete key (<[key:=doc]> (kv s))))
                   ((p +:+ "/" +:+ ToLower r) +:+ "/")) as [names|e] eqn:HL.
    + exists names. split; [done|]. intros Hin.
      eapply List_only_leaf in Hin; [|exact HL|].
      * rewrite <- Hkey in Hin. simpl in Hin. rewrite lookup_delete_eq in Hin.
        by destruct Hin.
      * rewrite has_slash_ToLower. by destruct Hn as (_ & _ & _ & ?).
    + unfold List in HL. simpl in HL. by rewrite Hlist in HL.
  - intros r' n' Hr' Hn' Hne. unfold Accessor.get, Get. simpl.
    destruct (fail_get s); [done|].
    assert (Hk : storage_key {| Accessor.path := p |} [r'; n'] <> key).
    { subst key. intros Heq. apply storage_key_inj in Heq as [_ Heq]; try done.
      - apply Hne. by injection Heq as -> ->.
      - constructor; [done|constructor; [done|constructor]].
      - constructor; [done|constructor; [done|constructor]]. }
    by rewrite lookup_delete_ne, lookup_insert_ne.
Qed.

Lemma put_delete_leaves_no_trace_witness :
  let a := Accessor.newAtomicStorageAccessor "issue" in
  let s := healthy {[ "issue/k8s-admin/n2" := JNull ]} in
  let s2 := (Accessor.delete a (Accessor.put a s zeroRole ["k8s-admin"; "N1"]).2
                             ["k8s-admin"; "N1"]).2 in
  Accessor.get a s2 ["k8s-admin"; "N1"] = Ok None
  /\ Accessor.get a s2 ["k8s-admin"; "n2"] = Accessor.get a s ["k8s-admin"; "n2"].
Proof.
  intros a s s2.
  assert (P1 : plain "issue") by (repeat split; done).
  assert (P2 : plain "k8s-admin") by (repeat split; done).
  assert (P3 : plain "N1") by (repeat split; done).
  assert (P4 : plain "n2") by (repeat split; done).
  assert (Hm : marshal zeroRole = Some (role_to_json zeroRole)) by reflexivity.
  destruct (put_delete_leaves_no_trace a s zeroRole (role_to_json zeroRole)
              "k8s-admin" "N1" Hm eq_refl eq_refl eq_refl eq_refl P1 P2 P3)
    as (Hgone & _ & Hframe).
  split; [exact Hgone|]. apply Hframe; [exact P2|exact P4|discriminate].
Defined.

End AccessorOpsSpec.

(** ** Roles: written, read, listed, deleted *)
Module RoleLifecycleSpec.
Import GoStrings GoPath Logical Entries Names KeyFacts StoreFacts Backend RoleRules.
Import Samples RolePaths KeySpec AccessorOpsSpec.
Import RoleRegistrySpec (role_json_roundtrip, accepted_write, role_load_healthy,
                         role_key, seconds_exact).
Import Accessor (storage_key).

(** X3. What [roleAccessor.put] writes, [role] reads back, under the name or
    a case variant of it; a name with no entry reads as nil; and an entry
    that does not decode as a role is an error, not a role. *)
Theorem role_put_then_read (b : backend) (s : Storage) (r : roleStorageEntry)
        (name name' : string) (doc : json)
        (Hcase : eq_fold name name' = true)
        (Hput : fail_put s = false) (Hget : fail_get s = false) :
  role b (Accessor.put (roleAccessor b) s r [name]).2 name' = Ok (Some r)
  /\ (kv s !! storage_key (roleAccessor b) [name] = None ->
      role b s name = Ok None)
  /\ (kv s !! storage_key (roleAccessor b) [name] = Some doc ->
      role_of_json doc = None ->
      role b s name = Err (ErrJSON (storage_key (roleAccessor b) [name]))).
Proof.
  split; [|split].
  - unfold role, load, Accessor.get, Accessor.put, StorageEntryJSON.
    simpl marshal. cbv iota beta. unfold Put, Get. rewrite Hput.
    cbn [fst snd Key Value fail_get with_kv kv]. rewrite Hget.
    rewrite <- (storage_key_fold (roleAccessor b) [name] [name'])
      by (constructor; [done|constructor]).
    rewrite lookup_insert_eq. cbn [fmap option_fmap option_map Value Key].
    change (unmarshal (role_to_json r)) with (role_of_json (role_to_json r)).
    by rewrite role_json_roundtrip.
  - intros Habs. unfold role, load, Accessor.get, Get. by rewrite Hget, Habs.
  - intros Hdoc Hbad. unfold role, load, Accessor.get, Get. rewrite Hget, Hdoc.
    cbn [fmap option_fmap option_map Value Key]. change (unmarshal doc) with (role_of_json doc). by rewrite Hbad.
Qed.

Lemma role_put_then_read_witness :
  role newBackend
       (Accessor.put (roleAccessor newBackend) (healthy ∅) sample_role ["K8s-Admin"]).2
       "k8s-ADMIN" = Ok (Some sample_role).
Proof.
  exact (proj1 (role_put_then_read newBackend (healthy ∅) sample_role
                  "K8s-Admin" "k8s-ADMIN" JNull eq_refl eq_refl eq_refl)).
Defined.

Lemma whole_seconds_exact n :
  0 <= n <= 9223372036 -> whole_seconds (seconds n) = n.
Proof.
  intros Hn. rewrite seconds_exact by done. unfold whole_seconds, Second.
  apply Z.quot_mul. done.
Qed.

Lemma role_data_fields name r :
  role_data name r !! "name" = Some (JStr name)
  /\ role_data name r !! "secret_path" = Some (JStr (SecretPath r))
  /\ role_data name r !! "secret_path_method" = Some (JStr (SecretPathMethod r))
  /\ role_data name r !! "secret_ttl" = Some (JNum (whole_seconds (SecretTTL r)))
  /\ role_data name r !! "secret_max_ttl"
     = Some (JNum (whole_seconds (SecretMaxTTL r)))
  /\ role_data name r !! "min_approvers" = Some (JNum (MinApprovers r))
  /\ role_data name r !! "bound_approver_ids"
     = Some (enc_strings (BoundApproverIDs r))
  /\ role_data name r !! "notify_slack_channels" = None.
Proof. repeat split; reflexivity. Qed.

(** X4. A role that was written is read back by [pathRoleRead]: the response
    shows the path, method and threshold the role was stored with, the TTL
    that was sent, in whole seconds, and the stored max TTL in whole seconds;
    it has no [notify_slack_channels] entry and no error. *)
Theorem role_read_after_write (b : backend) (sys : SystemView) (op : Operation)
        (d : FieldData) (s : Storage) (found : option roleStorageEntry)
        (Hload : role b s (fd_name d) = Ok found)
        (Haccepted : rejected op (default zeroRole found) d = false)
        (Hstore : fail_put s = false) :
  let old := default zeroRole found in
  let s' := (pathRoleCreateUpdate b sys op d s).2 in
  exists resp,
    pathRoleRead b (fd_name d) s' = (Some resp, None)
    /\ IsError (Some resp) = false
    /\ Data resp !! "name" = Some (JStr (fd_name d))
    /\ Data resp !! "secret_path" = Some (JStr (default "" (fd_secret_path d)))
    /\ Data resp !! "secret_path_method" = Some (JStr (eff_method old d))
    /\ Data resp !! "min_approvers" = Some (JNum (eff_min_approvers old d))
    /\ (forall n, fd_secret_ttl d = Some n -> 0 <= n <= 9223372036 ->
                  Data resp !! "secret_ttl" = Some (JNum n))
    /\ Data resp !! "secret_max_ttl"
       = Some (JNum (whole_seconds (Z.min (eff_max_ttl op old d) (MaxLeaseTTL sys))))
    /\ Data resp !! "notify_slack_channels" = None.
Proof.
  intros old s'.
  destruct (accepted_write b sys op d s found Hload Haccepted Hstore) as [_ Hread].
  fold s' in Hread. fold old in Hread.
  unfold pathRoleRead. rewrite Hread. eexists. split; [done|].
  destruct (role_data_fields (fd_name d) (stored_role sys op old d))
    as (H1 & H2 & H3 & H4 & H5 & H6 & _ & H8).
  split; [reflexivity|]. cbn [Data].
  split; [done|]. split; [done|]. split; [done|]. split; [done|].
  split; [|split; [|done]].
  - intros n Hn Hrange. rewrite H4. cbn [stored_role SecretTTL].
    unfold eff_ttl. rewrite Hn. by rewrite whole_seconds_exact.
  - rewrite H5. cbn [stored_role SecretMaxTTL]. do 3 f_equal.
    destruct (MaxLeaseTTL sys <? eff_max_ttl op old d) eqn:E.
    + apply Z.ltb_lt in E. lia.
    + apply Z.ltb_ge in E. lia.
Qed.

Lemma role_read_after_write_witness :
  let d := sample_fields (Some "POST") None (Some 172800) in
  exists resp,
    pathRoleRead newBackend "k8s-admin"
      (pathRoleCreateUpdate newBackend day CreateOperation d (healthy ∅)).2
    = (Some resp, None)
    /\ Data resp !! "secret_max_ttl" = Some (JNum 86400).
Proof.
  intros d.
  assert (Hload : role newBackend (healthy ∅) (fd_name d) = Ok None) by reflexivity.
  assert (Hacc : rejected CreateOperation (default zeroRole None) d = false)
    by reflexivity.
  destruct (role_read_after_write newBackend day CreateOperation d (healthy ∅) None
              Hload Hacc eq_refl)
    as (resp & Hread & _ & _ & _ & _ & _ & _ & Hmax & _).
  exists resp. split; [exact Hread|]. rewrite Hmax. reflexivity.
Defined.

Lemma role_list_key b :
  roleAccessor b = Accessor.newAtomicStorageAccessor "role" ->
  storage_key (roleAccessor b) [""] = "role".
Proof. by intros ->. Qed.

(** X5. The life of a role under a name the route accepts, on a store that
    answers: once written, the existence check says yes and the role list
    names it (in lower case); once deleted, the existence check says no, the
    list no longer names it, and reading it is a 404 ("no role found"). *)
Theorem role_lifecycle (sys : SystemView) (op : Operation)
        (d : FieldData) (s : Storage) (found : option roleStorageEntry)
        (Hname : generic_name (fd_name d) = true)
        (Hload : role newBackend s (fd_name d) = Ok found)
        (Haccepted : rejected op (default zeroRole found) d = false)
        (Hput : fail_put s = false) (Hdel : fail_delete s = false)
        (Hlist : fail_list s = false) :
  let name := fd_name d in
  let s1 := (pathRoleCreateUpdate newBackend sys op d s).2 in
  let s2 := (pathRoleDelete newBackend name s1).2 in
  pathRoleExistenceCheck newBackend name s1 = Ok true
  /\ (exists names, pathRoleList newBackend s1 = Ok names /\ ToLower name ∈ names)
  /\ pathRoleDelete newBackend name s1 = ((None, None), s2)
  /\ pathRoleExistenceCheck newBackend name s2 = Ok false
  /\ (exists names, pathRoleList newBackend s2 = Ok names /\ ToLower name ∉ names)
  /\ pathRoleRead newBackend name s2 = (None, Some errNoRole).
Proof.
  intros name s1 s2.
  pose proof (role_load_healthy _ _ _ _ Hload) as Hget.
  destruct (accepted_write newBackend sys op d s found Hload Haccepted Hput)
    as [Hout Hread].
  fold s1 in Hread. fold name in Hread.
  set (stored := stored_role sys op (default zeroRole found) d) in *.
  assert (Hkey : storage_key (roleAccessor newBackend) [name] = "role/" +:+ ToLower name)
    by (by apply role_key).
  assert (Hs1 : s1 = with_kv s (<["role/" +:+ ToLower name := role_to_json stored]> (kv s))).
  { subst s1. rewrite Hout. cbn [snd]. fold name. by rewrite Hkey. }
  assert (Hnoslash : has_slash (ToLower name) = false).
  { rewrite has_slash_ToLower. by destruct (generic_name_plain _ Hname) as (_ & _ & _ & ?). }
  assert (Hs2 : s2 = with_kv s (delete ("role/" +:+ ToLower name)
                                 (<["role/" +:+ ToLower name := role_to_json stored]> (kv s)))).
  { subst s2. unfold pathRoleDelete, Accessor.delete. rewrite Hkey, Hs1.
    unfold Delete. simpl. by rewrite Hdel. }
  split; [|split; [|split; [|split; [|split]]]].
  - unfold pathRoleExistenceCheck. by rewrite Hread.
  - unfold pathRoleList, Accessor.list. rewrite (role_list_key newBackend eq_refl).
    destruct (List_leaf s1 "role/" (ToLower name) (role_to_json stored))
      as (names & HL & Hin); try done.
    + by rewrite Hs1.
    + rewrite Hs1. simpl. apply lookup_insert_eq.
    + by exists names.
  - unfold pathRoleDelete, Accessor.delete. rewrite Hkey.
    fold (pathRoleDelete newBackend name s1).
    unfold s2, pathRoleDelete, Accessor.delete. rewrite Hkey.
    unfold Delete. rewrite Hs1. simpl. by rewrite Hdel.
  - unfold pathRoleExistenceCheck, role, load, Accessor.get, Get.
    rewrite Hkey, Hs2. simpl. by rewrite Hget, lookup_delete_eq.
  - unfold pathRoleList, Accessor.list. rewrite (role_list_key newBackend eq_refl).
    destruct (List s2 ("role" +:+ "/")) as [names|e] eqn:HL.
    + exists names. split; [done|]. intros Hin.
      eapply List_only_leaf in Hin; [|exact HL|exact Hnoslash].
      rewrite Hs2 in Hin. simpl in Hin. rewrite lookup_delete_eq in Hin.
      by destruct Hin.
    + unfold List in HL. rewrite Hs2 in HL. simpl in HL. by rewrite Hlist in HL.
  - unfold pathRoleRead, role, load, Accessor.get, Get.
    rewrite Hkey, Hs2. simpl. by rewrite Hget, lookup_delete_eq.
Qed.

Lemma role_lifecycle_witness :
  let d := sample_fields (Some "POST") None None in
  let s1 := (pathRoleCreateUpdate newBackend day CreateOperation d (healthy ∅)).2 in
  pathRoleExistenceCheck newBackend "k8s-admin" s1 = Ok true
  /\ pathRoleRead newBackend "k8s-admin" (pathRoleDelete newBackend "k8s-admin" s1).2
     = (None, Some errNoRole).
Proof.
  intros d s1.
  assert (Hload : role newBackend (healthy ∅) (fd_name d) = Ok None) by reflexivity.
  assert (Hacc : rejected CreateOperation (default zeroRole None) d = false)
    by reflexivity.
  destruct (role_lifecycle day CreateOperation d (healthy ∅) None
              eq_refl Hload Hacc eq_refl eq_refl eq_refl)
    as (H1 & _ & _ & _ & _ & H6).
  split; [exact H1|exact H6].
Defined.

End RoleLifecycleSpec.

(** ** What every stored role satisfies *)
Module RoleInvariantSpec.
Import GoStrings GoPath Logical Entries Names KeyFacts StoreFacts Backend RoleRules.
Import Samples RolePaths RoleOps.
Import RoleRegistrySpec (role_json_roundtrip, accepted_write, role_load_healthy,
                         createUpdate_cases, stored_response_not_error).
Import Accessor (storage_key).

Lemma stored_role_well_formed sys op old d :
  rejected op old d = false -> well_formed sys (stored_role sys op old d) = true.
Proof.
  unfold rejected, bad_method, data_with_get, bad_min_approvers, well_formed.
  intros H.
  apply orb_false_elim in H as [H Hmin].
  apply orb_false_elim in H as [H _].
  apply orb_false_elim in H as [Hm Hd].
  cbn [stored_role SecretPathMethod MinApprovers SecretData SecretMaxTTL].
  destruct (String.eqb (eff_method old d) "POST"),
           (String.eqb (eff_method old d) "GET"),
           (non_nil (eff_data d)); try discriminate; simpl;
  (replace (1 <=? eff_min_approvers old d) with true
     by (symmetry; apply Z.leb_le; apply Z.ltb_ge in Hmin; lia));
  simpl; apply Z.leb_le;
  destruct (MaxLeaseTTL sys <? eff_max_ttl op old d) eqn:E;
  (apply Z.ltb_lt in E || apply Z.ltb_ge in E); lia.
Qed.

(** The store after a write is the store before, or has the checked role
    under the role's key. *)
Lemma write_store b sys op d s :
  (pathRoleCreateUpdate b sys op d s).2 = s
  \/ exists old,
       rejected op old d = false
       /\ (pathRoleCreateUpdate b sys op d s).2
          = with_kv s (<[storage_key (roleAccessor b) [fd_name d]
                         := role_to_json (stored_role sys op old d)]> (kv s)).
Proof.
  destruct (role b s (fd_name d)) as [found|e] eqn:Hload.
  - rewrite (createUpdate_cases b sys op d s found Hload).
    set (old := default zeroRole found).
    destruct (bad_method old d) eqn:E1; [by left|].
    destruct (data_with_get old d) eqn:E2; [by left|].
    destruct (ttl_above_max op old d) eqn:E3; [by left|].
    destruct (bad_min_approvers old d) eqn:E4; [by left|].
    unfold Accessor.put, StorageEntryJSON.
    change (marshal (stored_role sys op old d))
      with (Some (role_to_json (stored_role sys op old d))).
    cbv iota beta. unfold Put.
    destruct (fail_put s); [by left|].
    right. exists old. split; [|done].
    unfold rejected. by rewrite E1, E2, E3, E4.
  - left. unfold pathRoleCreateUpdate. by rewrite Hload.
Qed.

Lemma serve_keeps b sys s c name r :
  (forall name r, role b s name = Ok (Some r) -> well_formed sys r = true) ->
  role b (serve b sys s c) name = Ok (Some r) -> well_formed sys r = true.
Proof.
  intros Hinv. destruct c as [op d|n]; simpl.
  - destruct (write_store b sys op d s) as [->|(old & Hacc & ->)]; [apply Hinv|].
    unfold role, load, Accessor.get, Get. cbn [fail_get with_kv kv].
    intros Hr.
    destruct (decide (storage_key (roleAccessor b) [name]
                      = storage_key (roleAccessor b) [fd_name d])) as [Heq|Hne].
    + rewrite Heq, lookup_insert_eq in Hr.
      destruct (fail_get s); [done|].
      cbn [fmap option_fmap option_map Value Key] in Hr.
      change (unmarshal (role_to_json (stored_role sys op old d)))
        with (role_of_json (role_to_json (stored_role sys op old d))) in Hr.
      rewrite role_json_roundtrip in Hr. injection Hr as <-.
      by apply stored_role_well_formed.
    + rewrite lookup_insert_ne in Hr by done.
      apply (Hinv name). by unfold role, load, Accessor.get, Get.
  - unfold pathRoleDelete, Accessor.delete, Delete.
    destruct (fail_delete s); [apply Hinv|]. cbn [snd].
    unfold role, load, Accessor.get, Get. cbn [fail_get with_kv kv].
    intros Hr.
    destruct (decide (storage_key (roleAccessor b) [name]
                      = storage_key (roleAccessor b) [n])) as [Heq|Hne].
    + rewrite Heq, lookup_delete_eq in Hr. by destruct (fail_get s).
    + rewrite lookup_delete_ne in Hr by done.
      apply (Hinv name). by unfold role, load, Accessor.get, Get.
Qed.

(** X6. No sequence of writes and deletes on the role path, accepted or
    refused, on a store that fails or not, leaves a role that breaks the
    path's checks: if every role that can be read is well formed before
    (method GET or POST, min_approvers at least 1, no request data with GET,
    max TTL within the mount's), every role that can be read after is. *)
Theorem role_path_keeps_roles_well_formed (b : backend) (sys : SystemView)
        (calls : list role_call) (s : Storage)
        (Hbefore : forall name r, role b s name = Ok (Some r) ->
                                  well_formed sys r = true) :
  forall name r, role b (serve_all b sys calls s) name = Ok (Some r) ->
                 well_formed sys r = true.
Proof.
  unfold serve_all. revert s Hbefore.
  induction calls as [|c calls IH]; intros s Hbefore; simpl; [done|].
  apply IH. intros name r. by apply serve_keeps.
Qed.

Lemma role_path_keeps_roles_well_formed_witness :
  let r := stored_role day CreateOperation zeroRole three_approvers in
  role newBackend
    (serve_all newBackend day
       [WriteRole CreateOperation three_approvers;
        WriteRole UpdateOperation no_approvers]
       (healthy ∅)) "K8S-Admin" = Ok (Some r)
  /\ MinApprovers r = 3 /\ well_formed day r = true.
Proof.
  intros r.
  assert (Hread : role newBackend
            (serve_all newBackend day
               [WriteRole CreateOperation three_approvers;
                WriteRole UpdateOperation no_approvers]
               (healthy ∅)) "K8S-Admin" = Ok (Some r))
    by (vm_compute; reflexivity).
  split; [exact Hread|]. split; [reflexivity|].
  refine (role_path_keeps_roles_well_formed newBackend day
            [WriteRole CreateOperation three_approvers;
             WriteRole UpdateOperation no_approvers] (healthy ∅) _
            "K8S-Admin" r Hread).
  intros name r0 H. unfold role, load, Accessor.get, Get in H.
  cbn [healthy fail_get kv] in H. rewrite lookup_empty in H. discriminate.
Defined.

Lemma with_kv_twice s m m' : with_kv (with_kv s m) m' = with_kv s m'.
Proof. done. Qed.

(** X7. Sending an accepted role definition again changes nothing: when the
    first request is accepted and written, and max TTL was sent or is within
    the mount's, the same fields sent again (an update, since the role now
    exists) are accepted with the same answer and leave the store as the
    first request left it. *)
Theorem role_write_idempotent (b : backend) (sys : SystemView) (op : Operation)
        (d : FieldData) (s : Storage) (found : option roleStorageEntry)
        (Hload : role b s (fd_name d) = Ok found)
        (Haccepted : rejected op (default zeroRole found) d = false)
        (Hstore : fail_put s = false)
        (Hmax : is_Some (fd_secret_max_ttl d)
                \/ eff_max_ttl op (default zeroRole found) d <= MaxLeaseTTL sys) :
  let s1 := (pathRoleCreateUpdate b sys op d s).2 in
  pathRoleCreateUpdate b sys UpdateOperation d s1
  = ((stored_response sys op (default zeroRole found) d, None), s1).
Proof.
  intros s1. set (old := default zeroRole found) in *.
  destruct (accepted_write b sys op d s found Hload Haccepted Hstore) as [Hout Hread].
  fold s1 in Hread. fold old in Hread, Hout.
  set (stored := stored_role sys op old d) in *.
  assert (Hs1 : s1 = with_kv s (<[storage_key (roleAccessor b) [fd_name d]
                                  := role_to_json stored]> (kv s))).
  { subst s1. by rewrite Hout. }
  unfold rejected, bad_method, data_with_get, ttl_above_max, bad_min_approvers
    in Haccepted.
  apply orb_false_elim in Haccepted as [H Hmin].
  apply orb_false_elim in H as [H Httl].
  apply orb_false_elim in H as [Hm Hd].
  assert (Emethod : eff_method stored d = eff_method old d).
  { unfold eff_method. destruct (fd_secret_path_method d) as [m|] eqn:Em; [done|].
    cbn [stored stored_role SecretPathMethod]. unfold eff_method. rewrite Em.
    destruct (String.eqb (SecretPathMethod old) "") eqn:E0; [done|].
    by rewrite E0. }
  assert (Emin : eff_min_approvers stored d = eff_min_approvers old d).
  { unfold eff_min_approvers at 1. destruct (fd_min_approvers d) as [k|] eqn:Ek.
    - unfold eff_min_approvers. by rewrite Ek.
    - cbn [stored stored_role MinApprovers].
      apply Z.ltb_ge in Hmin.
      destruct (eff_min_approvers old d =? 0) eqn:E0; [apply Z.eqb_eq in E0; lia|done]. }
  assert (Ettl : eff_ttl UpdateOperation stored d = eff_ttl op old d).
  { unfold eff_ttl at 1. destruct (fd_secret_ttl d) as [t|] eqn:Et.
    - unfold eff_ttl. by rewrite Et.
    - done. }
  assert (Emax : eff_max_ttl UpdateOperation stored d = eff_max_ttl op old d).
  { unfold eff_max_ttl at 1. destruct (fd_secret_max_ttl d) as [t|] eqn:Et.
    - unfold eff_max_ttl. by rewrite Et.
    - cbn [stored stored_role SecretMaxTTL].
      destruct Hmax as [[? ?]|Hle]; [done|].
      destruct (MaxLeaseTTL sys <? eff_max_ttl op old d) eqn:E;
        [apply Z.ltb_lt in E; lia|done]. }
  assert (Hrole : stored_role sys UpdateOperation stored d = stored).
  { unfold stored_role at 1. rewrite Emethod, Emin, Ettl, Emax.
    clear -old. subst stored. unfold stored_role.
    cbn [SecretType SecretEnvironment SecretAWSStateRole
         SecretRequiredFields BoundRequesterIDs BoundRequesterRoles
         BoundApproverIDs BoundApproverRoles NotifySlackChannels].
    f_equal; try reflexivity;
      match goal with |- default _ ?x = _ => by destruct x end. }
  assert (Hacc2 : rejected UpdateOperation (default zeroRole (Some stored)) d = false).
  { change (default zeroRole (Some stored)) with stored.
    unfold rejected, bad_method, data_with_get, ttl_above_max, bad_min_approvers.
    by rewrite Emethod, Emin, Ettl, Emax, Hm, Hd, Httl, Hmin. }
  assert (Hput1 : fail_put s1 = false) by (by rewrite Hs1).
  destruct (accepted_write b sys UpdateOperation d s1 (Some stored) Hread Hacc2 Hput1)
    as [Hout2 _].
  rewrite Hout2. change (default zeroRole (Some stored)) with stored.
  rewrite Hrole. f_equal.
  - f_equal. unfold stored_response. by rewrite Emax.
  - rewrite Hs1. rewrite with_kv_twice. cbn [kv with_kv]. by rewrite insert_insert_eq.
Qed.

Lemma role_write_idempotent_witness :
  let s1 := (pathRoleCreateUpdate newBackend day CreateOperation three_approvers
               (healthy ∅)).2 in
  pathRoleCreateUpdate newBackend day UpdateOperation three_approvers s1
  = ((None, None), s1).
Proof.
  intros s1.
  assert (Hload : role newBackend (healthy ∅) (fd_name three_approvers) = Ok None)
    by reflexivity.
  assert (Hacc : rejected CreateOperation (default zeroRole None) three_approvers = false)
    by reflexivity.
  assert (Hmax : is_Some (fd_secret_max_ttl three_approvers)
                 \/ eff_max_ttl CreateOperation (default zeroRole None) three_approvers
                    <= MaxLeaseTTL day)
    by (right; vm_compute; discriminate).
  exact (role_write_idempotent newBackend day CreateOperation three_approvers
           (healthy ∅) None Hload Hacc eq_refl Hmax).
Defined.

(** X19. The role path never changes the store on a write it reports as
    failed: whenever [pathRoleCreateUpdate] returns a Go error (the stored
    role cannot be read or decoded, the store refuses the write) or an error
    response, the store is exactly as it was before. *)
Theorem role_write_failure_stores_nothing (b : backend) (sys : SystemView)
        (op : Operation) (d : FieldData) (s : Storage) :
  let out := pathRoleCreateUpdate b sys op d s in
  out.1.2 <> None \/ IsError out.1.1 = true -> out.2 = s.
Proof.
  intros out Hfailed. subst out.
  destruct (role b s (fd_name d)) as [found|e] eqn:Hload.
  - rewrite (createUpdate_cases b sys op d s found Hload) in *.
    set (old := default zeroRole found) in *.
    destruct (bad_method old d); [done|].
    destruct (data_with_get old d); [done|].
    destruct (ttl_above_max op old d); [done|].
    destruct (bad_min_approvers old d); [done|].
    unfold Accessor.put, StorageEntryJSON in *.
    change (marshal (stored_role sys op old d))
      with (Some (role_to_json (stored_role sys op old d))) in *.
    cbv iota beta in *. unfold Put in *.
    destruct (fail_put s); [done|]. cbn [fst snd] in Hfailed.
    destruct Hfailed as [H|H]; [done|].
    by rewrite stored_response_not_error in H.
  - unfold pathRoleCreateUpdate. by rewrite Hload.
Qed.

Lemma role_write_failure_stores_nothing_witness :
  let s := healthy {[ "role/k8s-admin" := role_to_json sample_role ]} in
  (pathRoleCreateUpdate newBackend day UpdateOperation no_approvers s).2 = s.
Proof.
  intros s.
  apply (role_write_failure_stores_nothing newBackend day UpdateOperation
           no_approvers s).
  right. vm_compute. reflexivity.
Defined.

End RoleInvariantSpec.

(** ** Revoking the lease of a request *)
Module RequestHooksSpec.
Import GoStrings GoPath Logical Entries Names KeyFacts StoreFacts Backend.
Import RequestHooks KeySpec.
Import Accessor (storage_key).

Lemma ToLower_app a b : ToLower (a +:+ b) = ToLower a +:+ ToLower b.
Proof. induction a as [|c a IH]; simpl; [done|]. by rewrite IH. Qed.

(** The one sub-key [path.Join(role, nonce)] addresses the entry that the
    two sub-keys [role], [nonce] address. *)
Lemma joined_subkey_key p r n :
  plain p -> plain r -> plain n ->
  storage_key {| Accessor.path := p |} [Join r n]
  = storage_key {| Accessor.path := p |} [r; n].
Proof.
  intros Hp Hr Hn.
  assert (Hl : Forall plain [ToLower r; ToLower n]).
  { constructor; [by apply plain_ToLower|].
    constructor; [by apply plain_ToLower|constructor]. }
  assert (Hrn : Forall plain [r; n])
    by (constructor; [done|constructor; [done|constructor]]).
  assert (Hr1 : Forall plain [r]) by (constructor; [done|constructor]).
  rewrite (storage_key_plain p [r; n]); [|done|done].
  change r with (join_slash [r]) at 1.
  rewrite Join_join; [|done|done|done].
  unfold storage_key. cbn [fold_left Accessor.path app join_slash].
  rewrite !ToLower_app. change (ToLower "/") with "/".
  unfold Join.
  destruct (plain_eqb p Hp) as (-> & _ & _).
  rewrite append_nonempty by (by destruct (plain_ToLower r Hr)).
  change (p +:+ "/" +:+ ToLower r +:+ "/" +:+ ToLower n)
    with (join_slash (p :: [ToLower r; ToLower n])).
  rewrite Clean_join; [done|done|by constructor].
Qed.

(** X8. Revoking the lease of a request, whose lease names its role and
    nonce (plain names), removes the entry that [b.request] reads for that
    role and nonce, although the hook builds its key from the single sub-key
    [path.Join(role, nonce)]; it returns neither a response nor an error,
    leaves every other key alone, and succeeds again when the entry is
    already gone. The store is taken to accept the delete. *)
Theorem request_revoke_removes_request (s : Storage) (secret : Secret)
        (roleName nonce : string)
        (Hname : InternalData secret !! "name" = Some (JStr roleName))
        (Hnonce : InternalData secret !! "nonce" = Some (JStr nonce))
        (Hrole_plain : plain roleName) (Hnonce_plain : plain nonce)
        (Hstore : fail_delete s = false) :
  let r := {| ReqSecret := Some secret |} in
  let key := storage_key (requestAccessor newBackend) [roleName; nonce] in
  exists s',
    secretApprovedSecretRequestRevoke newBackend r s = Returns ((None, None), s')
    /\ Accessor.get (requestAccessor newBackend) s' [roleName; nonce]
       = (if fail_get s then Err (ErrStorage "get" key) else Ok None)
    /\ (forall k, k <> key -> kv s' !! k = kv s !! k)
    /\ secretApprovedSecretRequestRevoke newBackend r s' = Returns ((None, None), s').
Proof.
  intros r key.
  assert (Hp : plain "request") by (by repeat split).
  assert (Hkey : storage_key (requestAccessor newBackend) [Join roleName nonce] = key)
    by (by apply joined_subkey_key).
  assert (Hrun : forall s0, fail_delete s0 = false ->
            secretApprovedSecretRequestRevoke newBackend r s0
            = Returns ((None, None), with_kv s0 (delete key (kv s0)))).
  { intros s0 Hs0. unfold secretApprovedSecretRequestRevoke, r. cbn [ReqSecret].
    rewrite Hname, Hnonce. cbn [is_empty_string assert_string].
    destruct Hrole_plain as [Hr _], Hnonce_plain as [Hn _].
    apply String.eqb_neq in Hr, Hn. rewrite Hr, Hn.
    unfold Accessor.delete. rewrite Hkey. unfold Delete. by rewrite Hs0. }
  exists (with_kv s (delete key (kv s))).
  split; [by apply Hrun|]. split; [|split].
  - unfold Accessor.get, Get. fold key. cbn [fail_get with_kv kv].
    destruct (fail_get s); [done|]. by rewrite lookup_delete_eq.
  - intros k Hk. cbn [kv with_kv]. by rewrite lookup_delete_ne.
  - rewrite Hrun by done. cbn [kv with_kv].
    by rewrite delete_delete_eq.
Qed.

Lemma request_revoke_removes_request_witness :
  let secret := {| LeaseTTL := 3600; Renewable := false;
                   InternalData := {[ "name" := JStr "K8s-Admin";
                                      "nonce" := JStr "N1" ]} |} in
  let s := healthy {[ "request/k8s-admin/n1" := JNull ]} in
  exists s',
    secretApprovedSecretRequestRevoke newBackend {| ReqSecret := Some secret |} s
    = Returns ((None, None), s')
    /\ Accessor.get (requestAccessor newBackend) s' ["K8s-Admin"; "N1"] = Ok None.
Proof.
  intros secret s.
  assert (P1 : plain "K8s-Admin") by (repeat split; done).
  assert (P2 : plain "N1") by (repeat split; done).
  destruct (request_revoke_removes_request s secret "K8s-Admin" "N1"
              eq_refl eq_refl P1 P2 eq_refl) as (s' & H1 & H2 & _).
  exists s'. split; [exact H1|exact H2].
Defined.

End RequestHooksSpec.

(** ** soll-ist over the roles the role path has written *)
Module SollIstSpec.
Import GoStrings GoPath Logical Entries Names KeyFacts StoreFacts Backend RoleRules.
Import Samples RolePaths RoleOps SollIst KeySpec AccessorOpsSpec RoleInvariantSpec.
Import RoleRegistrySpec (role_json_roundtrip, role_key).
Import Accessor (storage_key).
#[local] Set Warnings "-clear-no-such-hyp".

Lemma include_iff filter r :
  include filter r = true <-> filter = "" \/ filter ∈ BoundRequesterRoles r.
Proof.
  unfold include. rewrite orb_true_iff, String.eqb_eq, existsb_exists.
  split; (intros [H|H]; [by left|right]).
  - destruct H as (x & Hin & ->%String.eqb_eq). by apply list_elem_of_In.
  - exists filter. split; [by apply list_elem_of_In|apply String.eqb_refl].
Qed.

(** The loop, when every listed name has a role. *)
Lemma soll_ist_roles_ok b filter s names data :
  (forall n, n ∈ names -> exists r, role b s n = Ok (Some r)) ->
  exists data',
    soll_ist_roles b filter s names data = Returns (Ok data')
    /\ forall n,
         data' !! n
         = match role b s n with
           | Ok (Some r) =>
               if bool_decide (n ∈ names) && include filter r
               then Some (role_summary n r) else data !! n
           | _ => data !! n
           end.
Proof.
  revert data. induction names as [|x names IH]; intros data Hall.
  - exists data. split; [done|]. intros n.
    rewrite bool_decide_eq_false_2 by apply not_elem_of_nil.
    by destruct (role b s n) as [[r|]|].
  - destruct (Hall x) as [rx Hx]; [by left|].
    simpl. rewrite Hx.
    destruct (IH (if include filter rx then <[x := role_summary x rx]> data else data))
      as (data' & Hrun & Hdata).
    { intros n Hn. apply Hall. by right. }
    exists data'. split; [done|]. intros n. rewrite Hdata.
    destruct (role b s n) as [[r|]|e] eqn:Hn.
    + destruct (decide (n = x)) as [->|Hne].
      * rewrite Hx in Hn. injection Hn as ->.
        rewrite (bool_decide_eq_true_2 (x ∈ x :: names)) by (by left).
        destruct (include filter r); simpl.
        -- rewrite lookup_insert_eq. by destruct (bool_decide _).
        -- by rewrite andb_false_r.
      * assert (Hb : bool_decide (n ∈ x :: names) = bool_decide (n ∈ names)).
        { apply bool_decide_ext. rewrite elem_of_cons. naive_solver. }
        rewrite Hb.
        destruct (bool_decide (n ∈ names) && include filter r); [done|].
        destruct (include filter rx); [by rewrite lookup_insert_ne|done].
    + destruct (decide (n = x)) as [->|Hne]; [congruence|].
      destruct (include filter rx); [by rewrite lookup_insert_ne|done].
    + destruct (decide (n = x)) as [->|Hne]; [congruence|].
      destruct (include filter rx); [by rewrite lookup_insert_ne|done].
Qed.

Lemma serve_flags b sys s c :
  fail_get (serve b sys s c) = fail_get s
  /\ fail_list (serve b sys s c) = fail_list s.
Proof.
  destruct c as [op d|n]; simpl.
  - by destruct (write_store b sys op d s) as [->|(old & _ & ->)].
  - unfold pathRoleDelete, Accessor.delete, Delete.
    by destruct (fail_delete s).
Qed.

Lemma serve_role_keys sys s c :
  named c -> role_keys_only s -> role_keys_only (serve newBackend sys s c).
Proof.
  intros Hc Hinv. destruct c as [op d|n]; simpl in *.
  - destruct (write_store newBackend sys op d s) as [->|(old & _ & ->)]; [done|].
    intros k v. cbn [kv with_kv]. rewrite role_key by done.
    intros [[<- <-]|[_ Hk]]%lookup_insert_Some; [|by apply Hinv].
    exists (fd_name d), (stored_role sys op old d).
    split; [by apply generic_name_plain|done].
  - unfold pathRoleDelete, Accessor.delete, Delete.
    destruct (fail_delete s); [done|]. cbn [snd].
    intros k v. cbn [kv with_kv]. intros [_ Hk]%lookup_delete_Some.
    by apply Hinv.
Qed.

Lemma serve_all_role_keys sys calls s :
  Forall named calls -> role_keys_only s ->
  role_keys_only (serve_all newBackend sys calls s)
  /\ fail_get (serve_all newBackend sys calls s) = fail_get s
  /\ fail_list (serve_all newBackend sys calls s) = fail_list s.
Proof.
  unfold serve_all. revert s.
  induction calls as [|c calls IH]; intros s Hall Hinv; simpl; [done|].
  apply Forall_cons in Hall as [Hc Hall].
  destruct (IH (serve newBackend sys s c) Hall (serve_role_keys sys s c Hc Hinv))
    as (H1 & H2 & H3).
  destruct (serve_flags newBackend sys s c) as [F1 F2].
  split; [done|]. split; congruence.
Qed.

Lemma lowered_role_key x :
  plain x ->
  storage_key (roleAccessor newBackend) [ToLower x] = "role/" +:+ ToLower x
  /\ storage_key (roleAccessor newBackend) [x] = "role/" +:+ ToLower x.
Proof.
  intros Hx. unfold newBackend, Accessor.newAtomicStorageAccessor. cbn [roleAccessor].
  assert (Hp : plain "role") by (by repeat split).
  split.
  - rewrite storage_key_plain; [|done|].
    + cbn. by rewrite ToLower_idem.
    + constructor; [by apply plain_ToLower|constructor].
  - rewrite storage_key_plain; [done|done|].
    constructor; [done|constructor].
Qed.

(** On a store that holds role keys only, every listed name has a role. *)
Lemma listed_roles_load s names :
  role_keys_only s -> fail_get s = false ->
  Accessor.list (roleAccessor newBackend) s [""] = Ok names ->
  forall n, n ∈ names -> exists r, role newBackend s n = Ok (Some r).
Proof.
  intros Hinv Hget. unfold Accessor.list.
  change (storage_key (roleAccessor newBackend) [""] +:+ "/") with "role/".
  unfold List. destruct (fail_list s); [done|]. intros [= <-] n Hin.
  apply elem_of_remove_dups, list_elem_of_fmap in Hin as (key & Hchild & Hkey).
  apply list_elem_of_filter in Hkey as [_ Hkey].
  apply list_elem_of_fmap in Hkey as ([k v] & -> & Hkv). cbn [fst] in *.
  apply elem_of_map_to_list in Hkv.
  destruct (Hinv k v Hkv) as (x & r & Hx & -> & ->).
  rewrite child_of_leaf in Hchild
    by (rewrite has_slash_ToLower; by destruct Hx as (_ & _ & _ & ?)).
  subst n. exists r.
  unfold role, load, Accessor.get, Get. rewrite Hget.
  destruct (lowered_role_key x Hx) as [-> _]. rewrite Hkv.
  cbn [fmap option_fmap option_map Value Key].
  change (unmarshal (role_to_json r)) with (role_of_json (role_to_json r)).
  by rewrite role_json_roundtrip.
Qed.

(** X9. On a store that the role path has filled (any sequence of writes and
    deletes under names the route accepts, starting empty), [soll-ist] returns
    a response, without error or panic, whose data holds under each role's
    lower-cased name the role's summary exactly when the filter
    [bound_requester_role] is empty (or not sent) or equals one of the role's
    [bound_requester_roles]; a role that does not match, or a name without a
    role, has no entry. *)
Theorem soll_ist_lists_matching_roles (sys : SystemView) (calls : list role_call)
        (bound_requester_role : option string) (s0 : Storage)
        (Hempty : kv s0 = ∅)
        (Hget : fail_get s0 = false) (Hlist : fail_list s0 = false)
        (Hnames : Forall named calls) :
  let s := serve_all newBackend sys calls s0 in
  let filter := default "" bound_requester_role in
  exists resp,
    pathSollIstRead newBackend bound_requester_role s = Returns (Some resp, None)
    /\ (forall name r,
          generic_name name = true -> role newBackend s name = Ok (Some r) ->
          Data resp !! ToLower name
          = if bool_decide (filter = "" \/ filter ∈ BoundRequesterRoles r)
            then Some (role_summary (ToLower name) r) else None)
    /\ (forall name,
          generic_name name = true -> role newBackend s name = Ok None ->
          Data resp !! ToLower name = None).
Proof.
  intros s filter.
  assert (Hinv0 : role_keys_only s0).
  { intros k v Hk. by rewrite Hempty, lookup_empty in Hk. }
  destruct (serve_all_role_keys sys calls s0 Hnames Hinv0) as (Hinv & Fg & Fl).
  fold s in Hinv, Fg, Fl. rewrite Hget in Fg. rewrite Hlist in Fl.
  unfold pathSollIstRead.
  destruct (Accessor.list (roleAccessor newBackend) s [""]) as [names|e] eqn:HL.
  2:{ unfold Accessor.list, List in HL. by rewrite Fl in HL. }
  destruct (soll_ist_roles_ok newBackend filter s names ∅
              (listed_roles_load s names Hinv Fg HL)) as (data & Hrun & Hdata).
  fold filter. rewrite Hrun. eexists. split; [done|]. cbn [Data].
  assert (Hsame : forall name, generic_name name = true ->
            role newBackend s (ToLower name) = role newBackend s name).
  { intros name Hn. unfold role, load, Accessor.get.
    destruct (lowered_role_key name (generic_name_plain _ Hn)) as [-> ->]. done. }
  split.
  - intros name r Hn Hr. rewrite Hdata, (Hsame name Hn), Hr.
    assert (Hin : ToLower name ∈ names).
    { unfold Accessor.list in HL.
      change (storage_key (roleAccessor newBackend) [""] +:+ "/") with "role/" in HL.
      unfold role, load, Accessor.get, Get in Hr. rewrite Fg in Hr.
      rewrite role_key in Hr by done.
      destruct (kv s !! ("role/" +:+ ToLower name)) as [v|] eqn:Hk; [|done].
      destruct (List_leaf s "role/" (ToLower name) v) as (l & Hl & Hin); try done.
      - rewrite has_slash_ToLower.
        by destruct (generic_name_plain _ Hn) as (_ & _ & _ & ?).
      - congruence. }
    rewrite (bool_decide_eq_true_2 _ Hin). cbn [andb].
    rewrite lookup_empty.
    destruct (include filter r) eqn:Hi.
    + by rewrite bool_decide_eq_true_2 by (by apply include_iff).
    + rewrite bool_decide_eq_false_2; [done|].
      intros H. apply include_iff in H. congruence.
  - intros name Hn Hr. by rewrite Hdata, (Hsame name Hn), Hr, lookup_empty.
Qed.

Lemma soll_ist_lists_matching_roles_witness :
  let s := serve_all newBackend day [WriteRole CreateOperation three_approvers]
             (healthy ∅) in
  let r := stored_role day CreateOperation zeroRole three_approvers in
  exists resp,
    pathSollIstRead newBackend None s = Returns (Some resp, None)
    /\ Data resp !! "k8s-admin" = Some (role_summary "k8s-admin" r).
Proof.
  intros s r.
  assert (Hnamed : Forall named [WriteRole CreateOperation three_approvers])
    by (constructor; [reflexivity|constructor]).
  assert (Hr : role newBackend s "K8s-Admin" = Ok (Some r))
    by (vm_compute; reflexivity).
  destruct (soll_ist_lists_matching_roles day
              [WriteRole CreateOperation three_approvers] None (healthy ∅)
              eq_refl eq_refl eq_refl Hnamed) as (resp & Hrun & Hin & _).
  exists resp. split; [exact Hrun|].
  exact (Hin "K8s-Admin" r eq_refl Hr).
Defined.

(** X18. What [soll-ist] shows of a role is what reading the role shows:
    every field of the summary is in the data of [pathRoleRead] with the same
    value, and the two fields the summary leaves out are
    [secret_environment] and [secret_aws_state_role]. *)
Theorem soll_ist_agrees_with_role_read (name : string) (r : roleStorageEntry) :
  exists fields,
    role_summary name r = JObj fields
    /\ (forall k v, (k, v) ∈ fields -> role_data name r !! k = Some v)
    /\ (forall k, is_Some (role_data name r !! k) ->
          k ∈ fields.*1 \/ k = "secret_environment" \/ k = "secret_aws_state_role").
Proof.
  eexists. split; [reflexivity|]. split.
  - intros k v Hin.
    repeat (apply elem_of_cons in Hin as [[= -> ->]|Hin]; [reflexivity|]).
    by apply elem_of_nil in Hin.
  - intros k [v Hk]. unfold role_data in Hk.
    apply elem_of_list_to_map_2 in Hk.
    repeat (apply elem_of_cons in Hk as [[= -> _]|Hk];
            [first [by right; left | by right; right
                   | left; cbn; set_solver]|]).
    by apply elem_of_nil in Hk.
Qed.

Lemma soll_ist_agrees_with_role_read_witness :
  role_data "k8s-admin" sample_role !! "min_approvers" = Some (JNum 2).
Proof.
  destruct (soll_ist_agrees_with_role_read "k8s-admin" sample_role)
    as (fields & Hfields & Hsame & _).
  injection Hfields as <-. apply Hsame.
  do 13 (apply elem_of_cons; right). apply elem_of_cons. by left.
Defined.

End SollIstSpec.

(** ** The configuration path *)
Module ConfigSpec.
Import GoStrings GoPath Logical Entries Names KeyFacts StoreFacts Backend.
Import RolePaths ConfigPaths.
Import RoleRegistrySpec (dec_enc_strings, seconds_exact).
Import RoleLifecycleSpec (whole_seconds_exact).
Import Accessor (storage_key).

Lemma config_json_roundtrip c : config_of_json (config_to_json c) = Some c.
Proof.
  destruct c. unfold config_of_json, config_to_json. cbn [obj_field String.eqb Ascii.eqb Bool.eqb].
  cbn [dec_int dec_string mbind option_bind]. rewrite dec_enc_strings. done.
Qed.

(** [b.config] reads the key ["config"]. *)
Lemma config_reads_key s :
  config newBackend s
  = if fail_get s then Err (ErrStorage "get" "config")
    else match kv s !! "config" with
         | None => Ok None
         | Some doc => match config_of_json doc with
                       | Some c => Ok (Some c)
                       | None => Err (ErrJSON "config")
                       end
         end.
Proof.
  unfold config, load, Accessor.get, Get.
  change (storage_key (configAccessor newBackend) []) with "config".
  destruct (fail_get s); [done|]. by destruct (kv s !! "config").
Qed.

(** The write, when the client library and the Vault API answer. *)
Lemma config_write_runs api d s found vaultcfg c0 err secret token :
  config newBackend s = Ok found ->
  let c := config_from_fields d (default zeroConfig found) in
  DefaultConfig api = Some vaultcfg -> CfgError vaultcfg = None ->
  NewClient api {| CfgError := None; Address := VaultAddr c |} = (Some c0, err) ->
  Write api {| ClientAddress := ClientAddress c0; Token := VaultToken c |}
        "/auth/token/create-orphan" (orphan_token_request c) = Ok secret ->
  auth_client_token secret = Returns token ->
  pathConfigCreateUpdate newBackend api d s
  = match Put s {| Key := "config";
                   Value := config_to_json (set_VaultToken token c) |} with
    | (Some e, s') =>
        Returns ((None, Some (ErrMsg "failed to write configuration to storage")), s')
    | (None, s') =>
        Returns ((Some {| Data := {[ "vault_token" := JStr token ]};
                          Warnings := []; RespSecret := None |}, None), s')
    end.
Proof.
  intros Hload c Hdef Herr Hnew Hwrite Htok.
  unfold pathConfigCreateUpdate. rewrite Hload. fold c.
  unfold newVaultClient. rewrite Hdef, Herr, Hnew, Hwrite, Htok.
  unfold StorageEntryJSON.
  change (marshal (set_VaultToken token c))
    with (Some (config_to_json (set_VaultToken token c))).
  done.
Qed.

(** X10. A configuration write that goes through stores the orphan token the
    Vault API handed out, not the token that was sent, and answers with that
    orphan token; reading the configuration back then shows the address and
    the approval TTL (in whole seconds) of the write, and the placeholder
    [<sensitive>] in place of the token and of the Slack webhook URL. *)
Theorem config_write_then_read (api : VaultAPI) (d : ConfigFields) (s : Storage)
        (found : option configStorageEntry) (vaultcfg : ClientConfig)
        (c0 : Client) (err : option error) (secret : json) (token : string)
        (Hload : config newBackend s = Ok found)
        (Hdefault : DefaultConfig api = Some vaultcfg)
        (Hnoerror : CfgError vaultcfg = None)
        (Hclient : NewClient api
                     {| CfgError := None;
                        Address := VaultAddr (config_from_fields d (default zeroConfig found)) |}
                   = (Some c0, err))
        (Hwrite : Write api
                    {| ClientAddress := ClientAddress c0;
                       Token := default "" (cf_vault_token d) |}
                    "/auth/token/create-orphan"
                    (orphan_token_request
                       (config_from_fields d (default zeroConfig found)))
                  = Ok secret)
        (Htoken : auth_client_token secret = Returns token)
        (Hstore : fail_put s = false) :
  let c := config_from_fields d (default zeroConfig found) in
  exists resp s' shown,
    pathConfigCreateUpdate newBackend api d s = Returns ((Some resp, None), s')
    /\ Data resp = {[ "vault_token" := JStr token ]}
    /\ config newBackend s' = Ok (Some (set_VaultToken token c))
    /\ pathConfigRead newBackend s' = (Some shown, None)
    /\ Data shown !! "vault_token" = Some (JStr "<sensitive>")
    /\ Data shown !! "slack_webhook_url" = Some (JStr "<sensitive>")
    /\ Data shown !! "vault_addr" = Some (JStr (VaultAddr c))
    /\ Data shown !! "vault_policies" = Some (enc_strings (VaultPolicies c))
    /\ (forall n, cf_approval_ttl d = Some n -> 0 <= n <= 9223372036 ->
                  Data shown !! "approval_ttl" = Some (JNum n)).
Proof.
  intros c.
  assert (Htok : VaultToken c = default "" (cf_vault_token d)).
  { unfold c, config_from_fields.
    destruct (cf_slack_webhook_url d), (cf_identity_template d), (cf_vault_addr d),
      (cf_vault_policies d), (cf_approval_ttl d); cbn;
      repeat match goal with |- context [if ?b then _ else _] => destruct b end;
      reflexivity. }
  assert (Hget : fail_get s = false).
  { rewrite config_reads_key in Hload. by destruct (fail_get s). }
  assert (Hread : config newBackend
            (with_kv s (<["config" := config_to_json (set_VaultToken token c)]> (kv s)))
          = Ok (Some (set_VaultToken token c))).
  { rewrite config_reads_key. cbn [fail_get with_kv kv]. rewrite Hget.
    by rewrite lookup_insert_eq, config_json_roundtrip. }
  rewrite <- Htok in Hwrite.
  rewrite (config_write_runs api d s found vaultcfg c0 err secret token
             Hload Hdefault Hnoerror Hclient Hwrite Htoken).
  unfold Put. rewrite Hstore. cbn [Key Value].
  exists {| Data := {[ "vault_token" := JStr token ]}; Warnings := [];
            RespSecret := None |},
         (with_kv s (<["config" := config_to_json (set_VaultToken token c)]> (kv s))).
  eexists. split; [reflexivity|]. split; [reflexivity|].
  split; [exact Hread|].
  unfold pathConfigRead. rewrite Hread. split; [reflexivity|]. cbn [Data].
  split; [reflexivity|]. split; [reflexivity|]. split; [reflexivity|].
  split; [reflexivity|].
  intros n Hn Hrange.
  assert (Httl : ApprovalTTL (set_VaultToken token c) = seconds n).
  { unfold c, config_from_fields. rewrite Hn.
    by destruct (cf_slack_webhook_url d), (cf_identity_template d), (cf_vault_addr d),
      (cf_vault_policies d); cbn;
      repeat match goal with |- context [if ?b then _ else _] => destruct b end. }
  change (list_to_map _ !! "approval_ttl")
    with (Some (JNum (whole_seconds (ApprovalTTL (set_VaultToken token c))))).
  by rewrite Httl, whole_seconds_exact.
Qed.

Lemma config_write_then_read_witness :
  exists resp s' shown,
    pathConfigCreateUpdate newBackend (answering_api "s.orphan")
      sample_config_fields (healthy ∅) = Returns ((Some resp, None), s')
    /\ Data resp = {[ "vault_token" := JStr "s.orphan" ]}
    /\ pathConfigRead newBackend s' = (Some shown, None)
    /\ Data shown !! "vault_token" = Some (JStr "<sensitive>")
    /\ Data shown !! "approval_ttl" = Some (JNum 7200).
Proof.
  assert (Hload : config newBackend (healthy ∅) = Ok None) by reflexivity.
  destruct (config_write_then_read (answering_api "s.orphan") sample_config_fields
              (healthy ∅) None
              {| CfgError := None; Address := "https://127.0.0.1:8200" |}
              {| ClientAddress := "http://127.0.0.1:8200"; Token := "" |} None
              (JObj [("auth", JObj [("client_token", JStr "s.orphan")])])
              "s.orphan" Hload eq_refl eq_refl eq_refl eq_refl eq_refl eq_refl)
    as (resp & s' & shown & H1 & H2 & _ & H4 & H5 & _ & _ & _ & H9).
  exists resp, s', shown.
  split; [exact H1|]. split; [exact H2|]. split; [exact H4|]. split; [exact H5|].
  apply (H9 7200); [reflexivity|lia].
Defined.

(** X11. The configuration path never changes the store on a request that
    fails: whenever [pathConfigCreateUpdate] returns with a Go error or with
    an error response (the client cannot be configured, the Vault API refuses
    the orphan token, the store refuses the write), the store is exactly as
    it was before; in particular the token that was sent is not stored. *)
Theorem config_write_failure_stores_nothing (b : backend) (api : VaultAPI)
        (d : ConfigFields) (s s' : Storage) (reply : Reply)
        (Hrun : pathConfigCreateUpdate b api d s = Returns (reply, s'))
        (Hfailed : reply.2 <> None \/ IsError reply.1 = true) :
  s' = s.
Proof.
  unfold pathConfigCreateUpdate in Hrun.
  destruct (config b s) as [found|e]; [|by injection Hrun as _ <-].
  destruct (newVaultClient api _ _) as [[clt|e]|why]; [| |done].
  2:{ by injection Hrun as _ <-. }
  destruct (Write api clt _ _) as [secret|e]; [|by injection Hrun as _ <-].
  destruct (auth_client_token secret) as [token|why]; [|done].
  unfold StorageEntryJSON in Hrun.
  change (marshal (set_VaultToken token
            (config_from_fields d (default zeroConfig found))))
    with (Some (config_to_json (set_VaultToken token
            (config_from_fields d (default zeroConfig found))))) in Hrun.
  cbv iota beta in Hrun. unfold Put in Hrun.
  destruct (fail_put s); [by injection Hrun as _ <-|].
  injection Hrun as <- <-. destruct Hfailed as [H|H]; [done|].
  exfalso. revert H. unfold IsError. cbn [fst Data].
  rewrite andb_true_iff. intros [_ H].
  apply bool_decide_eq_true_1 in H as [v H].
  by rewrite lookup_singleton_ne in H.
Qed.

Lemma config_write_failure_stores_nothing_witness :
  let api := {| DefaultConfig := None;
                NewClient := fun _ => (None, None);
                Write := fun _ _ _ => Ok JNull |} in
  let s := healthy {[ "config" := config_to_json Samples.sample_config ]} in
  exists reply s',
    pathConfigCreateUpdate newBackend api sample_config_fields s
    = Returns (reply, s') /\ IsError reply.1 = true /\ s' = s.
Proof.
  intros api s.
  assert (Hrun : pathConfigCreateUpdate newBackend api sample_config_fields s
                 = Returns ((Some (ErrorResponse "failed to create Vault client"), None), s))
    by reflexivity.
  exists (Some (ErrorResponse "failed to create Vault client"), None), s.
  split; [exact Hrun|]. split; [reflexivity|].
  exact (config_write_failure_stores_nothing newBackend api sample_config_fields
           s s _ Hrun (or_intror eq_refl)).
Defined.

(** X12. Reading the configuration never shows the stored Vault token or the
    Slack webhook URL: two stores whose configurations differ in nothing but
    these two fields give the same answer, and that answer holds the
    placeholder [<sensitive>] for both. Without a stored configuration the
    answer is a 404 ("no config found"). *)
Theorem config_read_hides_secrets (b : backend) (s1 s2 : Storage)
        (c1 c2 : configStorageEntry)
        (H1 : config b s1 = Ok (Some c1)) (H2 : config b s2 = Ok (Some c2))
        (Hsame : set_SlackWebhookURL "" (set_VaultToken "" c1)
                 = set_SlackWebhookURL "" (set_VaultToken "" c2)) :
  pathConfigRead b s1 = pathConfigRead b s2
  /\ (exists shown,
        pathConfigRead b s1 = (Some shown, None)
        /\ Data shown !! "vault_token" = Some (JStr "<sensitive>")
        /\ Data shown !! "slack_webhook_url" = Some (JStr "<sensitive>"))
  /\ (forall s, config b s = Ok None -> pathConfigRead b s = (None, Some errNoConfig)).
Proof.
  unfold pathConfigRead. rewrite H1, H2.
  injection Hsame as -> -> -> ->.
  split; [done|]. split; [by eexists|].
  intros s Hs. by rewrite Hs.
Qed.

Lemma config_read_hides_secrets_witness :
  let c2 := set_VaultToken "s.other" Samples.sample_config in
  pathConfigRead newBackend (healthy {[ "config" := config_to_json Samples.sample_config ]})
  = pathConfigRead newBackend (healthy {[ "config" := config_to_json c2 ]}).
Proof.
  intros c2.
  exact (proj1 (config_read_hides_secrets newBackend
                  (healthy {[ "config" := config_to_json Samples.sample_config ]})
                  (healthy {[ "config" := config_to_json c2 ]})
                  Samples.sample_config c2 eq_refl eq_refl eq_refl)).
Defined.

End ConfigSpec.

(** ** The caller's roles *)
Module CallerRolesSpec.
Import GoStrings GoPath Logical Entries Names KeyFacts StoreFacts Backend.
Import CallerRoles.

Lemma StrListContains_iff roles x : StrListContains roles x = true <-> x ∈ roles.
Proof.
  unfold StrListContains. rewrite existsb_exists. split.
  - intros (y & Hin & ->%String.eqb_eq). by apply list_elem_of_In.
  - intros Hin. exists x. split; [by apply list_elem_of_In|apply String.eqb_refl].
Qed.

(** The group loop lets the caller through only on a group it has read. *)
Lemma verify_groups_sound read roles groupIDs :
  verify_groups read roles groupIDs = Returns None ->
  exists gid, JStr gid ∈ groupIDs /\ lets_through read roles gid.
Proof.
  induction groupIDs as [|id rest IH]; simpl; [done|].
  destruct id as [| | |gid| |]; try done. cbn [assert_string].
  destruct (read (Join "/identity/group/id" gid)) as [secret|e] eqn:Hread; [|done].
  destruct (secret_data secret) as [data|why] eqn:Hdata; [|done].
  assert (Hrest : verify_groups read roles rest = Returns None ->
            exists g, JStr g ∈ JStr gid :: rest /\ lets_through read roles g).
  { intros H. destruct (IH H) as (g & Hin & Hg). exists g. split; [by right|done]. }
  destruct (primary_role data) as [role|] eqn:Hrole; [|done].
  destruct (StrListContains roles role) eqn:Hc; [|done].
  intros _. exists gid. split; [by left|].
  exists secret, data, role. by rewrite <- StrListContains_iff.
Qed.

(** The group loop when every group answers the read. *)
Lemma verify_groups_complete read roles gids :
  (forall gid, gid ∈ gids ->
     exists secret data, read (Join "/identity/group/id" gid) = Ok secret
                         /\ secret_data secret = Returns data) ->
  (verify_groups read roles (JStr <$> gids) = Returns None
   /\ exists gid, gid ∈ gids /\ lets_through read roles gid)
  \/ (verify_groups read roles (JStr <$> gids) = Returns (Some errNotAllowed)
      /\ forall gid, gid ∈ gids -> ~ lets_through read roles gid).
Proof.
  induction gids as [|gid rest IH]; intros Hall.
  - right. split; [done|]. intros gid Hin. by apply elem_of_nil in Hin.
  - destruct (Hall gid) as (secret & data & Hread & Hdata); [by left|].
    rewrite fmap_cons. simpl. rewrite Hread, Hdata.
    assert (Hhere : forall role, primary_role data = Some role -> role ∈ roles ->
              lets_through read roles gid).
    { intros role Hr Hin. by exists secret, data, role. }
    assert (Hnot : (forall role, primary_role data = Some role -> role ∉ roles) ->
              ~ lets_through read roles gid).
    { intros Hno (secret' & data' & role & Hread' & Hdata' & Hr & Hin).
      rewrite Hread in Hread'. injection Hread' as <-.
      rewrite Hdata in Hdata'. injection Hdata' as <-.
      by apply (Hno role). }
    assert (Hrest : (forall role, primary_role data = Some role -> role ∉ roles) ->
      (verify_groups read roles (JStr <$> rest) = Returns None
       /\ exists g, g ∈ gid :: rest /\ lets_through read roles g)
      \/ (verify_groups read roles (JStr <$> rest) = Returns (Some errNotAllowed)
          /\ forall g, g ∈ gid :: rest -> ~ lets_through read roles g)).
    { intros Hno.
      destruct IH as [[Hrun (g & Hin & Hg)]|[Hrun Hnone]].
      - intros g Hin. apply Hall. by right.
      - left. split; [done|]. exists g. split; [by right|done].
      - right. split; [done|]. intros g [->|Hin]%elem_of_cons; [by apply Hnot|].
        by apply Hnone. }
    destruct (primary_role data) as [role|] eqn:Hrole.
    + destruct (StrListContains roles role) eqn:Hc.
      * left. split; [done|]. exists gid. split; [by left|].
        apply (Hhere role); [done|]. by apply StrListContains_iff.
      * apply Hrest. intros role' [= <-] Hin.
        apply StrListContains_iff in Hin. congruence.
    + apply Hrest. intros role' H. discriminate H.
Qed.

(** X13. [verifyCallerRoles] lets a caller through (returns nil) only if one
    of the groups of the caller's entity answered the read with a metadata
    [primaryRole] that is one of the roles asked for; so with an empty list
    of roles no caller gets through, and neither does one whose
    configuration, token lookup or entity cannot be read. *)
Theorem caller_roles_pass_needs_group (b : backend) (api : VaultAPI)
        (rapi : ReadAPI) (s : Storage) (accessor : string) (roles : list string)
        (Hpass : verifyCallerRoles b api rapi s accessor roles = Returns None) :
  roles <> []
  /\ exists cfg clt gid,
       config b s = Ok (Some cfg)
       /\ newVaultClient api (VaultAddr cfg) (VaultToken cfg) = Returns (Ok clt)
       /\ lets_through (Read rapi clt) roles gid.
Proof.
  unfold verifyCallerRoles in Hpass.
  destruct (config b s) as [[cfg|]|e] eqn:Hcfg; try done.
  destruct (newVaultClient api _ _) as [[clt|e]|why] eqn:Hclt; try done.
  destruct (Write api clt _ _) as [lookup|e]; [|done].
  destruct (secret_data lookup) as [ldata|why]; [|done].
  destruct (assert_string _) as [entityID|why]; [|done].
  destruct (Read rapi clt _) as [entity|e]; [|done].
  destruct (secret_data entity) as [edata|why]; [|done].
  destruct (assert_items _) as [groupIDs|why]; [|done].
  apply verify_groups_sound in Hpass as (gid & _ & Hgid).
  split.
  - intros ->. destruct Hgid as (_ & _ & role & _ & _ & _ & Hin).
    by apply elem_of_nil in Hin.
  - by exists cfg, clt, gid.
Qed.

Lemma caller_roles_pass_needs_group_witness :
  let s := healthy {[ "config" := config_to_json Samples.sample_config ]} in
  verifyCallerRoles newBackend sample_identity.1 sample_identity.2 s "acc" ["sre"]
  = Returns None
  /\ ["sre"] <> [].
Proof.
  intros s.
  assert (Hpass : verifyCallerRoles newBackend sample_identity.1 sample_identity.2
                    s "acc" ["sre"] = Returns None) by (vm_compute; reflexivity).
  split; [exact Hpass|].
  exact (proj1 (caller_roles_pass_needs_group newBackend sample_identity.1
                  sample_identity.2 s "acc" ["sre"] Hpass)).
Defined.

(** X14. When the configuration, the client, the token lookup, the entity
    and each of the entity's groups can be read, [verifyCallerRoles] is
    decided by the groups alone: it returns nil exactly when some group of
    the entity has a metadata [primaryRole] among the roles asked for, and
    the error "role(s) not allowed" otherwise. *)
Theorem caller_roles_decided_by_groups (b : backend) (api : VaultAPI)
        (rapi : ReadAPI) (s : Storage) (accessor : string) (roles : list string)
        (cfg : configStorageEntry) (clt : Client)
        (lookup entity : json) (ldata edata : list (string * json))
        (entityID : string) (gids : list string)
        (Hcfg : config b s = Ok (Some cfg))
        (Hclt : newVaultClient api (VaultAddr cfg) (VaultToken cfg) = Returns (Ok clt))
        (Hlookup : Write api clt "auth/token/lookup-accessor"
                     [("accessor", JStr accessor)] = Ok lookup)
        (Hldata : secret_data lookup = Returns ldata)
        (Hentity_id : obj_field "entity_id" ldata = JStr entityID)
        (Hentity : Read rapi clt (Join "/identity/entity/id" entityID) = Ok entity)
        (Hedata : secret_data entity = Returns edata)
        (Hgroups : obj_field "group_ids" edata = JArr (JStr <$> gids))
        (Hread : forall gid, gid ∈ gids ->
           exists secret data,
             Read rapi clt (Join "/identity/group/id" gid) = Ok secret
             /\ secret_data secret = Returns data) :
  let passes := exists gid, gid ∈ gids /\ lets_through (Read rapi clt) roles gid in
  (verifyCallerRoles b api rapi s accessor roles = Returns None /\ passes)
  \/ (verifyCallerRoles b api rapi s accessor roles = Returns (Some errNotAllowed)
      /\ ~ passes).
Proof.
  intros passes. unfold verifyCallerRoles.
  rewrite Hcfg, Hclt, Hlookup, Hldata, Hentity_id. cbn [assert_string].
  rewrite Hentity, Hedata, Hgroups. cbn [assert_items].
  destruct (verify_groups_complete (Read rapi clt) roles gids Hread)
    as [[Hrun Hyes]|[Hrun Hno]].
  - left. by split.
  - right. split; [done|]. intros (gid & Hin & Hgid). by apply (Hno gid).
Qed.

Lemma caller_roles_decided_by_groups_witness :
  let s := healthy {[ "config" := config_to_json Samples.sample_config ]} in
  verifyCallerRoles newBackend sample_identity.1 sample_identity.2 s "acc" ["security"]
  = Returns (Some errNotAllowed).
Proof.
  intros s.
  set (clt := {| ClientAddress := "http://127.0.0.1:8200"; Token := "s.token" |}).
  assert (Hread : forall gid, gid ∈ ["g1"; "g2"] ->
            exists secret data,
              Read sample_identity.2 clt (Join "/identity/group/id" gid) = Ok secret
              /\ secret_data secret = Returns data).
  { intros gid Hin. apply elem_of_cons in Hin as [->|Hin].
    - by eexists _, _.
    - apply elem_of_cons in Hin as [->|Hin]; [by eexists _, _|].
      by apply elem_of_nil in Hin. }
  destruct (caller_roles_decided_by_groups newBackend sample_identity.1
              sample_identity.2 s "acc" ["security"] Samples.sample_config clt
              (JObj [("data", JObj [("entity_id", JStr "e1")])])
              (JObj [("data", JObj [("group_ids", JArr [JStr "g1"; JStr "g2"])])])
              [("entity_id", JStr "e1")]
              [("group_ids", JArr [JStr "g1"; JStr "g2"])]
              "e1" ["g1"; "g2"]
              eq_refl eq_refl eq_refl eq_refl eq_refl eq_refl eq_refl eq_refl Hread)
    as [[Hrun _]|[Hrun _]].
  - vm_compute in Hrun. discriminate Hrun.
  - exact Hrun.
Defined.

End CallerRolesSpec.

(** ** The one-time client token *)
Module TokenHelperSpec.
Import GoStrings GoPath Logical Entries Names KeyFacts StoreFacts Backend.
Import TokenHelper.

Lemma token_role_request_alias policies alias :
  token_role_request policies alias !! "allowed_entity_aliases" = Some (JStr alias).
Proof.
  unfold token_role_request. rewrite lookup_insert_ne by done.
  apply lookup_insert_eq.
Qed.

(** X15. [createClientToken] cleans up after itself and keeps the alias
    consistent. Whenever the server accepted the first call, which creates
    the temporary token role, the last call deletes that very role, whether
    the token was then issued or refused; when the server refused it, or no
    call was made, nothing is deleted. The token request asks for the alias
    that the role allows, the lower-cased entity alias, so aliases that
    differ in letter case give the same calls. The caller's map is changed at
    [display_name] and [entity_alias] only, and a result without error means
    the role was created and deleted. *)
Theorem token_role_always_deleted (srv : server) (parse : json -> list string)
        (uuid : result string) (tokenData : gmap string json)
        (entityAlias : string) :
  let run := createClientToken srv parse uuid tokenData entityAlias in
  (forall c, head (run_calls run) = Some c ->
     exists rolePath data,
       c = ApiWrite rolePath data
       /\ data !! "allowed_entity_aliases" = Some (JStr (ToLower entityAlias))
       /\ match srv [] c with
          | Ok _ =>
              exists tokenPath, 
                run_calls run
                = [c; ApiWrite tokenPath (run_tokenData run); ApiDelete rolePath]
                /\ run_tokenData run !! "entity_alias"
                   = Some (JStr (ToLower entityAlias))
                /\ run_tokenData run !! "display_name"
                   = Some (JStr (ToLower entityAlias))
          | Err _ => run_calls run = [c]
          end)
  /\ (forall k, k <> "display_name" -> k <> "entity_alias" ->
                run_tokenData run !! k = tokenData !! k)
  /\ (forall secret, run_result run = Ok secret ->
        exists rolePath, last (run_calls run) = Some (ApiDelete rolePath))
  /\ (forall other, eq_fold entityAlias other = true ->
        createClientToken srv parse uuid tokenData other = run).
Proof.
  intros run. subst run. unfold createClientToken.
  destruct (tokenData !! "policies") as [policiesRaw|] eqn:Hp.
  2:{ split; [done|]. split; [done|]. split; [done|]. done. }
  destruct uuid as [u|e].
  2:{ split; [done|]. split; [done|]. split; [done|]. done. }
  set (rolePath := Join "/auth/token/roles" ("pagerduty-secrets-" +:+ u)).
  set (alias := ToLower entityAlias).
  set (create_role := ApiWrite rolePath (token_role_request (parse policiesRaw) alias)).
  set (td := <["entity_alias" := JStr alias]>
               (<["display_name" := JStr alias]> tokenData)).
  assert (Htd1 : td !! "entity_alias" = Some (JStr alias))
    by apply lookup_insert_eq.
  assert (Htd2 : td !! "display_name" = Some (JStr alias))
    by (unfold td; by rewrite lookup_insert_ne, lookup_insert_eq).
  split; [|split; [|split]].
  - intros c Hc.
    assert (Hhead : c = create_role).
    { destruct (srv [] create_role) as [ok|e]; [|by injection Hc].
      destruct (srv [create_role] _) as [secret|e]; by injection Hc. }
    subst c.
    exists rolePath, (token_role_request (parse policiesRaw) alias).
    split; [done|]. split; [apply token_role_request_alias|].
    destruct (srv [] create_role) as [ok|e]; [|done].
    exists (Join "/auth/token/create" ("pagerduty-secrets-" +:+ u)).
    by destruct (srv [create_role] _) as [secret|e].
  - intros k Hk1 Hk2. destruct (srv [] create_role) as [ok|e]; [|done].
    destruct (srv [create_role] _) as [secret|e]; cbn [run_tokenData];
      unfold td; by rewrite !lookup_insert_ne.
  - intros secret. destruct (srv [] create_role) as [ok|e]; [|done].
    destruct (srv [create_role] _) as [s|e]; [|done]. intros _. by exists rolePath.
  - intros other Hfold. apply eq_fold_ToLower in Hfold.
    subst td create_role alias. by rewrite <- Hfold.
Qed.

Lemma token_role_always_deleted_witness :
  let run := createClientToken refusing_tokens (fun _ => ["default"]) (Ok "u1")
               {[ "policies" := JStr "default" ]} "Alice" in
  exists rolePath,
    last (run_calls run) = Some (ApiDelete rolePath)
    /\ head (run_calls run)
       = Some (ApiWrite rolePath (token_role_request ["default"] "alice")).
Proof.
  intros run.
  set (c := ApiWrite "/auth/token/roles/pagerduty-secrets-u1"
              (token_role_request ["default"] "alice")).
  assert (Hhead : head (run_calls run) = Some c) by reflexivity.
  destruct (proj1 (token_role_always_deleted refusing_tokens (fun _ => ["default"])
                     (Ok "u1") {[ "policies" := JStr "default" ]} "Alice")
                  c Hhead) as (rolePath & data & Hc & _ & Hmatch).
  change (refusing_tokens [] c) with (@Ok json JNull) in Hmatch.
  destruct Hmatch as (tokenPath & Hcalls & _).
  exists rolePath. split.
  - fold run in Hcalls. rewrite Hcalls. reflexivity.
  - rewrite Hhead. injection Hc as <- _. reflexivity.
Defined.

End TokenHelperSpec.

(** ** Listing and reading through one accessor *)
Module AccessorListSpec.
Import GoStrings GoPath Logical Entries Names KeyFacts StoreFacts KeySpec AccessorOpsSpec.
Import Accessor (atomicStorageAccessor, storage_key).

(** X16. [list] and [get] of an accessor agree: on a store that answers,
    the names listed under a role are, without repetition, exactly the
    lower-cased nonces under which [get] finds an entry for that role. The
    namespace path, the role and the nonces are plain names. *)
Theorem list_names_what_get_finds (a : atomicStorageAccessor) (s : Storage)
        (r : string) (names : list string)
        (Hpath : plain (Accessor.path a)) (Hr : plain r)
        (Hget : fail_get s = false)
        (Hlist : Accessor.list a s [r] = Ok names) :
  NoDup names
  /\ forall n, plain n ->
       (ToLower n ∈ names <-> exists e, Accessor.get a s [r; n] = Ok (Some e)).
Proof.
  destruct a as [p]. simpl in Hpath.
  assert (Hpre : storage_key {| Accessor.path := p |} [r] = p +:+ "/" +:+ ToLower r).
  { rewrite storage_key_plain; [done|done|]. constructor; [done|constructor]. }
  assert (Hkey : forall n, plain n ->
            storage_key {| Accessor.path := p |} [r; n]
            = ((p +:+ "/" +:+ ToLower r) +:+ "/") +:+ ToLower n).
  { intros n Hn. rewrite storage_key_plain; [|done|].
    - simpl. by rewrite !append_assoc.
    - constructor; [done|constructor; [done|constructor]]. }
  unfold Accessor.list in Hlist. rewrite Hpre in Hlist.
  split.
  - unfold List in Hlist. destruct (fail_list s); [done|].
    injection Hlist as <-. apply NoDup_remove_dups.
  - intros n Hn.
    assert (Hslash : has_slash (ToLower n) = false).
    { rewrite has_slash_ToLower. by destruct Hn as (_ & _ & _ & ?). }
    unfold Accessor.get, Get. rewrite Hget, (Hkey n Hn). split.
    + intros Hin. destruct (List_only_leaf s _ _ names Hlist Hslash Hin) as [v Hv].
      rewrite Hv. by eexists.
    + intros [e He].
      destruct (kv s !! _) as [v|] eqn:Hv; [|done].
      destruct (List_leaf s ((p +:+ "/" +:+ ToLower r) +:+ "/") (ToLower n) v)
        as (l & Hl & Hin); try done.
      * unfold List in Hlist. by destruct (fail_list s).
      * rewrite Hlist in Hl. by injection Hl as ->.
Qed.

Lemma list_names_what_get_finds_witness :
  let a := Accessor.newAtomicStorageAccessor "request" in
  let s := healthy {[ "request/k8s-admin/n1" := JNull;
                      "request/k8s-admin/n2" := JNull;
                      "request/other/n3" := JNull ]} in
  exists names,
    Accessor.list a s ["K8s-Admin"] = Ok names /\ NoDup names
    /\ "n1" ∈ names /\ "n3" ∉ names.
Proof.
  intros a s.
  assert (P1 : plain "request") by (repeat split; done).
  assert (P2 : plain "K8s-Admin") by (repeat split; done).
  assert (P3 : plain "N1") by (repeat split; done).
  assert (P4 : plain "n3") by (repeat split; done).
  destruct (Accessor.list a s ["K8s-Admin"]) as [names|e] eqn:HL;
    [|vm_compute in HL; discriminate HL].
  destruct (list_names_what_get_finds a s "K8s-Admin" names P1 P2 eq_refl HL)
    as [Hnd Hiff].
  exists names. split; [reflexivity|]. split; [exact Hnd|]. split.
  - apply (proj2 (Hiff "N1" P3)). eexists. vm_compute. reflexivity.
  - intros Hin. apply (proj1 (Hiff "n3" P4)) in Hin as [e He].
    vm_compute in He. discriminate He.
Defined.

End AccessorListSpec.

(** ** The guards of the revoke hooks *)
Module RevokeGuardsSpec.
Import GoStrings GoPath Logical Entries Names KeyFacts StoreFacts Backend.
Import RequestHooks.

(** X17. The revoke hooks of both secret types test the lease's role name
    and nonce against the empty string only. A lease whose name (or, with a
    name, whose nonce) is the empty string is answered with the error
    response "missing role" (or "missing nonce") and the store is left
    alone; a lease that does not hold the key at all, or holds a value that
    is not a string, is not caught by the test and the type assertion
    panics. *)
Theorem revoke_guards (b : backend) (s : Storage) (secret : Secret) :
  let r := {| ReqSecret := Some secret |} in
  let name := InternalData secret !! "name" in
  let nonce := InternalData secret !! "nonce" in
  (name = Some (JStr "") ->
     secretApprovedSecretIssueRevoke b r s
     = Returns ((Some (ErrorResponse "missing role"), None), s)
     /\ secretApprovedSecretRequestRevoke b r s
        = Returns ((Some (ErrorResponse "missing role"), None), s))
  /\ ((forall x, name <> Some (JStr x)) ->
      (exists why, secretApprovedSecretIssueRevoke b r s = Panics why)
      /\ (exists why, secretApprovedSecretRequestRevoke b r s = Panics why))
  /\ (forall x, name = Some (JStr x) -> x <> "" ->
      (nonce = Some (JStr "") ->
         secretApprovedSecretIssueRevoke b r s
         = Returns ((Some (ErrorResponse "missing nonce"), None), s)
         /\ secretApprovedSecretRequestRevoke b r s
            = Returns ((Some (ErrorResponse "missing nonce"), None), s))
      /\ ((forall y, nonce <> Some (JStr y)) ->
          (exists why, secretApprovedSecretIssueRevoke b r s = Panics why)
          /\ (exists why, secretApprovedSecretRequestRevoke b r s = Panics why))).
Proof.
  intros r name nonce.
  unfold secretApprovedSecretIssueRevoke, secretApprovedSecretRequestRevoke.
  cbn [r ReqSecret]. fold name nonce.
  split; [|split].
  - intros ->. done.
  - intros Hname.
    destruct name as [[| | |x| |]|]; cbn [is_empty_string assert_string];
      try (split; by eexists). by destruct (Hname x).
  - intros x -> Hx. apply String.eqb_neq in Hx.
    cbn [is_empty_string assert_string]. rewrite Hx. split.
    + intros ->. done.
    + intros Hnonce.
      destruct nonce as [[| | |y| |]|]; cbn [is_empty_string assert_string];
        try (split; by eexists). by destruct (Hnonce y).
Qed.

Lemma revoke_guards_witness :
  let secret := {| LeaseTTL := 3600; Renewable := false;
                   InternalData := {[ "nonce" := JStr "n1" ]} |} in
  exists why,
    secretApprovedSecretIssueRevoke newBackend {| ReqSecret := Some secret |}
      (healthy ∅) = Panics why.
Proof.
  intros secret.
  destruct (revoke_guards newBackend (healthy ∅) secret) as (_ & Hmissing & _).
  apply Hmissing. intros x H. vm_compute in H. discriminate H.
Defined.

End RevokeGuardsSpec.
